(** * Credential cipher and upload relay of the video-repurposing server

    A shallow embedding of [server/encryption.ts] (the credential cipher) and
    of the settings-save and upload-video handlers of [server/routes.ts],
    together with the properties the specification states about them.

    JavaScript strings are sequences of UTF-16 code units, buffers are
    sequences of bytes, exceptions are an explicit [Throw] result, and the
    Node.js runtime pieces the code calls (scrypt, the random source, the
    AES-256-GCM key stream and authenticator) are the fields of a class. *)

From Stdlib Require Import NArith ZArith List Bool Lia Ascii String DecimalPos.
From Stdlib.Strings Require Import Byte.
From Stdlib.Floats Require Import SpecFloat.
From stdpp Require Import base gmap.
Import ListNotations.

(* ===================================================================== *)
(** ** JavaScript values *)
(* ===================================================================== *)

Module JS.

(** A JavaScript string: its UTF-16 code units, each below [2^16]. *)
Definition js_string : Type := list N.

(** An ASCII literal as a JavaScript string. *)
Definition lit (s : string) : js_string :=
  map N_of_ascii (list_ascii_of_string s).

(** [!s] on a string: only the empty string is falsy. *)
Definition falsy (s : js_string) : bool :=
  match s with [] => true | _ => false end.

Definition truthy (s : js_string) : bool := negb (falsy s).

(** A value of type [string | undefined] (an environment variable, a
    request-body property). *)
Definition falsy_opt (o : option js_string) : bool :=
  match o with Some s => falsy s | None => true end.

(** [a || b] on [string | undefined]. *)
Definition js_or (a b : option js_string) : option js_string :=
  if falsy_opt a then b else a.

(** [s || d] where [d] is a string. *)
Definition or_default (s d : js_string) : js_string :=
  if falsy s then d else s.

Definition js_string_eqb (a b : js_string) : bool :=
  bool_decide (a = b).

(** [s.startsWith(p)]. *)
Fixpoint startsWith (s p : js_string) : bool :=
  match p, s with
  | [], _ => true
  | _ :: _, [] => false
  | c :: p', d :: s' => (c =? d)%N && startsWith s' p'
  end.

(** [s.split(sep)] for a one-unit separator: never the empty array. *)
Fixpoint split (sep : N) (s : js_string) : list js_string :=
  match s with
  | [] => [[]]
  | c :: r =>
      if (c =? sep)%N then [] :: split sep r
      else match split sep r with
           | h :: t => (c :: h) :: t
           | [] => [[c]]
           end
  end.

(** The outcome of a call that may throw; [Throw] carries the message of the
    [Error]. *)
Inductive result (A : Type) : Type :=
| Ok (a : A)
| Throw (message : js_string).
Arguments Ok {A} a.
Arguments Throw {A} message.

Definition bind {A B} (r : result A) (k : A -> result B) : result B :=
  match r with
  | Ok a => k a
  | Throw e => Throw e
  end.

(** [try { body } catch (error) { handler }]. *)
Definition try_catch {A} (body : result A) (handler : js_string -> result A)
  : result A :=
  match body with
  | Ok a => Ok a
  | Throw e => handler e
  end.

End JS.

Export JS.

#[export] Instance result_ret : MRet result := fun A a => Ok a.
#[export] Instance result_bind : MBind result := fun A B k r => bind r k.

(* ===================================================================== *)
(** ** Buffers and their encodings *)
(* ===================================================================== *)

Module Buffer.

Definition buffer : Type := list byte.

#[export] Instance byte_eq_decision : EqDecision byte := Byte.byte_eq_dec.

(** The byte with value [n mod 256]. *)
Definition byte_of_N (n : N) : byte :=
  match Byte.of_N (n mod 256) with
  | Some b => b
  | None => x00
  end.

(** Bitwise exclusive or of two bytes. *)
Definition byte_xor (a b : byte) : byte :=
  let '(a0, (a1, (a2, (a3, (a4, (a5, (a6, a7))))))) := Byte.to_bits a in
  let '(b0, (b1, (b2, (b3, (b4, (b5, (b6, b7))))))) := Byte.to_bits b in
  Byte.of_bits
    (xorb a0 b0, (xorb a1 b1, (xorb a2 b2, (xorb a3 b3,
    (xorb a4 b4, (xorb a5 b5, (xorb a6 b6, xorb a7 b7))))))).

(** *** Hexadecimal: [buf.toString("hex")] and [Buffer.from(s, "hex")] *)

(** The lower-case digit of a nibble. *)
Definition hex_digit (n : N) : N :=
  if (n <? 10)%N then (48 + n)%N else (87 + n)%N.

Definition hex_of_byte (b : byte) : js_string :=
  [hex_digit (Byte.to_N b / 16); hex_digit (Byte.to_N b mod 16)].

Definition toString_hex (buf : buffer) : js_string :=
  flat_map hex_of_byte buf.

(** The value of a hexadecimal digit, in either case. *)
Definition hex_val (c : N) : option N :=
  if ((48 <=? c) && (c <=? 57))%N then Some (c - 48)%N
  else if ((97 <=? c) && (c <=? 102))%N then Some (c - 87)%N
  else if ((65 <=? c) && (c <=? 70))%N then Some (c - 55)%N
  else None.

(** Node decodes two digits at a time and stops at the first pair that is
    not two hexadecimal digits; a trailing single digit is dropped. *)
Fixpoint from_hex (s : js_string) : buffer :=
  match s with
  | c1 :: c2 :: rest =>
      match hex_val c1, hex_val c2 with
      | Some h, Some l => byte_of_N (16 * h + l) :: from_hex rest
      | _, _ => []
      end
  | _ => []
  end.

(** *** UTF-8: [Buffer.from(s, "utf8")] and [buf.toString("utf8")] *)

Definition is_high_surrogate (u : N) : bool := ((0xD800 <=? u) && (u <=? 0xDBFF))%N.
Definition is_low_surrogate (u : N) : bool := ((0xDC00 <=? u) && (u <=? 0xDFFF))%N.

(** The UTF-8 bytes of one code point. *)
Definition utf8_of_code_point (c : N) : buffer :=
  if (c <? 0x80)%N then [byte_of_N c]
  else if (c <? 0x800)%N then
    [byte_of_N (0xC0 + c / 64); byte_of_N (0x80 + c mod 64)]
  else if (c <? 0x10000)%N then
    [byte_of_N (0xE0 + c / 4096); byte_of_N (0x80 + (c / 64) mod 64);
     byte_of_N (0x80 + c mod 64)]
  else
    [byte_of_N (0xF0 + c / 262144); byte_of_N (0x80 + (c / 4096) mod 64);
     byte_of_N (0x80 + (c / 64) mod 64); byte_of_N (0x80 + c mod 64)].

Definition replacement_character : N := 0xFFFD.

(** Encoding a string: a surrogate pair is one code point, and a surrogate
    without its partner is encoded as U+FFFD. *)
Fixpoint from_utf8 (s : js_string) : buffer :=
  match s with
  | [] => []
  | u :: rest =>
      if is_high_surrogate u then
        match rest with
        | v :: rest' =>
            if is_low_surrogate v then
              utf8_of_code_point
                (0x10000 + (u - 0xD800) * 0x400 + (v - 0xDC00))
                ++ from_utf8 rest'
            else utf8_of_code_point replacement_character ++ from_utf8 rest
        | [] => utf8_of_code_point replacement_character
        end
      else if is_low_surrogate u then
        utf8_of_code_point replacement_character ++ from_utf8 rest
      else utf8_of_code_point u ++ from_utf8 rest
  end.

Definition in_range (b lo hi : N) : bool := ((lo <=? b) && (b <=? hi))%N.

(** The code units of a code point. *)
Definition units_of_code_point (c : N) : js_string :=
  if (c <? 0x10000)%N then [c]
  else [(0xD800 + (c - 0x10000) / 0x400)%N; (0xDC00 + (c - 0x10000) mod 0x400)%N].

(** Decoding byte values: an ill-formed sequence becomes U+FFFD and decoding
    resumes at the byte that broke it. *)
Fixpoint decode_utf8 (l : list N) : js_string :=
  match l with
  | [] => []
  | b0 :: r0 =>
      if (b0 <? 0x80)%N then b0 :: decode_utf8 r0
      else if in_range b0 0xC2 0xDF then
        match r0 with
        | b1 :: r1 =>
            if in_range b1 0x80 0xBF then
              ((b0 - 0xC0) * 64 + (b1 - 0x80))%N :: decode_utf8 r1
            else replacement_character :: decode_utf8 r0
        | [] => [replacement_character]
        end
      else if in_range b0 0xE0 0xEF then
        let lo := if (b0 =? 0xE0)%N then 0xA0%N else 0x80%N in
        let hi := if (b0 =? 0xED)%N then 0x9F%N else 0xBF%N in
        match r0 with
        | b1 :: r1 =>
            if in_range b1 lo hi then
              match r1 with
              | b2 :: r2 =>
                  if in_range b2 0x80 0xBF then
                    ((b0 - 0xE0) * 4096 + (b1 - 0x80) * 64 + (b2 - 0x80))%N
                      :: decode_utf8 r2
                  else replacement_character :: decode_utf8 r1
              | [] => [replacement_character]
              end
            else replacement_character :: decode_utf8 r0
        | [] => [replacement_character]
        end
      else if in_range b0 0xF0 0xF4 then
        let lo := if (b0 =? 0xF0)%N then 0x90%N else 0x80%N in
        let hi := if (b0 =? 0xF4)%N then 0x8F%N else 0xBF%N in
        match r0 with
        | b1 :: r1 =>
            if in_range b1 lo hi then
              match r1 with
              | b2 :: r2 =>
                  if in_range b2 0x80 0xBF then
                    match r2 with
                    | b3 :: r3 =>
                        if in_range b3 0x80 0xBF then
                          units_of_code_point
                            ((b0 - 0xF0) * 262144 + (b1 - 0x80) * 4096
                             + (b2 - 0x80) * 64 + (b3 - 0x80))
                            ++ decode_utf8 r3
                        else replacement_character :: decode_utf8 r2
                    | [] => [replacement_character]
                    end
                  else replacement_character :: decode_utf8 r1
              | [] => [replacement_character]
              end
            else replacement_character :: decode_utf8 r0
        | [] => [replacement_character]
        end
      else replacement_character :: decode_utf8 r0
  end.

Definition toString_utf8 (buf : buffer) : js_string :=
  decode_utf8 (map Byte.to_N buf).

(** A string that UTF-8 can carry: 16-bit units with every surrogate
    paired. *)
Fixpoint well_formed (s : js_string) : bool :=
  match s with
  | [] => true
  | u :: rest =>
      if is_high_surrogate u then
        match rest with
        | v :: rest' => is_low_surrogate v && well_formed rest'
        | [] => false
        end
      else negb (is_low_surrogate u) && (u <? 65536)%N && well_formed rest
  end.

End Buffer.

Export Buffer.

(* ===================================================================== *)
(** ** Node's [crypto] module, as far as the code uses it *)
(* ===================================================================== *)

Module Crypto.

(** The primitives behind [crypto.scryptSync], [crypto.randomBytes] and the
    ["aes-256-gcm"] cipher.  GCM encrypts by xor with a key stream that the
    key and the initialization vector determine, and authenticates the
    ciphertext with a tag that key, vector and ciphertext determine. *)
Class NodeCrypto : Type := {
  scryptSync : buffer -> buffer -> nat -> buffer;
  entropy : Type;
  randomBytes : nat -> entropy -> buffer * entropy;
  gcm_keystream : buffer -> buffer -> nat -> byte;
  gcm_mac : buffer -> buffer -> buffer -> buffer;
}.

(** What the documentation of these primitives promises about sizes. *)
Class NodeCryptoLaws (C : NodeCrypto) : Prop := {
  scryptSync_length : forall p s n, length (scryptSync p s n) = n;
  randomBytes_length : forall n e, length (fst (randomBytes n e)) = n;
  gcm_mac_length : forall k iv c, length (gcm_mac k iv c) = 16;
}.

(** Integrity of the authenticator under one key against the substitution
    of one byte of the ciphertext.  The tag of GCM has this property under
    every key whose hash subkey is not zero. *)
Definition detects_substitution (C : NodeCrypto) (key : buffer) : Prop :=
  forall iv l1 a a' l2,
    a <> a'
    -> gcm_mac key iv (l1 ++ a :: l2) <> gcm_mac key iv (l1 ++ a' :: l2).

Section Objects.
Context {C : NodeCrypto}.

(** Xor of [data] with the key stream from position [offset] on. *)
Fixpoint gcm_xor (key iv : buffer) (offset : nat) (data : buffer) : buffer :=
  match data with
  | [] => []
  | b :: rest =>
      byte_xor b (gcm_keystream key iv offset)
        :: gcm_xor key iv (S offset) rest
  end.

(** A [Cipher] object: key, vector and the ciphertext produced so far. *)
Record Cipher : Type := {
  cipher_key : buffer;
  cipher_iv : buffer;
  cipher_produced : buffer;
}.

(** A [Decipher] object: key, vector, the tag to verify and the ciphertext
    consumed so far. *)
Record Decipher : Type := {
  decipher_key : buffer;
  decipher_iv : buffer;
  decipher_tag : option buffer;
  decipher_consumed : buffer;
}.

Definition known_algorithm (algorithm : js_string) : bool :=
  js_string_eqb algorithm (lit "aes-256-gcm").

(** [crypto.createCipheriv(algorithm, key, iv)]. *)
Definition createCipheriv (algorithm : js_string) (key iv : buffer)
  : result Cipher :=
  if negb (known_algorithm algorithm) then Throw (lit "Unknown cipher")
  else if negb (length key =? 32)%nat then Throw (lit "Invalid key length")
  else if (length iv =? 0)%nat then Throw (lit "Invalid initialization vector")
  else Ok {| cipher_key := key; cipher_iv := iv; cipher_produced := [] |}.

(** [cipher.update(data)]: the object after the call and the bytes it
    returns. *)
Definition cipher_update (c : Cipher) (data : buffer) : Cipher * buffer :=
  let out :=
    gcm_xor (cipher_key c) (cipher_iv c) (length (cipher_produced c)) data in
  ({| cipher_key := cipher_key c; cipher_iv := cipher_iv c;
      cipher_produced := cipher_produced c ++ out |}, out).

(** [cipher.final()]: a stream mode holds nothing back. *)
Definition cipher_final (c : Cipher) : buffer := [].

(** [cipher.getAuthTag()]. *)
Definition getAuthTag (c : Cipher) : buffer :=
  gcm_mac (cipher_key c) (cipher_iv c) (cipher_produced c).

(** [crypto.createDecipheriv(algorithm, key, iv)]. *)
Definition createDecipheriv (algorithm : js_string) (key iv : buffer)
  : result Decipher :=
  if negb (known_algorithm algorithm) then Throw (lit "Unknown cipher")
  else if negb (length key =? 32)%nat then Throw (lit "Invalid key length")
  else if (length iv =? 0)%nat then Throw (lit "Invalid initialization vector")
  else Ok {| decipher_key := key; decipher_iv := iv; decipher_tag := None;
             decipher_consumed := [] |}.

Definition valid_tag_length (n : nat) : bool :=
  existsb (Nat.eqb n) [4; 8; 12; 13; 14; 15; 16]%nat.

(** [decipher.setAuthTag(tag)]. *)
Definition setAuthTag (d : Decipher) (tag : buffer) : result Decipher :=
  if valid_tag_length (length tag) then
    Ok {| decipher_key := decipher_key d; decipher_iv := decipher_iv d;
          decipher_tag := Some tag;
          decipher_consumed := decipher_consumed d |}
  else Throw (lit "Invalid authentication tag length").

(** [decipher.update(data)]. *)
Definition decipher_update (d : Decipher) (data : buffer)
  : Decipher * buffer :=
  let out :=
    gcm_xor (decipher_key d) (decipher_iv d)
      (length (decipher_consumed d)) data in
  ({| decipher_key := decipher_key d; decipher_iv := decipher_iv d;
      decipher_tag := decipher_tag d;
      decipher_consumed := decipher_consumed d ++ data |}, out).

(** [decipher.update(data, "hex")] on a string: a string of odd length is
    refused; otherwise its bytes are consumed. *)
Definition decipher_update_hex (d : Decipher) (data : js_string)
  : result (Decipher * buffer) :=
  if Nat.odd (length data) then
    Throw (lit "The argument 'encoding' is invalid for data of odd length")
  else Ok (decipher_update d (from_hex data)).

Definition buffer_eqb (a b : buffer) : bool := bool_decide (a = b).

(** [decipher.final()]: throws unless the tag that was set is the tag of
    the ciphertext consumed, compared over the length of the tag set. *)
Definition decipher_final (d : Decipher) : result buffer :=
  let expected :=
    gcm_mac (decipher_key d) (decipher_iv d) (decipher_consumed d) in
  match decipher_tag d with
  | Some tag =>
      if buffer_eqb tag (firstn (length tag) expected) then Ok []
      else Throw (lit "Unsupported state or unable to authenticate data")
  | None => Throw (lit "Unsupported state or unable to authenticate data")
  end.

End Objects.

End Crypto.

Export Crypto.

(* ===================================================================== *)
(** ** [server/encryption.ts] *)
(* ===================================================================== *)

Module Encryption.

Definition ALGORITHM : js_string := lit "aes-256-gcm".
Definition IV_LENGTH : nat := 16.
Definition TAG_LENGTH : nat := 16.

(** The two variables of [process.env] the module reads. *)
Record process_env : Type := {
  ENCRYPTION_KEY : option js_string;
  SESSION_SECRET : option js_string;
}.

Section WithCrypto.
Context {C : NodeCrypto}.

Definition getEncryptionKey (env : process_env) : result buffer :=
  match js_or (ENCRYPTION_KEY env) (SESSION_SECRET env) with
  | Some key =>
      if falsy key then
        Throw (lit "ENCRYPTION_KEY or SESSION_SECRET must be set")
      else Ok (scryptSync (from_utf8 key) (from_utf8 (lit "salt")) 32)
  | None => Throw (lit "ENCRYPTION_KEY or SESSION_SECRET must be set")
  end.

(** Some variable holds a non-empty passphrase. *)
Definition key_present (env : process_env) : bool :=
  negb (falsy_opt (ENCRYPTION_KEY env)) || negb (falsy_opt (SESSION_SECRET env)).

(** [encrypt(text)]; the random source is threaded through. *)
Definition encrypt (env : process_env) (text : js_string) (e : entropy)
  : result (js_string * entropy) :=
  if falsy text then Ok ([], e)
  else
    key ← getEncryptionKey env;
    let '(iv, e') := randomBytes IV_LENGTH e in
    cipher ← createCipheriv ALGORITHM key iv;
    let '(cipher, out) := cipher_update cipher (from_utf8 text) in
    let encrypted := toString_hex out in
    let encrypted := encrypted ++ toString_hex (cipher_final cipher) in
    let tag := getAuthTag cipher in
    Ok (toString_hex iv ++ lit ":" ++ toString_hex tag ++ lit ":" ++ encrypted,
        e').

(** The body of the [try] block of [decrypt].  The two pieces of text that
    [update] and [final] return are the UTF-8 decoding of all the bytes the
    decipher put out. *)
Definition decrypt_try (env : process_env) (encryptedText : js_string)
  : result js_string :=
  key ← getEncryptionKey env;
  let parts := split 58 encryptedText in
  if negb (length parts =? 3)%nat then Ok []
  else
    let iv := from_hex (nth 0 parts []) in
    let tag := from_hex (nth 1 parts []) in
    let encrypted := nth 2 parts [] in
    decipher ← createDecipheriv ALGORITHM key iv;
    decipher ← setAuthTag decipher tag;
    '(decipher, out) ← decipher_update_hex decipher encrypted;
    rest ← decipher_final decipher;
    Ok (toString_utf8 (out ++ rest)).

(** [decrypt(encryptedText)]. *)
Definition decrypt (env : process_env) (encryptedText : js_string)
  : result js_string :=
  if falsy encryptedText then Ok []
  else try_catch (decrypt_try env encryptedText) (fun _ => Ok []).

End WithCrypto.

End Encryption.

Export Encryption.

(* ===================================================================== *)
(** ** Numbers as the handlers use them *)
(* ===================================================================== *)

Module Number.

(** A number that is an integer or [NaN].  Integers are exact here; the
    source's numbers are doubles, which agree with them below [2^53] in
    absolute value and round beyond it: the model of a count is meant for
    that range. *)
Inductive js_number : Type :=
| NaN
| Int (z : Z).

Definition is_white_space (c : N) : bool :=
  existsb (N.eqb c)
    [9; 10; 11; 12; 13; 32; 160; 0x1680; 0x2028; 0x2029; 0x202F; 0x205F;
     0x3000; 0xFEFF]%N
  || in_range c 0x2000 0x200A.

Fixpoint trim_start (s : js_string) : js_string :=
  match s with
  | c :: rest => if is_white_space c then trim_start rest else s
  | [] => []
  end.

(** The value of a digit of the given radix. *)
Definition digit_value (radix c : N) : option N :=
  let v :=
    if in_range c 48 57 then Some (c - 48)%N
    else if in_range c 97 122 then Some (c - 87)%N
    else if in_range c 65 90 then Some (c - 55)%N
    else None in
  match v with
  | Some d => if (d <? radix)%N then Some d else None
  | None => None
  end.

(** The value of the longest prefix of digits; [acc] is [None] until a
    digit was read. *)
Fixpoint digits_value (radix : N) (acc : option N) (s : js_string)
  : option N :=
  match s with
  | [] => acc
  | c :: rest =>
      match digit_value radix c with
      | Some d =>
          digits_value radix
            (Some (radix * (match acc with Some n => n | None => 0 end) + d)%N)
            rest
      | None => acc
      end
  end.

(** [parseInt(s)] with no radix argument; the integer read is exact (the
    source's is the nearest double, the same below [2^53]). *)
Definition parseInt (s : js_string) : js_number :=
  let s := trim_start s in
  let '(negative, s) :=
    match s with
    | 45%N :: rest => (true, rest)
    | 43%N :: rest => (false, rest)
    | _ => (false, s)
    end in
  let '(radix, s) :=
    match s with
    | 48%N :: x :: rest =>
        if ((x =? 120) || (x =? 88))%N then (16%N, rest) else (10%N, s)
    | _ => (10%N, s)
    end in
  match digits_value radix None s with
  | None => NaN
  | Some n => Int (if negative then - Z.of_N n else Z.of_N n)
  end.

(** [n || d] for a number [d]: [NaN] and zero are falsy. *)
Definition number_or (n : js_number) (d : Z) : Z :=
  match n with
  | NaN => d
  | Int z => if (z =? 0)%Z then d else z
  end.

Fixpoint uint_units (d : Decimal.uint) : js_string :=
  match d with
  | Decimal.Nil => []
  | Decimal.D0 r => 48%N :: uint_units r
  | Decimal.D1 r => 49%N :: uint_units r
  | Decimal.D2 r => 50%N :: uint_units r
  | Decimal.D3 r => 51%N :: uint_units r
  | Decimal.D4 r => 52%N :: uint_units r
  | Decimal.D5 r => 53%N :: uint_units r
  | Decimal.D6 r => 54%N :: uint_units r
  | Decimal.D7 r => 55%N :: uint_units r
  | Decimal.D8 r => 56%N :: uint_units r
  | Decimal.D9 r => 57%N :: uint_units r
  end.

(** [z.toString()] and the interpolation of [z] in a template string, for
    an integer below [2^53] in absolute value (a larger double is printed
    by its shortest digits, and from [10^21] on with an exponent). *)
Definition number_toString (z : Z) : js_string :=
  match Z.to_int z with
  | Decimal.Pos d => uint_units d
  | Decimal.Neg d => 45%N :: uint_units d
  end.

End Number.

Export Number.

(* ===================================================================== *)
(** ** [server/routes.ts]: saving the settings *)
(* ===================================================================== *)

Module Settings.

(** A value of type [string | null | undefined]. *)
Inductive nullable : Type :=
| Undefined
| Null
| Str (s : js_string).

(** The row of [userSettings] of one user; a column is a string or null. *)
Record settings_row : Type := {
  row_webhookUrl : option js_string;
  row_airtableApiKey : option js_string;
  row_airtableBaseId : option js_string;
  row_airtableTableName : option js_string;
  row_openaiApiKey : option js_string;
}.

(** [existing?.column]. *)
Definition column_of (existing : option settings_row)
  (column : settings_row -> option js_string) : nullable :=
  match existing with
  | None => Undefined
  | Some row => match column row with Some s => Str s | None => Null end
  end.

(** The properties of [req.body] the handler reads: text properties are a
    string or absent, the two flags count by their truthiness. *)
Record settings_body : Type := {
  webhookUrl : option js_string;
  airtableApiKey : option js_string;
  airtableBaseId : option js_string;
  airtableTableName : option js_string;
  openaiApiKey : option js_string;
  clearApiKey : bool;
  clearOpenaiKey : bool;
}.

(** The values handed to [set] or [values]. *)
Record settings_values : Type := {
  set_webhookUrl : nullable;
  set_airtableApiKey : nullable;
  set_airtableBaseId : nullable;
  set_airtableTableName : nullable;
  set_openaiApiKey : nullable;
}.

Inductive db_write : Type :=
| Update (values : settings_values)
| Insert (values : settings_values).

Definition written (w : db_write) : settings_values :=
  match w with Update v => v | Insert v => v end.

(** The mask the settings page shows in place of a stored key. *)
Definition mask_prefix : js_string := [0x2022; 0x2022]%N.

Definition of_option (o : option js_string) : nullable :=
  match o with Some s => Str s | None => Undefined end.

(** [s.trim()]. *)
Definition trim (s : js_string) : js_string :=
  rev (trim_start (rev (trim_start s))).

(** [webhookUrl?.trim() || null]. *)
Definition trimmed_or_null (o : option js_string) : nullable :=
  match o with
  | Some s => if falsy (trim s) then Null else Str (trim s)
  | None => Null
  end.

(** The submitted key is absent, empty or starts with the mask. *)
Definition keeps_stored (submitted : option js_string) : bool :=
  match submitted with
  | Some key => falsy key || startsWith key mask_prefix
  | None => true
  end.

Section WithCrypto.
Context {C : NodeCrypto}.

(** The body of the [try] block of [POST /api/settings]: the write it
    issues, or the exception that ends it. *)
Definition save_settings_try (env : process_env) (body : settings_body)
  (existing : option settings_row) (e : entropy)
  : result (db_write * entropy) :=
  '(encryptedApiKey, e) ←
    (if clearApiKey body then Ok (Null, e)
     else
       match airtableApiKey body with
       | Some key =>
           if truthy key && negb (startsWith key mask_prefix) then
             '(c, e') ← encrypt env key e; Ok (Str c, e')
           else Ok (column_of existing row_airtableApiKey, e)
       | None => Ok (column_of existing row_airtableApiKey, e)
       end);
  '(encryptedOpenaiKey, e) ←
    (if clearOpenaiKey body then Ok (Null, e)
     else
       match openaiApiKey body with
       | Some key =>
           if truthy key && negb (startsWith key mask_prefix) then
             '(c, e') ← encrypt env key e; Ok (Str c, e')
           else Ok (column_of existing row_openaiApiKey, e)
       | None => Ok (column_of existing row_openaiApiKey, e)
       end);
  let trimmedWebhookUrl := trimmed_or_null (webhookUrl body) in
  let values :=
    {| set_webhookUrl := trimmedWebhookUrl;
       set_airtableApiKey := encryptedApiKey;
       set_airtableBaseId := of_option (airtableBaseId body);
       set_airtableTableName := of_option (airtableTableName body);
       set_openaiApiKey := encryptedOpenaiKey |} in
  match existing with
  | Some _ => Ok (Update values, e)
  | None => Ok (Insert values, e)
  end.

(** The choice each of the two blocks above makes for its column, given a
    name for the proofs. *)
Definition chosen_key (env : process_env) (clear : bool)
  (submitted : option js_string) (stored : nullable) (e : entropy)
  : result (nullable * entropy) :=
  if clear then Ok (Null, e)
  else
    match submitted with
    | Some key =>
        if truthy key && negb (startsWith key mask_prefix) then
          '(c, e') ← encrypt env key e; Ok (Str c, e')
        else Ok (stored, e)
    | None => Ok (stored, e)
    end.

(** The handler with its [catch], for a body whose text properties are
    strings or absent: the status, with the write when one took effect.
    The query for the row is inside the [try] and may fail, and so may the
    write ([accepts] says which writes the database takes). *)
Definition save_settings (env : process_env) (body : settings_body)
  (selected : result (option settings_row)) (accepts : db_write -> bool)
  (e : entropy) : Z * option db_write :=
  match selected with
  | Ok existing =>
      match save_settings_try env body existing e with
      | Ok (w, _) => if accepts w then (200%Z, Some w) else (500%Z, None)
      | Throw _ => (500%Z, None)
      end
  | Throw _ => (500%Z, None)
  end.

End WithCrypto.

End Settings.

Export Settings.

(* ===================================================================== *)
(** ** [server/routes.ts]: the upload relay *)
(* ===================================================================== *)

Module Upload.

(** One part of the multipart body of a request, in the order sent. *)
Inductive part : Type :=
| Field (name value : js_string)
| File (name filename : js_string) (size : N).

(** What the parser calls the handlers with. *)
Inductive busboy_event : Type :=
| OnField (name value : js_string)
| OnFile (name filename : js_string)
| OnLimit
| OnFinish
| OnError.

(** [limits.fileSize]. *)
Definition fileSize : N := 500 * 1024 * 1024.

(** The calls the parser makes for the parts of a body: a file part that
    reaches the limit has its stream emit ["limit"] before the next part. *)
Fixpoint part_events (parts : list part) : list busboy_event :=
  match parts with
  | [] => []
  | Field name value :: rest => OnField name value :: part_events rest
  | File name filename size :: rest =>
      OnFile name filename
        :: (if (fileSize <=? size)%N then [OnLimit] else [])
        ++ part_events rest
  end.

(** A body parses to its end (["finish"]) or the parser fails on it
    (["error"]). *)
Inductive body_end : Type :=
| Complete
| Malformed.

Definition end_event (b : body_end) : busboy_event :=
  match b with Complete => OnFinish | Malformed => OnError end.

Record upload_request : Type := {
  multipart : bool;          (* the headers name a multipart body *)
  parts : list part;
  body_ends : body_end;
}.

(** One part appended to the [FormData] object of the [form-data]
    package. *)
Inductive form_part : Type :=
| FormField (name value : js_string)
| FormFile (name path filename contentType : js_string).

(** What [fetch] does with a request. *)
Inductive fetch_result : Type :=
| FetchThrows (message : js_string)
| FetchResponse (status : Z) (text : result js_string).

(** What the handler takes from outside the request.  [fetch] is the
    global one: what it does with a [POST] of that body text to that URL.
    [finish_heard] says whether the write stream of the last file emits
    ["finish"] after the finish handler has begun to listen for it, not
    before; [busboy_refusal] is the message of the error [Busboy] throws
    for headers that do not name a multipart body. *)
Record runtime : Type := {
  webhook : option js_string;                  (* getUserWebhookUrl(userId) *)
  tmpdir : js_string;                          (* os.tmpdir() *)
  unique_id : nat -> js_string;                (* the n-th unique id drawn *)
  fetch : js_string -> js_string -> fetch_result;
  finish_heard : bool;
  busboy_refusal : js_string;
}.

Inductive json_body : Type :=
| ErrorBody (error : js_string)
| SuccessBody (message : js_string).

(** A [fs.WriteStream]. *)
Record write_stream : Type := { destroyed : bool }.

(** The variables the handlers of one request share. *)
Record session : Type := {
  tempFilePath : option js_string;
  fileStream : option write_stream;
  fileName : js_string;
  clipSize : js_string;
  clipDuration : js_string;
  clipCount : Z;
  fileReceived : bool;
}.

(** What is outside the handler: the paths that exist, the unique ids
    drawn, the responses sent and the calls of [fetch], each with the URL
    and the form object handed over as the body. *)
Record world : Type := {
  files : gset js_string;
  drawn : nat;
  responses : list (Z * json_body);
  posts : list (js_string * list form_part);
}.

Definition initial_session : session :=
  {| tempFilePath := None; fileStream := None; fileName := [];
     clipSize := []; clipDuration := []; clipCount := 1;
     fileReceived := false |}.

(** [res.status(status).json(body)]. *)
Definition respond (status : Z) (body : json_body) (w : world) : world :=
  {| files := files w; drawn := drawn w;
     responses := responses w ++ [(status, body)]; posts := posts w |}.

(** [path.join(dir, name)] for a name without directory parts. *)
Definition path_join (dir name : js_string) : js_string :=
  dir ++ lit "/" ++ name.

(** [if (tempFilePath && fs.existsSync(tempFilePath))
       fs.unlinkSync(tempFilePath)]. *)
Definition unlink_if_exists (path : option js_string) (w : world) : world :=
  match path with
  | Some p =>
      if truthy p && bool_decide (p ∈ files w) then
        {| files := files w ∖ {[p]}; drawn := drawn w;
           responses := responses w; posts := posts w |}
      else w
  | None => w
  end.

(** [busboy.on("field", ...)]. *)
Definition on_field (name value : js_string) (s : session) : session :=
  let s :=
    if js_string_eqb name (lit "clip_size") then
      {| tempFilePath := tempFilePath s; fileStream := fileStream s;
         fileName := fileName s; clipSize := value;
         clipDuration := clipDuration s; clipCount := clipCount s;
         fileReceived := fileReceived s |}
    else s in
  let s :=
    if js_string_eqb name (lit "clip_duration") then
      {| tempFilePath := tempFilePath s; fileStream := fileStream s;
         fileName := fileName s; clipSize := clipSize s;
         clipDuration := value; clipCount := clipCount s;
         fileReceived := fileReceived s |}
    else s in
  if js_string_eqb name (lit "clip_count") then
    {| tempFilePath := tempFilePath s; fileStream := fileStream s;
       fileName := fileName s; clipSize := clipSize s;
       clipDuration := clipDuration s;
       clipCount := number_or (parseInt value) 1;
       fileReceived := fileReceived s |}
  else s.

(** [busboy.on("file", ...)]: a fresh path, a stream that creates the
    file. *)
Definition on_file (rt : runtime) (name filename : js_string)
  (sw : session * world) : session * world :=
  let '(s, w) := sw in
  let uniqueId := unique_id rt (drawn w) in
  let path :=
    path_join (tmpdir rt) (lit "upload-" ++ uniqueId ++ lit "-" ++ filename) in
  ({| tempFilePath := Some path;
      fileStream := Some {| destroyed := false |};
      fileName := filename; clipSize := clipSize s;
      clipDuration := clipDuration s; clipCount := clipCount s;
      fileReceived := true |},
   {| files := {[path]} ∪ files w; drawn := S (drawn w);
      responses := responses w; posts := posts w |}).

(** [file.on("limit", ...)]. *)
Definition on_limit (sw : session * world) : session * world :=
  let '(s, w) := sw in
  ({| tempFilePath := tempFilePath s;
      fileStream :=
        match fileStream s with
        | Some _ => Some {| destroyed := true |}
        | None => None
        end;
      fileName := fileName s; clipSize := clipSize s;
      clipDuration := clipDuration s; clipCount := clipCount s;
      fileReceived := fileReceived s |},
   unlink_if_exists (tempFilePath s) w).

(** The form built for the webhook. *)
Definition webhook_form (s : session) (path : js_string) : list form_part :=
  [FormField (lit "video_type") (lit "mp4");
   FormField (lit "file_name") (fileName s);
   FormField (lit "clip_size") (clipSize s);
   FormField (lit "clip_duration") (clipDuration s);
   FormField (lit "clip_count") (number_toString (clipCount s));
   FormFile (lit "file") path (fileName s) (lit "video/mp4")].

Definition response_ok (status : Z) : bool :=
  ((200 <=? status) && (status <=? 299))%Z.

(** The body the global [fetch] makes of a [form-data] object, which is
    none of the body types it knows: the object's [toString()]. *)
Definition form_toString (form : list form_part) : js_string :=
  lit "[object FormData]".

(** Does the promise on the stream's ["finish"] resolve?  A destroyed
    stream never emits it, and the listener is added only here, in the
    finish handler: a stream that has emitted it already is not heard. *)
Definition stream_finishes (rt : runtime) (s : session) : bool :=
  match fileStream s with
  | Some stream => negb (destroyed stream) && finish_heard rt
  | None => true
  end.

(** [busboy.on("finish", ...)], with its own [try] and [catch]. *)
Definition on_finish (rt : runtime) (url : js_string) (sw : session * world)
  : session * world :=
  let '(s, w) := sw in
  let catch (message : js_string) (w : world) : world :=
    respond 500 (ErrorBody message) (unlink_if_exists (tempFilePath s) w) in
  match tempFilePath s with
  | Some path =>
      if negb (fileReceived s) || falsy path then
        (s, respond 400 (ErrorBody (lit "No file uploaded")) w)
      else if falsy (clipSize s) || falsy (clipDuration s) then
        (s, respond 400 (ErrorBody (lit "Missing clip configuration"))
              (unlink_if_exists (tempFilePath s) w))
      else if negb (stream_finishes rt s) then (s, w)
      else
        let form := webhook_form s path in
        let w :=
          {| files := files w; drawn := drawn w; responses := responses w;
             posts := posts w ++ [(url, form)] |} in
        match fetch rt url (form_toString form) with
        | FetchThrows message => (s, catch message w)
        | FetchResponse status text =>
            let w := unlink_if_exists (tempFilePath s) w in
            match text with
            | Throw message => (s, catch message w)
            | Ok body =>
                if negb (response_ok status) then
                  (s, respond status
                        (ErrorBody
                           (or_default body
                              (lit "Webhook returned status "
                               ++ number_toString status))) w)
                else
                  (s, respond 200
                        (SuccessBody
                           (or_default body
                              (lit "Video submitted successfully"))) w)
            end
        end
  | None => (s, respond 400 (ErrorBody (lit "No file uploaded")) w)
  end.

(** [busboy.on("error", ...)]. *)
Definition on_error (sw : session * world) : session * world :=
  let '(s, w) := sw in
  (s, respond 500 (ErrorBody (lit "Upload failed"))
        (unlink_if_exists (tempFilePath s) w)).

Definition handle (rt : runtime) (url : js_string) (ev : busboy_event)
  (sw : session * world) : session * world :=
  match ev with
  | OnField name value => (on_field name value (fst sw), snd sw)
  | OnFile name filename => on_file rt name filename sw
  | OnLimit => on_limit sw
  | OnFinish => on_finish rt url sw
  | OnError => on_error sw
  end.

(** The handlers run in the order of the events. *)
Definition run_events (rt : runtime) (url : js_string)
  (events : list busboy_event) (sw : session * world) : session * world :=
  fold_left (fun sw ev => handle rt url ev sw) events sw.

(** A file part that reaches the limit. *)
Definition reaches_limit (p : part) : bool :=
  match p with
  | Field _ _ => false
  | File _ _ size => (fileSize <=? size)%N
  end.

(** How the parser ends.  A file whose write stream the limit handler
    destroyed is unpiped and never read to its end, and the parser does
    not emit ["finish"] while a file is unread: a body that parses to its
    end after a limit breach ends in no event at all. *)
Definition end_events (req : upload_request) : list busboy_event :=
  match body_ends req with
  | Complete =>
      if existsb reaches_limit (parts req) then [] else [OnFinish]
  | Malformed => [OnError]
  end.

Definition request_events (req : upload_request) : list busboy_event :=
  part_events (parts req) ++ end_events req.

(** [POST /api/upload-video], from the world before the request to the
    world after it. *)
Definition upload_video (rt : runtime) (req : upload_request) (w : world)
  : world :=
  match webhook rt with
  | Some url =>
      if falsy url then
        respond 400
          (ErrorBody (lit "Webhook URL not configured. Please add your n8n webhook URL in Settings.")) w
      else if negb (multipart req) then
        (* the parser's constructor throws; the outer [catch] *)
        respond 500 (ErrorBody (busboy_refusal rt))
          (unlink_if_exists None w)
      else snd (run_events rt url (request_events req) (initial_session, w))
  | None =>
      respond 400
        (ErrorBody (lit "Webhook URL not configured. Please add your n8n webhook URL in Settings.")) w
  end.

(** A part that is a field. *)
Definition is_field (p : part) : bool :=
  match p with Field _ _ => true | File _ _ _ => false end.

(** The value of the last field of that name, if there is one. *)
Definition last_field (name : js_string) (ps : list part) : option js_string :=
  fold_left
    (fun acc p =>
       match p with
       | Field n v => if js_string_eqb n name then Some v else acc
       | File _ _ _ => acc
       end) ps None.

(** The file name of the last file part, if there is one. *)
Definition last_filename (ps : list part) : option js_string :=
  fold_left
    (fun acc p =>
       match p with
       | Field _ _ => acc
       | File _ filename _ => Some filename
       end) ps None.

(** The fields the webhook is to receive for a request: the constant
    type, the name of the file, the two clip settings as sent, and the
    count after parsing and defaulting. *)
Definition expected_fields (req : upload_request) : list form_part :=
  [FormField (lit "video_type") (lit "mp4");
   FormField (lit "file_name") (default [] (last_filename (parts req)));
   FormField (lit "clip_size")
     (default [] (last_field (lit "clip_size") (parts req)));
   FormField (lit "clip_duration")
     (default [] (last_field (lit "clip_duration") (parts req)));
   FormField (lit "clip_count")
     (number_toString
        (match last_field (lit "clip_count") (parts req) with
         | Some value => number_or (parseInt value) 1
         | None => 1
         end))].

(** The request got no response. *)
Definition hung (before after : world) : bool :=
  (length (responses after) =? length (responses before))%nat.

End Upload.

Export Upload.

(* ===================================================================== *)
(** ** What the cipher reads of its surroundings *)
(* ===================================================================== *)

Module Envelope.

(** The passphrase in effect: the first of the two variables that holds a
    non-empty string. *)
Definition passphrase (env : process_env) : option js_string :=
  match js_or (ENCRYPTION_KEY env) (SESSION_SECRET env) with
  | Some key => if falsy key then None else Some key
  | None => None
  end.

(** A hexadecimal letter in upper case; every other unit as it is. *)
Definition hex_upper (c : N) : N :=
  if in_range c 97 102 then (c - 32)%N else c.

(** A digit or a lower-case hexadecimal letter. *)
Definition is_lower_hex (c : N) : bool :=
  in_range c 48 57 || in_range c 97 102.

End Envelope.

Export Envelope.

(* ===================================================================== *)
(** ** [server/routes.ts]: reading the settings *)
(* ===================================================================== *)

Module SettingsRead.

(** The body of the response of [GET /api/settings]. *)
Record settings_view : Type := {
  view_webhookUrl : js_string;
  view_airtableApiKey : js_string;
  view_airtableBaseId : js_string;
  view_airtableTableName : js_string;
  view_hasApiKey : bool;
  view_openaiApiKey : js_string;
  view_hasOpenaiKey : bool;
}.

(** The eight bullets shown for a stored key. *)
Definition mask : js_string := repeat 0x2022%N 8.

(** [settings?.column || ""]. *)
Definition column_or_empty (settings : option settings_row)
  (column : settings_row -> option js_string) : js_string :=
  match column_of settings column with
  | Str s => s
  | _ => []
  end.

(** [!!settings?.column]. *)
Definition column_truthy (settings : option settings_row)
  (column : settings_row -> option js_string) : bool :=
  match column_of settings column with
  | Str s => truthy s
  | _ => false
  end.

(** [GET /api/settings], given the row the query found. *)
Definition get_settings (settings : option settings_row) : settings_view :=
  {| view_webhookUrl := column_or_empty settings row_webhookUrl;
     view_airtableApiKey :=
       if column_truthy settings row_airtableApiKey then mask else [];
     view_airtableBaseId := column_or_empty settings row_airtableBaseId;
     view_airtableTableName := column_or_empty settings row_airtableTableName;
     view_hasApiKey := column_truthy settings row_airtableApiKey;
     view_openaiApiKey :=
       if column_truthy settings row_openaiApiKey then mask else [];
     view_hasOpenaiKey := column_truthy settings row_openaiApiKey |}.

(** The form of the settings page once the response has arrived
    ([settings.column || ""] for each text), sent back as it is. *)
Definition page_body (view : settings_view) : settings_body :=
  {| webhookUrl := Some (or_default (view_webhookUrl view) []);
     airtableApiKey := Some (or_default (view_airtableApiKey view) []);
     airtableBaseId := Some (or_default (view_airtableBaseId view) []);
     airtableTableName := Some (or_default (view_airtableTableName view) []);
     openaiApiKey := Some (or_default (view_openaiApiKey view) []);
     clearApiKey := false;
     clearOpenaiKey := false |}.

(** A column after a write: an undefined value leaves it as it was (null in
    a new row), null clears it. *)
Definition column_after (value : nullable) (old : option js_string)
  : option js_string :=
  match value with
  | Undefined => old
  | Null => None
  | Str s => Some s
  end.

(** A text as it is read back from a column: the database holds it in
    UTF-8, so a surrogate without its partner comes back as U+FFFD. *)
Definition stored_text (s : js_string) : js_string :=
  toString_utf8 (from_utf8 s).

(** A column that receives a text of the request. *)
Definition text_after (value : nullable) (old : option js_string)
  : option js_string :=
  match value with
  | Undefined => old
  | Null => None
  | Str s => Some (stored_text s)
  end.

(** The row of the user after a write that the database took.  The two
    key columns receive an envelope of [encrypt] or the value that was
    read from them, which the encoding leaves as it is. *)
Definition row_after (w : db_write) (existing : option settings_row)
  : settings_row :=
  let old (column : settings_row -> option js_string) :=
    match w, existing with
    | Update _, Some row => column row
    | _, _ => None
    end in
  {| row_webhookUrl :=
       text_after (set_webhookUrl (written w)) (old row_webhookUrl);
     row_airtableApiKey :=
       column_after (set_airtableApiKey (written w)) (old row_airtableApiKey);
     row_airtableBaseId :=
       text_after (set_airtableBaseId (written w)) (old row_airtableBaseId);
     row_airtableTableName :=
       text_after (set_airtableTableName (written w))
         (old row_airtableTableName);
     row_openaiApiKey :=
       column_after (set_openaiApiKey (written w)) (old row_openaiApiKey) |}.

(** [getUserWebhookUrl(userId)], given the row the query found:
    [settings?.webhookUrl || null]. *)
Definition getUserWebhookUrl (settings : option settings_row)
  : option js_string :=
  match column_of settings row_webhookUrl with
  | Str url => if falsy url then None else Some url
  | _ => None
  end.

(** A submitted key that the handler passes to [encrypt]. *)
Definition encrypts (clear : bool) (submitted : option js_string) : bool :=
  negb clear && negb (keeps_stored submitted).

End SettingsRead.

Export SettingsRead.

(* ===================================================================== *)
(** ** [server/routes.ts]: the answer of the upload relay *)
(* ===================================================================== *)

Module UploadAnswer.

(** What the finish handler answers once [fetch] has returned or thrown. *)
Definition relayed (outcome : fetch_result) : Z * json_body :=
  match outcome with
  | FetchThrows message => (500%Z, ErrorBody message)
  | FetchResponse status (Throw message) => (500%Z, ErrorBody message)
  | FetchResponse status (Ok body) =>
      if response_ok status then
        (200%Z, SuccessBody (or_default body (lit "Video submitted successfully")))
      else
        (status,
         ErrorBody
           (or_default body
              (lit "Webhook returned status " ++ number_toString status)))
  end.



End UploadAnswer.

Export UploadAnswer.

(* ===================================================================== *)
(** ** [DELETE /api/clips/:clipId] (the routes file) *)
(* ===================================================================== *)

Module Airtable.

(** The characters [encodeURIComponent] leaves as they are: letters,
    digits and [- _ . ! ~ * ' ( )]. *)
Definition is_unreserved (c : N) : bool :=
  in_range c 65 90 || in_range c 97 122 || in_range c 48 57
  || existsb (N.eqb c) [45; 95; 46; 33; 126; 42; 39; 40; 41]%N.

(** One byte as [%XX], in upper case. *)
Definition percent_encode (b : byte) : js_string :=
  37%N :: map hex_upper (hex_of_byte b).

(** [encodeURIComponent(s)]: every other code point becomes the escapes of
    its UTF-8 bytes; a surrogate without its partner is a [URIError]. *)
Fixpoint encodeURIComponent (s : js_string) : result js_string :=
  match s with
  | [] => Ok []
  | u :: rest =>
      if is_unreserved u then
        out ← encodeURIComponent rest; Ok (u :: out)
      else if is_low_surrogate u then Throw (lit "URI malformed")
      else if is_high_surrogate u then
        match rest with
        | v :: rest' =>
            if is_low_surrogate v then
              out ← encodeURIComponent rest';
              Ok (flat_map percent_encode
                    (utf8_of_code_point
                       (0x10000 + (u - 0xD800) * 0x400 + (v - 0xDC00)))
                  ++ out)
            else Throw (lit "URI malformed")
        | [] => Throw (lit "URI malformed")
        end
      else
        out ← encodeURIComponent rest;
        Ok (flat_map percent_encode (utf8_of_code_point u) ++ out)
  end.

(** A request to Airtable as it is handed to [fetch]: the method, the URL
    and the [Authorization] header. *)
Record request : Type := {
  method : js_string;
  url : js_string;
  authorization : js_string;
}.

(** A tab, a line feed, a carriage return or a space. *)
Definition is_http_whitespace (c : N) : bool :=
  existsb (N.eqb c) [9; 10; 13; 32]%N.

Fixpoint drop_http_whitespace (s : js_string) : js_string :=
  match s with
  | c :: rest => if is_http_whitespace c then drop_http_whitespace rest else s
  | [] => []
  end.

(** The value of a header as [fetch] sends it: without the white space at
    its ends. *)
Definition header_value_normalize (s : js_string) : js_string :=
  rev (drop_http_whitespace (rev (drop_http_whitespace s))).

(** The header values [fetch] takes: every unit is a byte, and what is left
    after the white space at the ends is removed holds no NUL, line feed or
    carriage return.  For any other value [fetch] throws a [TypeError]
    before it sends anything. *)
Definition valid_header_value (s : js_string) : bool :=
  forallb (fun c => (c <=? 255)%N) s
  && forallb (fun c => negb (existsb (N.eqb c) [0; 10; 13]%N))
       (header_value_normalize s).

(** The body of the response: [{ error }] or [{ success: true }]. *)
Inductive clip_answer : Type :=
| ClipError (error : js_string)
| ClipSuccess.

(** The body of the [try] block: the requests [fetch] took, and the
    response or the exception that ends it. *)
Definition delete_clip_try {C : NodeCrypto} (env : process_env)
  (fetch : request -> fetch_result) (settings : option settings_row)
  (clipId : js_string) : list request * result (Z * clip_answer) :=
  if negb (column_truthy settings row_airtableApiKey)
     || negb (column_truthy settings row_airtableBaseId)
     || negb (column_truthy settings row_airtableTableName)
  then ([], Ok (400%Z, ClipError (lit "Airtable not configured")))
  else
    match decrypt env (column_or_empty settings row_airtableApiKey) with
    | Throw message => ([], Throw message)
    | Ok decryptedApiKey =>
        if falsy decryptedApiKey then
          ([], Ok (400%Z, ClipError (lit "Invalid API key configuration")))
        else
          match
            encodeURIComponent (column_or_empty settings row_airtableTableName)
          with
          | Throw message => ([], Throw message)
          | Ok tableName =>
              let airtableUrl :=
                lit "https://api.airtable.com/v0/"
                ++ column_or_empty settings row_airtableBaseId
                ++ lit "/" ++ tableName ++ lit "/" ++ clipId in
              let req :=
                {| method := lit "DELETE"; url := airtableUrl;
                   authorization := lit "Bearer " ++ decryptedApiKey |} in
              if negb (valid_header_value (authorization req)) then
                ([], Throw (lit "Headers.append: invalid header value"))
              else
                ([req],
                 match fetch req with
                 | FetchThrows message => Throw message
                 | FetchResponse status text =>
                     if negb (response_ok status) then
                       _ ← text;
                       Ok (status, ClipError (lit "Failed to delete clip"))
                     else Ok (200%Z, ClipSuccess)
                 end)
          end
    end.

(** The handler with its [catch]. *)
Definition delete_clip {C : NodeCrypto} (env : process_env)
  (fetch : request -> fetch_result) (settings : option settings_row)
  (clipId : js_string) : list request * (Z * clip_answer) :=
  let '(requests, outcome) := delete_clip_try env fetch settings clipId in
  (requests,
   match outcome with
   | Ok response => response
   | Throw _ => (500%Z, ClipError (lit "Failed to delete clip"))
   end).

(** The characters an encoded component is made of. *)
Definition is_component_char (c : N) : bool :=
  is_unreserved c || (c =? 37)%N.

End Airtable.
Export Airtable.

(* ===================================================================== *)
(** ** [POST /api/submit-video] and [POST /api/submit-storage-video] *)
(* ===================================================================== *)

Module Submit.

(** A value that [JSON.parse] returns; a number is a binary64. *)
#[warnings="-register-all"]
Inductive json : Type :=
| JNull
| JBool (b : bool)
| JNum (n : spec_float)
| JStr (s : js_string)
| JArr (items : list json)
| JObj (members : list (js_string * json)).

(** [!!v]. *)
Definition truthy_json (v : json) : bool :=
  match v with
  | JNull => false
  | JBool b => b
  | JNum (S754_zero _) | JNum S754_nan => false
  | JNum _ => true
  | JStr s => truthy s
  | JArr _ | JObj _ => true
  end.

(** [!!v] where [v] may be [undefined]. *)
Definition truthy_value (v : option json) : bool :=
  match v with Some j => truthy_json j | None => false end.

(** The own property of that name, each name occurring once. *)
Fixpoint member (name : js_string) (members : list (js_string * json))
  : option json :=
  match members with
  | [] => None
  | (k, v) :: rest => if js_string_eqb k name then Some v else member name rest
  end.

(** What the handlers take from outside the request. *)
Record submit_runtime : Type := {
  webhookUrl_of_user : option js_string;         (* getUserWebhookUrl(userId) *)
  fetch_json : js_string -> json -> fetch_result;
  type_error : js_string;    (* the message of the engine's [TypeError] *)
}.

(** [body.name] for one of the names the handlers read, none of which is a
    property of a prototype; [body] is [req.body], [undefined] when no
    parser filled it. *)
Definition get (rt : submit_runtime) (body : option json) (name : js_string)
  : result (option json) :=
  match body with
  | None | Some JNull => Throw (type_error rt)
  | Some (JObj members) => Ok (member name members)
  | Some _ => Ok None
  end.

(** [JSON.stringify] leaves out the properties that are [undefined]. *)
Definition defined_members (members : list (js_string * option json))
  : list (js_string * json) :=
  flat_map (fun m => match snd m with Some v => [(fst m, v)] | None => [] end)
    members.

(** The response to a submission, after the request to the webhook. *)
Definition relay (rt : submit_runtime) (webhookUrl : js_string)
  (payload : json) : result (Z * json_body) :=
  match fetch_json rt webhookUrl payload with
  | FetchThrows message => Throw message
  | FetchResponse status text =>
      if negb (response_ok status) then
        errorText ← text;
        Ok (status,
            ErrorBody (or_default errorText
                         (lit "Webhook returned status "
                          ++ number_toString status)))
      else
        result ← text;
        Ok (200%Z,
            SuccessBody (or_default result (lit "Video submitted successfully")))
  end.

Definition not_configured : Z * json_body :=
  (400%Z,
   ErrorBody (lit "Webhook URL not configured. Please add your n8n webhook URL in Settings.")).

(** [catch (error)]: the message of the error is the response. *)
Definition caught (outcome : result (Z * json_body)) : Z * json_body :=
  match outcome with
  | Ok response => response
  | Throw message => (500%Z, ErrorBody message)
  end.

(** [POST /api/submit-storage-video]: the values serialised for the
    webhook, and the response. *)
Definition submit_storage_video (rt : submit_runtime) (body : option json)
  : list (js_string * json) * (Z * json_body) :=
  match webhookUrl_of_user rt with
  | None => ([], not_configured)
  | Some webhookUrl =>
      if falsy webhookUrl then ([], not_configured)
      else
        match
          videoUrl ← get rt body (lit "videoUrl");
          fileName ← get rt body (lit "fileName");
          clipSize ← get rt body (lit "clipSize");
          clipDuration ← get rt body (lit "clipDuration");
          clipCount ← get rt body (lit "clipCount");
          Ok (videoUrl, fileName, clipSize, clipDuration, clipCount)
        with
        | Throw message => ([], caught (Throw message))
        | Ok (videoUrl, fileName, clipSize, clipDuration, clipCount) =>
            if negb (truthy_value videoUrl) then
              ([], (400%Z, ErrorBody (lit "Missing video URL")))
            else if negb (truthy_value clipSize)
                    || negb (truthy_value clipDuration)
                    || negb (truthy_value clipCount) then
              ([], (400%Z, ErrorBody (lit "Missing clip configuration")))
            else
              let payload :=
                JObj (defined_members
                  [(lit "video_type", Some (JStr (lit "url")));
                   (lit "video_url", videoUrl);
                   (lit "file_name",
                    if truthy_value fileName then fileName
                    else Some (JStr (lit "video.mp4")));
                   (lit "clip_size", clipSize);
                   (lit "clip_duration", clipDuration);
                   (lit "clip_count", clipCount)]) in
              ([(webhookUrl, payload)], caught (relay rt webhookUrl payload))
        end
  end.

(** [["youtube", "url"].includes(v)]. *)
Definition is_link_type (v : option json) : bool :=
  match v with
  | Some (JStr s) =>
      js_string_eqb s (lit "youtube") || js_string_eqb s (lit "url")
  | _ => false
  end.

(** [POST /api/submit-video]. *)
Definition submit_video (rt : submit_runtime) (body : option json)
  : list (js_string * json) * (Z * json_body) :=
  match webhookUrl_of_user rt with
  | None => ([], not_configured)
  | Some webhookUrl =>
      if falsy webhookUrl then ([], not_configured)
      else
        match get rt body (lit "video_type") with
        | Throw message => ([], caught (Throw message))
        | Ok video_type =>
            if negb (truthy_value video_type) then
              ([], (400%Z, ErrorBody (lit "Missing video_type")))
            else
              match get rt body (lit "video_url") with
              | Throw message => ([], caught (Throw message))
              | Ok video_url =>
                  if negb (is_link_type video_type)
                     || negb (truthy_value video_url) then
                    ([], (400%Z,
                          ErrorBody (lit "Use /api/upload-video for file uploads")))
                  else
                    match
                      clip_size ← get rt body (lit "clip_size");
                      clip_duration ← get rt body (lit "clip_duration");
                      clip_count ← get rt body (lit "clip_count");
                      Ok (clip_size, clip_duration, clip_count)
                    with
                    | Throw message => ([], caught (Throw message))
                    | Ok (clip_size, clip_duration, clip_count) =>
                        if negb (truthy_value clip_size)
                           || negb (truthy_value clip_duration)
                           || negb (truthy_value clip_count) then
                          ([], (400%Z,
                                ErrorBody (lit "Missing clip configuration")))
                        else
                          match body with
                          | Some payload =>
                              ([(webhookUrl, payload)],
                               caught (relay rt webhookUrl payload))
                          | None => ([], caught (Throw (type_error rt)))
                          end
                    end
              end
        end
  end.

End Submit.
Export Submit.

(* ===================================================================== *)
(** ** [GET /api/clips] (the routes file) *)
(* ===================================================================== *)

Module Clips.

(** The values the handler meets: what [JSON.parse] returned, [undefined],
    and the method a string answers with when asked for [small]. *)
Inductive value : Type :=
| VUndefined
| VFunction
| Val (j : json).

Definition of_member (o : option json) : value :=
  match o with Some j => Val j | None => VUndefined end.

(** [!!v]. *)
Definition truthy_v (v : value) : bool :=
  match v with
  | VUndefined => false
  | VFunction => true
  | Val j => truthy_json j
  end.

(** [a || b]. *)
Definition or_value (a b : value) : value := if truthy_v a then a else b.

(** [v.name] and [v[name]] for the names the handler reads ([records],
    [fields], [Final Clip], [Clip Description], [Name], [name],
    [Transcript], [Duration], [url], [thumbnails], [large], [small],
    [filename], [size], [id], [createdTime]): an object answers with its
    own member; of the prototypes only that of strings has one of these
    names, [small]; [null] and [undefined] throw. *)
Definition prop (v : value) (name : js_string) : result value :=
  match v with
  | VUndefined | Val JNull =>
      Throw (lit "Cannot read properties of undefined")
  | Val (JObj members) => Ok (of_member (member name members))
  | Val (JStr _) =>
      Ok (if js_string_eqb name (lit "small") then VFunction else VUndefined)
  | _ => Ok VUndefined
  end.

(** [v?.name]. *)
Definition opt_prop (v : value) (name : js_string) : value :=
  match prop v name with
  | Ok p => p
  | Throw _ => VUndefined
  end.

(** One element of the response. *)
Record clip : Type := {
  clip_id : value;
  clip_name : value;
  clip_transcript : value;
  clip_duration : value;
  clip_videoUrl : value;
  clip_thumbnailUrl : value;
  clip_fileName : value;
  clip_fileSize : value;
  clip_createdAt : value;
}.

Definition zero : value := Val (JNum (S754_zero false)).
Definition str (s : string) : value := Val (JStr (lit s)).

(** The callback of [data.records.map]. *)
Definition to_clip (record : value) : result clip :=
  fields ← prop record (lit "fields");
  finalClip ← prop fields (lit "Final Clip");
  let videoAttachment :=
    match finalClip with
    | Val (JArr (first :: _)) => Val first
    | _ => Val JNull
    end in
  id ← prop record (lit "id");
  description ← prop fields (lit "Clip Description");
  upper_name ← prop fields (lit "Name");
  lower_name ← prop fields (lit "name");
  transcript ← prop fields (lit "Transcript");
  duration ← prop fields (lit "Duration");
  createdTime ← prop record (lit "createdTime");
  let thumbnails := opt_prop videoAttachment (lit "thumbnails") in
  Ok {| clip_id := id;
        clip_name :=
          or_value (or_value (or_value description upper_name) lower_name)
            (str "Untitled Clip");
        clip_transcript := or_value transcript (str "");
        clip_duration := or_value duration zero;
        clip_videoUrl := or_value (opt_prop videoAttachment (lit "url")) (str "");
        clip_thumbnailUrl :=
          or_value
            (or_value (opt_prop (opt_prop thumbnails (lit "large")) (lit "url"))
               (opt_prop (opt_prop thumbnails (lit "small")) (lit "url")))
            (str "");
        clip_fileName :=
          or_value (opt_prop videoAttachment (lit "filename")) (str "clip.mp4");
        clip_fileSize := or_value (opt_prop videoAttachment (lit "size")) zero;
        clip_createdAt := createdTime |}.

(** [records.map(to_clip)]: the first record that throws ends it. *)
Fixpoint map_records (records : list json) : result (list clip) :=
  match records with
  | [] => Ok []
  | record :: rest =>
      c ← to_clip (Val record);
      cs ← map_records rest;
      Ok (c :: cs)
  end.

(** [clips[0]?.videoUrl?.substring(0, 50)], evaluated for the log line: a
    first URL that is not a string has no [substring] to call. *)
Definition logged_sample (clips : list clip) : result unit :=
  match clips with
  | [] => Ok tt
  | first :: _ =>
      match clip_videoUrl first with
      | VUndefined | Val JNull | Val (JStr _) => Ok tt
      | _ => Throw (lit "substring is not a function")
      end
  end.

(** What [fetch] gives for the list: it throws, or there is a response
    with its status and what reading its body as text or as JSON gives. *)
Inductive list_outcome : Type :=
| ListThrows (message : js_string)
| ListResponse (status : Z) (text : result js_string) (parsed : result json).

Inductive clips_answer : Type :=
| ClipsError (error : js_string)
| ClipsList (clips : list clip).

(** The body of the [try] block: the requests made, and the response or
    the exception that ends it. *)
Definition list_clips_try {C : NodeCrypto} (env : process_env)
  (fetch : request -> list_outcome) (settings : option settings_row)
  : list request * result (Z * clips_answer) :=
  if negb (column_truthy settings row_airtableApiKey)
     || negb (column_truthy settings row_airtableBaseId)
     || negb (column_truthy settings row_airtableTableName)
  then ([], Ok (400%Z, ClipsError (lit "Airtable not configured")))
  else
    match decrypt env (column_or_empty settings row_airtableApiKey) with
    | Throw message => ([], Throw message)
    | Ok decryptedApiKey =>
        if falsy decryptedApiKey then
          ([], Ok (400%Z, ClipsError (lit "Invalid API key configuration")))
        else
          match
            encodeURIComponent (column_or_empty settings row_airtableTableName)
          with
          | Throw message => ([], Throw message)
          | Ok tableName =>
              let airtableUrl :=
                lit "https://api.airtable.com/v0/"
                ++ column_or_empty settings row_airtableBaseId
                ++ lit "/" ++ tableName in
              let req :=
                {| method := lit "GET"; url := airtableUrl;
                   authorization := lit "Bearer " ++ decryptedApiKey |} in
              if negb (valid_header_value (authorization req)) then
                ([], Throw (lit "Headers.append: invalid header value"))
              else
              ([req],
               match fetch req with
               | ListThrows message => Throw message
               | ListResponse status text parsed =>
                   if negb (response_ok status) then
                     _ ← text;
                     Ok (status,
                         ClipsError (lit "Failed to fetch clips from Airtable"))
                   else
                     data ← parsed;
                     records ← prop (Val data) (lit "records");
                     mapped ←
                       match records with
                       | Val (JArr items) => map_records items
                       | _ => Throw (lit "data.records.map is not a function")
                       end;
                     let clips :=
                       List.filter (fun c => truthy_v (clip_videoUrl c)) mapped in
                     _ ← logged_sample clips;
                     Ok (200%Z, ClipsList clips)
               end)
          end
    end.

(** The handler with its [catch]. *)
Definition list_clips {C : NodeCrypto} (env : process_env)
  (fetch : request -> list_outcome) (settings : option settings_row)
  : list request * (Z * clips_answer) :=
  let '(requests, outcome) := list_clips_try env fetch settings in
  (requests,
   match outcome with
   | Ok response => response
   | Throw _ => (500%Z, ClipsError (lit "Failed to fetch clips"))
   end).

(** A value that is a string. *)
Definition is_string (v : value) : bool :=
  match v with Val (JStr _) => true | _ => false end.

(** The URL of the first attachment of [Final Clip] of a record, if the
    record has one. *)
Definition attachment_url (record : json) : value :=
  match record with
  | JObj members =>
      match member (lit "fields") members with
      | Some (JObj fields) =>
          match member (lit "Final Clip") fields with
          | Some (JArr (first :: _)) => opt_prop (Val first) (lit "url")
          | _ => VUndefined
          end
      | _ => VUndefined
      end
  | _ => VUndefined
  end.

End Clips.
Export Clips.

(* ===================================================================== *)
(** ** A small instance of the interface *)
(* ===================================================================== *)

(** The model runs on any [NodeCrypto]; this instance, a xor stream with a
    checksum for a tag, lets it run on concrete inputs. *)
Module Sample.

Definition xor_all (c : buffer) : byte := fold_right byte_xor x00 c.

#[export] Instance sample_crypto : NodeCrypto := {|
  scryptSync p s n := firstn n (p ++ s ++ repeat x00 n);
  entropy := nat;
  randomBytes n e := (repeat (byte_of_N (N.of_nat e)) n, S e);
  gcm_keystream k iv i := byte_xor (nth i k x5a) (nth i iv xa5);
  gcm_mac k iv c :=
    byte_xor (xor_all c) (xor_all k) :: repeat (xor_all iv) 15;
|}.

Definition sample_env : process_env :=
  {| ENCRYPTION_KEY := None; SESSION_SECRET := Some (lit "session-secret") |}.

Definition empty_env : process_env :=
  {| ENCRYPTION_KEY := None; SESSION_SECRET := None |}.

(** A destination that answers every request with [200 "ok"]. *)
Definition sample_runtime : runtime :=
  {| webhook := Some (lit "https://n8n.example/webhook/clips");
     tmpdir := lit "/tmp";
     unique_id n := lit "1700000000000-k3x9q" ++ number_toString (Z.of_nat n);
     fetch _ _ := FetchResponse 200 (Ok (lit "ok"));
     finish_heard := true;
     busboy_refusal := lit "Unsupported content type: text/plain" |}.

Definition empty_world : world :=
  {| files := ∅; drawn := 0; responses := []; posts := [] |}.

Definition MiB : N := 1024 * 1024.

(** A saved row, and a submission that shows the mask for the first key
    and brings a new second key. *)
Definition sample_row : settings_row :=
  {| row_webhookUrl := Some (lit "https://n8n.example/webhook/clips");
     row_airtableApiKey := Some (lit "0a0b:0c0d:0e0f");
     row_airtableBaseId := Some (lit "appBase");
     row_airtableTableName := Some (lit "Clips");
     row_openaiApiKey := None |}.

Definition sample_body : settings_body :=
  {| webhookUrl := Some (lit " https://n8n.example/webhook/clips ");
     airtableApiKey := Some (repeat 0x2022%N 8);
     airtableBaseId := Some (lit "appBase");
     airtableTableName := Some (lit "Clips");
     openaiApiKey := Some (lit "sk-new");
     clearApiKey := false;
     clearOpenaiKey := false |}.

(** One video and the three fields, in the order the page sends them. *)
Definition page_request (size : N) (count : js_string) : upload_request :=
  {| multipart := true;
     parts := [File (lit "file") (lit "talk.mp4") size;
               Field (lit "clip_size") (lit "1920x1080");
               Field (lit "clip_duration") (lit "3");
               Field (lit "clip_count") count];
     body_ends := Complete |}.

End Sample.

(* ===================================================================== *)
(** ** A small table of clips *)
(* ===================================================================== *)

Module ClipSample.

(** A row whose key is the envelope of ["sk-abc"] under the passphrase
    ["session-secret"]. *)
Definition clips_row : settings_row :=
  {| row_webhookUrl := None;
     row_airtableApiKey :=
       Some (lit "07070707070707070707070707070707:0a000000000000000000000000000000:070959150c0b");
     row_airtableBaseId := Some (lit "appBase");
     row_airtableTableName := Some (lit "Clips");
     row_openaiApiKey := None |}.

(** Two records: one with a finished clip, one without. *)
Definition clips_data : json :=
  JObj
    [(lit "records",
      JArr
        [JObj
           [(lit "id", JStr (lit "rec1"));
            (lit "createdTime", JStr (lit "2025-01-01T00:00:00.000Z"));
            (lit "fields",
             JObj
               [(lit "Clip Description", JStr (lit "Intro"));
                (lit "Final Clip",
                 JArr
                   [JObj
                      [(lit "url", JStr (lit "https://dl.example/a.mp4"));
                       (lit "filename", JStr (lit "a.mp4"))]])])];
         JObj
           [(lit "id", JStr (lit "rec2"));
            (lit "createdTime", JStr (lit "2025-01-02T00:00:00.000Z"));
            (lit "fields", JObj [(lit "Name", JStr (lit "Draft"))])]])].

Definition clips_fetch (req : request) : list_outcome :=
  ListResponse 200 (Ok []) (Ok clips_data).

End ClipSample.

(* ===================================================================== *)
(** ** Bytes and encodings *)
(* ===================================================================== *)

Lemma to_N_byte_of_N n : (n < 256)%N -> Byte.to_N (byte_of_N n) = n.
Proof.
  intros Hn. unfold byte_of_N.
  rewrite N.mod_small by exact Hn.
  destruct (Byte.of_N n) as [b|] eqn:E.
  - apply Byte.to_of_N. exact E.
  - apply Byte.of_N_None_iff in E. lia.
Qed.

Lemma byte_of_N_to_N b : byte_of_N (Byte.to_N b) = b.
Proof.
  unfold byte_of_N. rewrite N.mod_small.
  - now rewrite Byte.of_to_N.
  - pose proof (Byte.to_N_bounded b). lia.
Qed.

Lemma byte_xor_cancel a b : byte_xor (byte_xor a b) b = a.
Proof.
  unfold byte_xor.
  rewrite <- (Byte.of_bits_to_bits a) at 2.
  destruct (Byte.to_bits a) as (a0 & a1 & a2 & a3 & a4 & a5 & a6 & a7).
  destruct (Byte.to_bits b) as (b0 & b1 & b2 & b3 & b4 & b5 & b6 & b7).
  rewrite Byte.to_bits_of_bits.
  now rewrite !xorb_assoc, !xorb_nilpotent, !xorb_false_r.
Qed.

Lemma from_hex_cons b s : from_hex (hex_of_byte b ++ s) = b :: from_hex s.
Proof. destruct b; reflexivity. Qed.

Lemma from_hex_toString_hex buf : from_hex (toString_hex buf) = buf.
Proof.
  induction buf as [|b buf IH]; [reflexivity|].
  cbn [toString_hex flat_map]. rewrite from_hex_cons. f_equal. exact IH.
Qed.

Ltac Zify.zify_post_hook ::= Z.to_euclidean_division_equations.

Ltac bool_arith :=
  unfold in_range, is_high_surrogate, is_low_surrogate;
  rewrite ?andb_true_iff, ?andb_false_iff, ?negb_true_iff, ?negb_false_iff,
    ?N.ltb_lt, ?N.ltb_ge, ?N.leb_le, ?N.leb_gt, ?N.eqb_eq, ?N.eqb_neq;
  lia.

Ltac decide_test b :=
  first [ replace b with true by (symmetry; bool_arith)
        | replace b with false by (symmetry; bool_arith) ].

Ltac decide_ifs :=
  repeat match goal with
    | |- context [if ?b then _ else _] => decide_test b
    | |- context [if (?x =? ?y)%N then _ else _] => destruct (N.eqb_spec x y)
    end.

Lemma decode_utf8_code_point c l :
  (c < 0xD800 \/ 0xE000 <= c)%N -> (c < 0x110000)%N ->
  decode_utf8 (map Byte.to_N (utf8_of_code_point c) ++ l)
  = units_of_code_point c ++ decode_utf8 l.
Proof.
  intros Hs Hc. unfold utf8_of_code_point, units_of_code_point.
  destruct (N.ltb_spec c 0x80);
    [|destruct (N.ltb_spec c 0x800); [|destruct (N.ltb_spec c 0x10000)]];
    cbn [map app]; rewrite !to_N_byte_of_N by lia; cbn [decode_utf8];
    decide_ifs; unfold units_of_code_point; decide_ifs; cbn [app];
    repeat f_equal; lia.
Qed.

Lemma from_utf8_high u v rest :
  is_high_surrogate u = true -> is_low_surrogate v = true ->
  from_utf8 (u :: v :: rest)
  = utf8_of_code_point (0x10000 + (u - 0xD800) * 0x400 + (v - 0xDC00))
      ++ from_utf8 rest.
Proof. intros Hu Hv. cbn [from_utf8]. now rewrite Hu, Hv. Qed.

Lemma from_utf8_scalar u rest :
  is_high_surrogate u = false -> is_low_surrogate u = false ->
  from_utf8 (u :: rest) = utf8_of_code_point u ++ from_utf8 rest.
Proof. intros Hu Hl. destruct rest; cbn [from_utf8]; now rewrite Hu, Hl. Qed.

Lemma toString_utf8_from_utf8_len n s :
  length s <= n -> well_formed s = true -> toString_utf8 (from_utf8 s) = s.
Proof.
  unfold toString_utf8. revert s.
  induction n as [|n IH]; intros [|u rest] Hlen; cbn [length] in Hlen;
    try reflexivity; try lia.
  cbn [well_formed]. destruct (is_high_surrogate u) eqn:Eu.
  - destruct rest as [|v rest]; [discriminate| ]. cbn [length] in Hlen.
    intros H. apply andb_true_iff in H. destruct H as [Hv Hr].
    rewrite from_utf8_high, map_app by assumption.
    rewrite decode_utf8_code_point by (revert Eu Hv; bool_arith).
    rewrite (IH rest) by (assumption || lia). unfold units_of_code_point.
    replace (_ <? _)%N with false by (symmetry; revert Eu Hv; bool_arith).
    cbn [app]. f_equal; [|f_equal]; revert Eu Hv; bool_arith.
  - intros H. apply andb_true_iff in H. destruct H as [H1 Hr].
    apply andb_true_iff in H1. destruct H1 as [El Hu].
    apply negb_true_iff in El.
    rewrite from_utf8_scalar, map_app by assumption.
    rewrite decode_utf8_code_point by (revert Eu El Hu; bool_arith).
    rewrite (IH rest) by (assumption || lia). unfold units_of_code_point.
    now rewrite Hu.
Qed.

Lemma toString_utf8_from_utf8 s :
  well_formed s = true -> toString_utf8 (from_utf8 s) = s.
Proof. apply (toString_utf8_from_utf8_len (length s)). lia. Qed.

(* ===================================================================== *)
(** ** The envelope *)
(* ===================================================================== *)

Lemma split_no_separator sep s :
  Forall (fun c => c <> sep) s -> split sep s = [s].
Proof.
  induction 1 as [|c s Hc _ IH]; [reflexivity| ].
  cbn [split]. rewrite IH. destruct (N.eqb_spec c sep); [contradiction|reflexivity].
Qed.

Lemma split_app sep a b :
  Forall (fun c => c <> sep) a -> split sep (a ++ sep :: b) = a :: split sep b.
Proof.
  induction 1 as [|c a Hc _ IH]; cbn [app split].
  - now rewrite N.eqb_refl.
  - rewrite IH. destruct (N.eqb_spec c sep); [contradiction|reflexivity].
Qed.

Lemma split_envelope p0 p1 p2 :
  Forall (fun c => c <> 58%N) p0 -> Forall (fun c => c <> 58%N) p1 ->
  Forall (fun c => c <> 58%N) p2 ->
  split 58 (p0 ++ lit ":" ++ p1 ++ lit ":" ++ p2) = [p0; p1; p2].
Proof.
  intros H0 H1 H2. change (lit ":") with [58%N]. cbn [app].
  now rewrite !split_app, split_no_separator.
Qed.

Lemma hex_of_byte_no_colon b : Forall (fun c => c <> 58%N) (hex_of_byte b).
Proof. destruct b; repeat constructor; discriminate. Qed.

Lemma toString_hex_length buf :
  length (toString_hex buf) = 2 * length buf.
Proof.
  induction buf as [|b buf IH]; [reflexivity| ].
  cbn [toString_hex flat_map hex_of_byte app length].
  change (flat_map hex_of_byte buf) with (toString_hex buf). lia.
Qed.

Lemma toString_hex_even buf : Nat.odd (length (toString_hex buf)) = false.
Proof.
  rewrite toString_hex_length, <- Nat.negb_even, Nat.even_mul. reflexivity.
Qed.

Lemma toString_hex_no_colon buf : Forall (fun c => c <> 58%N) (toString_hex buf).
Proof.
  induction buf as [|b buf IH]; [constructor| ].
  cbn [toString_hex flat_map]. apply Forall_app. split; [apply hex_of_byte_no_colon|exact IH].
Qed.

Section CipherFacts.
Context {C : NodeCrypto}.

Lemma gcm_xor_involutive key iv offset data :
  gcm_xor key iv offset (gcm_xor key iv offset data) = data.
Proof.
  revert offset. induction data as [|b data IH]; intros offset; [reflexivity| ].
  cbn [gcm_xor]. now rewrite byte_xor_cancel, IH.
Qed.

Lemma getEncryptionKey_present env :
  key_present env = true ->
  exists pass, falsy pass = false /\
    getEncryptionKey env = Ok (scryptSync (from_utf8 pass) (from_utf8 (lit "salt")) 32).
Proof.
  unfold key_present, getEncryptionKey, js_or.
  destruct (ENCRYPTION_KEY env) as [[|c k]| ], (SESSION_SECRET env) as [[|d k']| ];
    cbn [falsy_opt falsy negb orb]; intros H; try discriminate;
    (eexists; split; [|reflexivity]; reflexivity).
Qed.

Lemma getEncryptionKey_absent env :
  key_present env = false ->
  getEncryptionKey env = Throw (lit "ENCRYPTION_KEY or SESSION_SECRET must be set").
Proof.
  unfold key_present, getEncryptionKey, js_or.
  destruct (ENCRYPTION_KEY env) as [[|c k]| ], (SESSION_SECRET env) as [[|d k']| ];
    cbn [falsy_opt falsy negb orb]; intros H; try discriminate; reflexivity.
Qed.

End CipherFacts.

Section CipherTheorems.
Context {C : NodeCrypto}.

Lemma known_ALGORITHM : known_algorithm ALGORITHM = true.
Proof. reflexivity. Qed.

Lemma encrypt_envelope {L : NodeCryptoLaws C} env text e :
  key_present env = true -> falsy text = false ->
  exists key iv e',
    getEncryptionKey env = Ok key /\ length key = 32 /\ length iv = 16 /\
    encrypt env text e
    = Ok (toString_hex iv ++ lit ":"
          ++ toString_hex (gcm_mac key iv (gcm_xor key iv 0 (from_utf8 text)))
          ++ lit ":" ++ toString_hex (gcm_xor key iv 0 (from_utf8 text)), e').
Proof.
  intros Hk Ht. destruct (getEncryptionKey_present env Hk) as (pass & _ & Hkey).
  pose proof (randomBytes_length IV_LENGTH e) as Hiv.
  destruct (randomBytes IV_LENGTH e) as [iv e'] eqn:Er. cbn [fst] in Hiv.
  exists (scryptSync (from_utf8 pass) (from_utf8 (lit "salt")) 32), iv, e'.
  split; [exact Hkey| ]. split; [apply scryptSync_length| ]. split; [exact Hiv| ].
  unfold encrypt. rewrite Ht, Hkey. cbn [mbind result_bind bind]. rewrite Er.
  unfold createCipheriv. rewrite scryptSync_length, Hiv, known_ALGORITHM.
  cbn [IV_LENGTH negb Nat.eqb mbind result_bind bind cipher_update cipher_key
    cipher_iv cipher_produced length app getAuthTag cipher_final toString_hex
    flat_map].
  now rewrite app_nil_r.
Qed.

Lemma decrypt_parts env key p0 p1 p2 :
  getEncryptionKey env = Ok key -> length key = 32 ->
  Forall (fun c => c <> 58%N) p0 -> Forall (fun c => c <> 58%N) p1 ->
  Forall (fun c => c <> 58%N) p2 ->
  from_hex p0 <> [] -> valid_tag_length (length (from_hex p1)) = true ->
  Nat.odd (length p2) = false ->
  decrypt env (p0 ++ lit ":" ++ p1 ++ lit ":" ++ p2)
  = if buffer_eqb (from_hex p1)
         (firstn (length (from_hex p1))
            (gcm_mac key (from_hex p0) (from_hex p2)))
    then Ok (toString_utf8 (gcm_xor key (from_hex p0) 0 (from_hex p2)))
    else Ok [].
Proof.
  intros Hkey Hlen H0 H1 H2 Hiv Htag Heven. unfold decrypt.
  replace (falsy _) with false by (destruct p0; reflexivity).
  unfold decrypt_try. rewrite Hkey. cbn [mbind result_bind bind].
  rewrite split_envelope by assumption. cbn [length Nat.eqb negb nth].
  unfold createDecipheriv. rewrite Hlen, known_ALGORITHM.
  destruct (from_hex p0) as [|b iv] eqn:E0; [contradiction| ].
  cbn [length Nat.eqb negb mbind result_bind bind].
  unfold setAuthTag. cbn [decipher_key decipher_iv decipher_consumed].
  rewrite Htag. cbn [mbind result_bind bind]. unfold decipher_update_hex.
  rewrite Heven.
  cbn [mbind result_bind bind decipher_update decipher_key decipher_iv
    decipher_tag decipher_consumed length app].
  unfold decipher_final. cbn [decipher_key decipher_iv decipher_tag
    decipher_consumed].
  destruct (buffer_eqb _ _); cbn [mbind result_bind bind try_catch];
    [ |reflexivity].
  now rewrite app_nil_r.
Qed.

End CipherTheorems.

Import Sample.

(* ===================================================================== *)
(** ** Decoding never yields an unpaired surrogate *)
(* ===================================================================== *)

Lemma well_formed_scalar u rest :
  (u < 0xD800 \/ 0xE000 <= u)%N -> (u < 0x10000)%N ->
  well_formed (u :: rest) = well_formed rest.
Proof.
  intros Hs Hu. cbn [well_formed].
  replace (is_high_surrogate u) with false by (symmetry; bool_arith).
  replace (is_low_surrogate u) with false by (symmetry; bool_arith).
  replace (u <? 65536)%N with true by (symmetry; bool_arith).
  reflexivity.
Qed.

Lemma well_formed_pair c rest :
  (0x10000 <= c)%N -> (c < 0x110000)%N ->
  well_formed (units_of_code_point c ++ rest) = well_formed rest.
Proof.
  intros Hlo Hhi. unfold units_of_code_point.
  replace (c <? 65536)%N with false by (symmetry; bool_arith).
  cbn [app well_formed].
  replace (is_high_surrogate _) with true by (symmetry; bool_arith).
  replace (is_low_surrogate _) with true by (symmetry; bool_arith).
  reflexivity.
Qed.

Ltac to_arith :=
  unfold in_range in *;
  repeat match goal with
    | H : (_ && _)%bool = true |- _ => apply andb_true_iff in H; destruct H
    | H : (_ <? _)%N = true |- _ => apply N.ltb_lt in H
    | H : (_ <? _)%N = false |- _ => apply N.ltb_ge in H
    | H : (_ <=? _)%N = true |- _ => apply N.leb_le in H
    | H : (_ <=? _)%N = false |- _ => apply N.leb_gt in H
    | H : (_ =? _)%N = true |- _ => apply N.eqb_eq in H
    | H : (_ =? _)%N = false |- _ => apply N.eqb_neq in H
    end.

(** Whatever the bytes, decoding gives a string whose surrogates are
    paired. *)
Lemma decode_utf8_well_formed_len n l :
  length l <= n -> well_formed (decode_utf8 l) = true.
Proof.
  revert l. induction n as [|n IH]; intros l Hlen.
  { destruct l; [reflexivity|cbn [length] in Hlen; lia]. }
  destruct l as [|b0 r0]; [reflexivity| ]. cbn [length] in Hlen.
  assert (HFFFD : forall r, length r <= n ->
            well_formed (replacement_character :: decode_utf8 r) = true).
  { intros r Hr. rewrite well_formed_scalar by (unfold replacement_character; lia).
    now apply IH. }
  assert (H1 : well_formed [replacement_character] = true) by reflexivity.
  cbn [decode_utf8].
  destruct (b0 <? 128)%N eqn:E0.
  { to_arith. rewrite well_formed_scalar by lia. apply IH. lia. }
  destruct (in_range b0 194 223) eqn:E1.
  { destruct r0 as [|b1 r1]; [exact H1| ]. cbn [length] in Hlen.
    destruct (in_range b1 128 191) eqn:E2.
    - to_arith. rewrite well_formed_scalar by lia. apply IH. lia.
    - apply (HFFFD (b1 :: r1)). cbn [length]. lia. }
  destruct (in_range b0 224 239) eqn:E2.
  { destruct r0 as [|b1 r1]; [exact H1| ]. cbn [length] in Hlen.
    destruct (in_range b1 _ _) eqn:E3;
      [ |apply (HFFFD (b1 :: r1)); cbn [length]; lia].
    destruct r1 as [|b2 r2]; [exact H1| ]. cbn [length] in Hlen.
    destruct (in_range b2 128 191) eqn:E4;
      [ |apply (HFFFD (b2 :: r2)); cbn [length]; lia].
    destruct (b0 =? 224)%N eqn:Ea, (b0 =? 237)%N eqn:Eb; to_arith;
      (rewrite well_formed_scalar by lia); apply IH; lia. }
  destruct (in_range b0 240 244) eqn:E3;
    [ |apply (HFFFD r0); lia].
  destruct r0 as [|b1 r1]; [exact H1| ]. cbn [length] in Hlen.
  destruct (in_range b1 _ _) eqn:E4;
    [ |apply (HFFFD (b1 :: r1)); cbn [length]; lia].
  destruct r1 as [|b2 r2]; [exact H1| ]. cbn [length] in Hlen.
  destruct (in_range b2 128 191) eqn:E5;
    [ |apply (HFFFD (b2 :: r2)); cbn [length]; lia].
  destruct r2 as [|b3 r3]; [exact H1| ]. cbn [length] in Hlen.
  destruct (in_range b3 128 191) eqn:E6;
    [ |apply (HFFFD (b3 :: r3)); cbn [length]; lia].
  destruct (b0 =? 240)%N eqn:Ea, (b0 =? 244)%N eqn:Eb; to_arith;
    (rewrite well_formed_pair by lia); apply IH; lia.
Qed.

Lemma toString_utf8_well_formed buf : well_formed (toString_utf8 buf) = true.
Proof. apply (decode_utf8_well_formed_len (length (map Byte.to_N buf))). lia. Qed.

(** X2: no envelope decrypts to a string with an unpaired surrogate,
    whatever the cipher and whatever the environment. *)
Lemma decrypt_well_formed (C : NodeCrypto) env s r :
  decrypt env s = Ok r -> well_formed r = true.
Proof.
  unfold decrypt. destruct (falsy s); [now intros [= <-]| ].
  unfold decrypt_try, try_catch.
  destruct (getEncryptionKey env) as [key| ];
    cbn [mbind result_bind bind]; [ |now intros [= <-]].
  destruct (negb _); [now intros [= <-]| ].
  destruct (createDecipheriv _ _ _) as [d| ];
    cbn [mbind result_bind bind]; [ |now intros [= <-]].
  destruct (setAuthTag _ _) as [d'| ];
    cbn [mbind result_bind bind]; [ |now intros [= <-]].
  destruct (decipher_update_hex _ _) as [[d'' out]| ];
    cbn [mbind result_bind bind]; [ |now intros [= <-]].
  destruct (decipher_final _) as [rest| ];
    cbn [mbind result_bind bind]; [ |now intros [= <-]].
  intros [= <-]. apply toString_utf8_well_formed.
Qed.

(* ===================================================================== *)
(** ** The credential cipher *)
(* ===================================================================== *)

Lemma sample_laws : NodeCryptoLaws sample_crypto.
Proof.
  constructor.
  - intros p s n. cbn [scryptSync sample_crypto].
    rewrite length_firstn, !length_app, repeat_length. lia.
  - intros n e. apply repeat_length.
  - intros k iv c. cbn [gcm_mac sample_crypto length].
    now rewrite repeat_length.
Qed.

(** C1 (amended): with a passphrase configured, a non-empty string whose
    surrogates are all paired is encrypted to an envelope that decrypts to
    the same string. *)
Theorem decrypt_encrypt_well_formed
  (C : NodeCrypto) (L : NodeCryptoLaws C) env text e :
  key_present env = true -> falsy text = false -> well_formed text = true ->
  exists envelope e',
    encrypt env text e = Ok (envelope, e') /\ decrypt env envelope = Ok text.
Proof.
  intros Hk Ht Hw.
  destruct (encrypt_envelope env text e Hk Ht)
    as (key & iv & e' & Hkey & Hlen & Hiv & Henc).
  eexists _, e'. split; [exact Henc| ].
  rewrite (decrypt_parts env key) by
    (rewrite ?from_hex_toString_hex, ?gcm_mac_length;
     first [ assumption | apply toString_hex_no_colon
           | apply toString_hex_even | reflexivity
           | destruct iv; [discriminate Hiv | discriminate] ]).
  rewrite !from_hex_toString_hex.
  rewrite firstn_all, gcm_xor_involutive, toString_utf8_from_utf8 by exact Hw.
  unfold buffer_eqb. now rewrite bool_decide_eq_true_2.
Qed.

Lemma decrypt_encrypt_well_formed_witness :
  exists envelope e',
    encrypt sample_env (lit "keyA1b2C3") 7%nat = Ok (envelope, e')
    /\ decrypt sample_env envelope = Ok (lit "keyA1b2C3").
Proof.
  apply (decrypt_encrypt_well_formed sample_crypto sample_laws);
    reflexivity.
Defined.

(** C1 as stated fails on a string that is one unpaired surrogate: UTF-8
    carries U+FFFD in its place, and that is what comes back. *)
Lemma decrypt_encrypt_lone_surrogate :
  key_present sample_env = true /\ falsy [0xD800%N] = false /\
  exists envelope,
    encrypt sample_env [0xD800%N] 7%nat = Ok (envelope, 8%nat)
    /\ decrypt sample_env envelope = Ok [0xFFFD%N]
    /\ [0xFFFD%N] <> [0xD800%N].
Proof.
  split; [reflexivity| ]. split; [reflexivity| ].
  eexists. split; [vm_compute; reflexivity| ].
  split; [vm_compute; reflexivity | discriminate].
Qed.

(** C9: both operations map the empty string to the empty string, whatever
    the environment. *)
Theorem encrypt_decrypt_empty (C : NodeCrypto) env (e : entropy) :
  encrypt env [] e = Ok ([], e) /\ decrypt env [] = Ok [].
Proof. split; reflexivity. Qed.

(** C8 (amended): with no passphrase in either variable, [encrypt] throws
    on a non-empty input, while [decrypt] catches the error and returns the
    empty string for every input. *)
Theorem no_key_encrypt_throws_decrypt_empty
  (C : NodeCrypto) env text (e : entropy) envelope :
  key_present env = false -> falsy text = false ->
  encrypt env text e
    = Throw (lit "ENCRYPTION_KEY or SESSION_SECRET must be set")
  /\ decrypt env envelope = Ok [].
Proof.
  intros Hk Ht. split.
  - unfold encrypt. now rewrite Ht, getEncryptionKey_absent.
  - unfold decrypt, decrypt_try. rewrite getEncryptionKey_absent by exact Hk.
    now destruct (falsy envelope).
Qed.

Lemma no_key_encrypt_throws_decrypt_empty_witness :
  encrypt empty_env (lit "keyA1b2C3") 0%nat
    = Throw (lit "ENCRYPTION_KEY or SESSION_SECRET must be set")
  /\ decrypt empty_env (lit "ab:cd:ef") = Ok [].
Proof.
  apply (no_key_encrypt_throws_decrypt_empty sample_crypto); reflexivity.
Defined.

(** C8 as stated fails for [decrypt]: without a passphrase it returns the
    empty string on a non-empty envelope. *)
Lemma no_key_decrypt_returns :
  key_present empty_env = false /\ falsy (lit "ab:cd:ef") = false /\
  decrypt empty_env (lit "ab:cd:ef") = Ok [].
Proof. repeat split. Qed.

(** C4: [decrypt] returns a string on every input and never throws; input
    that does not split into three parts gives the empty string, and so
    does every failure inside the [try] block, a tag that does not verify
    among them. *)
Theorem decrypt_never_throws (C : NodeCrypto) env s :
  (exists r, decrypt env s = Ok r)
  /\ (length (split 58 s) <> 3 -> decrypt env s = Ok [])
  /\ (forall m, decrypt_try env s = Throw m -> decrypt env s = Ok [])
  /\ (forall key p0 p1 p2,
        getEncryptionKey env = Ok key -> split 58 s = [p0; p1; p2] ->
        from_hex p1
          <> firstn (length (from_hex p1))
               (gcm_mac key (from_hex p0) (from_hex p2)) ->
        decrypt env s = Ok [])
  /\ decrypt env (lit "not:a:valid:envelope:with:six:parts") = Ok []
  /\ decrypt env (lit "justonepart") = Ok [].
Proof.
  assert (Hparts : forall t, length (split 58 t) <> 3 -> decrypt env t = Ok []).
  { intros t Hn. unfold decrypt, decrypt_try.
    destruct (falsy t); [reflexivity| ].
    destruct (getEncryptionKey env); [ |reflexivity].
    cbn [mbind result_bind bind].
    destruct (Nat.eqb_spec (length (split 58 t)) 3); [contradiction|reflexivity]. }
  split; [ |split; [ |split; [ |split; [ |split]]]].
  - unfold decrypt. destruct (falsy s); [eauto| ].
    destruct (decrypt_try env s); cbn [try_catch]; eauto.
  - apply Hparts.
  - intros m Hm. unfold decrypt. rewrite Hm. now destruct (falsy s).
  - intros key p0 p1 p2 Hkey Hs Htag. unfold decrypt, decrypt_try.
    destruct (falsy s); [reflexivity| ].
    rewrite Hkey, Hs. cbn [mbind result_bind bind length Nat.eqb negb nth].
    destruct (createDecipheriv ALGORITHM key (from_hex p0)) as [d| ] eqn:Ed;
      [ |reflexivity].
    assert (Hd : decipher_key d = key /\ decipher_iv d = from_hex p0
                 /\ decipher_consumed d = []).
    { unfold createDecipheriv in Ed.
      repeat match type of Ed with (if ?b then _ else _) = _ =>
        destruct b; [discriminate| ] end.
      injection Ed as <-. now repeat split. }
    destruct Hd as (Hk & Hi & Hc).
    cbn [mbind result_bind bind]. unfold setAuthTag.
    destruct (valid_tag_length _); [ |reflexivity].
    cbn [mbind result_bind bind]. unfold decipher_update_hex.
    destruct (Nat.odd (length p2)); [reflexivity| ].
    cbn [mbind result_bind bind decipher_update decipher_key decipher_iv
      decipher_tag decipher_consumed].
    unfold decipher_final. cbn [decipher_key decipher_iv decipher_tag
      decipher_consumed]. rewrite Hk, Hi, Hc. cbn [app].
    unfold buffer_eqb. now rewrite bool_decide_eq_false_2.
  - apply Hparts. vm_compute. discriminate.
  - apply Hparts. vm_compute. discriminate.
Qed.

Lemma decrypt_never_throws_witness :
  decrypt sample_env (lit "00ff:zz") = Ok [].
Proof.
  refine (proj1 (proj2
    (decrypt_never_throws sample_crypto sample_env (lit "00ff:zz"))) _).
  vm_compute. discriminate.
Defined.

(* ===================================================================== *)
(** ** Tampering with an envelope *)
(* ===================================================================== *)

Lemma hex_val_bound c v : hex_val c = Some v -> (v < 16)%N.
Proof.
  unfold hex_val.
  destruct ((48 <=? c) && (c <=? 57))%N eqn:E1;
    [|destruct ((97 <=? c) && (c <=? 102))%N eqn:E2;
      [|destruct ((65 <=? c) && (c <=? 70))%N eqn:E3]];
    intros H; try discriminate H; injection H as <-;
    match goal with
    | E : (_ && _)%bool = true |- _ =>
        apply andb_true_iff in E; destruct E as [?%N.leb_le ?%N.leb_le]; lia
    end.
Qed.

Lemma hex_val_not_colon c v : hex_val c = Some v -> c <> 58%N.
Proof. intros H ->. discriminate H. Qed.

Lemma hex_of_byte_val b :
  hex_val (hex_digit (Byte.to_N b / 16)) = Some (Byte.to_N b / 16)%N
  /\ hex_val (hex_digit (Byte.to_N b mod 16)) = Some (Byte.to_N b mod 16)%N.
Proof. destruct b; split; reflexivity. Qed.

Lemma byte_nibbles b :
  byte_of_N (16 * (Byte.to_N b / 16) + Byte.to_N b mod 16) = b.
Proof.
  rewrite <- N.div_mod by discriminate. apply byte_of_N_to_N.
Qed.

(** Replacing one digit of the hexadecimal text of a buffer by a digit of
    another value changes exactly one byte of what the text decodes to. *)
Lemma from_hex_flip buf j c c' v :
  toString_hex buf !! j = Some c -> hex_val c' = Some v ->
  hex_val c <> Some v ->
  exists l1 a a' l2,
    buf = l1 ++ a :: l2
    /\ from_hex (<[j:=c']> (toString_hex buf)) = l1 ++ a' :: l2
    /\ a <> a'.
Proof.
  intros Hj Hc' Hne. revert j Hj.
  induction buf as [|b buf IH]; intros j Hj; [discriminate Hj| ].
  destruct (hex_of_byte_val b) as [Hh Hl].
  pose proof (hex_val_bound _ _ Hc') as Hv.
  pose proof (Byte.to_N_bounded b) as Hb.
  cbn [toString_hex flat_map hex_of_byte app] in *.
  change (flat_map hex_of_byte buf) with (toString_hex buf) in *.
  destruct j as [|[|j]]; cbn [lookup list_lookup] in Hj.
  - injection Hj as <-.
    exists [], b, (byte_of_N (16 * v + Byte.to_N b mod 16)), buf.
    split; [reflexivity| ]. split.
    + cbn [insert list_insert from_hex]. rewrite Hc', Hl.
      now rewrite from_hex_toString_hex.
    + intros Heq. apply Hne. rewrite Hh. f_equal.
      apply (f_equal Byte.to_N) in Heq.
      rewrite to_N_byte_of_N in Heq; lia.
  - injection Hj as <-.
    exists [], b, (byte_of_N (16 * (Byte.to_N b / 16) + v)), buf.
    split; [reflexivity| ]. split.
    + cbn [insert list_insert from_hex]. rewrite Hc', Hh.
      now rewrite from_hex_toString_hex.
    + intros Heq. apply Hne. rewrite Hl. f_equal.
      apply (f_equal Byte.to_N) in Heq.
      rewrite to_N_byte_of_N in Heq; lia.
  - destruct (IH j Hj) as (l1 & a & a' & l2 & Hbuf & Hdec & Ha).
    exists (b :: l1), a, a', l2. split; [now rewrite Hbuf| ]. split; [ |exact Ha].
    cbn [insert list_insert from_hex]. rewrite Hh, Hl, byte_nibbles.
    cbn [app]. f_equal. exact Hdec.
Qed.

Lemma byte_xor_cancel_l a b : byte_xor a (byte_xor a b) = b.
Proof.
  transitivity (Byte.of_bits (Byte.to_bits b));
    [ |apply Byte.of_bits_to_bits].
  unfold byte_xor.
  destruct (Byte.to_bits a) as (a0 & a1 & a2 & a3 & a4 & a5 & a6 & a7).
  destruct (Byte.to_bits b) as (b0 & b1 & b2 & b3 & b4 & b5 & b6 & b7).
  rewrite Byte.to_bits_of_bits.
  now rewrite <- !xorb_assoc, !xorb_nilpotent, !xorb_false_l.
Qed.

Lemma xor_all_substitution l1 a a' l2 :
  xor_all (l1 ++ a :: l2) = xor_all (l1 ++ a' :: l2) -> a = a'.
Proof.
  unfold xor_all. induction l1 as [|h l1 IH]; cbn [app fold_right]; intros H.
  - apply (f_equal (fun x => byte_xor x (fold_right byte_xor x00 l2))) in H.
    now rewrite !byte_xor_cancel in H.
  - apply IH. apply (f_equal (byte_xor h)) in H.
    now rewrite !byte_xor_cancel_l in H.
Qed.

Lemma sample_detects_substitution k : detects_substitution sample_crypto k.
Proof.
  intros iv l1 a a' l2 Ha H. apply Ha.
  cbn [gcm_mac sample_crypto] in H. injection H as H.
  apply (f_equal (fun x => byte_xor x (xor_all k))) in H.
  rewrite !byte_xor_cancel in H. exact (xor_all_substitution _ _ _ _ H).
Qed.

Lemma Ok_pair_inj {A B} (a a' : A) (b b' : B) :
  Ok (a, b) = Ok (a', b') -> a = a' /\ b = b'.
Proof. intros H. now injection H. Qed.

Lemma insert_same_length (s : js_string) j c :
  length (<[j:=c]> s) = length s.
Proof. apply length_insert. Qed.

Lemma insert_no_colon (s : js_string) j c v :
  Forall (fun c => c <> 58%N) s -> hex_val c = Some v ->
  Forall (fun c => c <> 58%N) (<[j:=c]> s).
Proof.
  intros Hs Hc. apply Forall_insert; [exact Hs| ].
  exact (hex_val_not_colon _ _ Hc).
Qed.

(** C5: in the envelope that [encrypt] gives for a non-empty text, replace
    one character of the tag segment or of the ciphertext segment by a
    hexadecimal digit of another value; [decrypt] returns the empty string
    (and so does not throw).  For the ciphertext segment this rests on the
    authenticator detecting, under the configured key, the substitution of
    one byte. *)
Theorem tampered_envelope_rejected
  (C : NodeCrypto) (L : NodeCryptoLaws C)
  env key text e envelope e' p0 p1 p2 j c c' v tampered :
  getEncryptionKey env = Ok key -> detects_substitution C key ->
  falsy text = false ->
  encrypt env text e = Ok (envelope, e') ->
  split 58 envelope = [p0; p1; p2] ->
  hex_val c' = Some v -> hex_val c <> Some v ->
  (p1 !! j = Some c
   /\ tampered = p0 ++ lit ":" ++ <[j:=c']> p1 ++ lit ":" ++ p2)
  \/ (p2 !! j = Some c
      /\ tampered = p0 ++ lit ":" ++ p1 ++ lit ":" ++ <[j:=c']> p2) ->
  decrypt env tampered = Ok [].
Proof.
  intros Hkey0 I Ht Henc Hsplit Hc' Hne Hcase.
  assert (Hk : key_present env = true).
  { destruct (key_present env) eqn:Hk; [reflexivity| ].
    rewrite (getEncryptionKey_absent env Hk) in Hkey0. discriminate Hkey0. }
  destruct (encrypt_envelope env text e Hk Ht)
    as (key' & iv & e1 & Hkey & Hlen & Hiv & Henc').
  assert (key' = key) by congruence. subst key'.
  rewrite Henc' in Henc.
  destruct (Ok_pair_inj _ _ _ _ Henc) as [Henv _]. subst envelope.
  rewrite split_envelope in Hsplit by apply toString_hex_no_colon.
  injection Hsplit as <- <- <-.
  set (ct := gcm_xor key iv 0 (from_utf8 text)) in *.
  assert (Hiv' : from_hex (toString_hex iv) <> []).
  { rewrite from_hex_toString_hex. destruct iv; [discriminate Hiv|discriminate]. }
  destruct Hcase as [[Hj ->]|[Hj ->]].
  - destruct (from_hex_flip _ j c c' v Hj Hc' Hne)
      as (l1 & a & a' & l2 & Htag & Hdec & Ha).
    assert (Hlt : length (l1 ++ a' :: l2) = 16).
    { rewrite <- (gcm_mac_length key iv ct), Htag, !length_app. reflexivity. }
    assert (Hvalid : valid_tag_length
                       (length (from_hex
                          (<[j:=c']> (toString_hex (gcm_mac key iv ct)))))
                     = true)
      by (now rewrite Hdec, Hlt).
    rewrite (decrypt_parts env key _ _ _ Hkey Hlen
               (toString_hex_no_colon iv)
               (insert_no_colon _ j c' v
                  (toString_hex_no_colon (gcm_mac key iv ct)) Hc')
               (toString_hex_no_colon ct)
               Hiv' Hvalid (toString_hex_even ct)).
    rewrite Hdec, Hlt, !from_hex_toString_hex.
    rewrite firstn_all2 by (rewrite gcm_mac_length; lia).
    unfold buffer_eqb. rewrite bool_decide_eq_false_2; [reflexivity| ].
    rewrite Htag. intros Heq. apply app_inv_head in Heq.
    injection Heq as Heq. now apply Ha.
  - destruct (from_hex_flip _ j c c' v Hj Hc' Hne)
      as (l1 & a & a' & l2 & Hct & Hdec & Ha).
    assert (Hodd : Nat.odd (length (<[j:=c']> (toString_hex ct))) = false)
      by (rewrite insert_same_length; apply toString_hex_even).
    assert (Hvalid : valid_tag_length
                       (length (from_hex (toString_hex (gcm_mac key iv ct))))
                     = true)
      by (now rewrite from_hex_toString_hex, gcm_mac_length).
    rewrite (decrypt_parts env key _ _ _ Hkey Hlen
               (toString_hex_no_colon iv)
               (toString_hex_no_colon (gcm_mac key iv ct))
               (insert_no_colon _ j c' v (toString_hex_no_colon ct) Hc')
               Hiv' Hvalid Hodd).
    rewrite Hdec, !from_hex_toString_hex.
    rewrite firstn_all2 by (rewrite !gcm_mac_length; lia).
    unfold buffer_eqb. rewrite bool_decide_eq_false_2; [reflexivity| ].
    rewrite Hct. now apply I.
Qed.

(** The tag segment starts with ["0a"] here; its first digit becomes
    ["f"]. *)
Lemma tampered_envelope_rejected_witness :
  decrypt sample_env
    (lit "07070707070707070707070707070707" ++ lit ":"
     ++ <[0%nat:=102%N]> (lit "0a000000000000000000000000000000") ++ lit ":"
     ++ lit "070959150c0b") = Ok [].
Proof.
  apply (tampered_envelope_rejected sample_crypto sample_laws sample_env
           (scryptSync (from_utf8 (lit "session-secret"))
              (from_utf8 (lit "salt")) 32)
           (lit "sk-abc") 7%nat
           (lit "07070707070707070707070707070707:0a000000000000000000000000000000:070959150c0b")
           8%nat (lit "07070707070707070707070707070707")
           (lit "0a000000000000000000000000000000") (lit "070959150c0b")
           0%nat 48%N 102%N 15%N).
  - reflexivity.
  - apply sample_detects_substitution.
  - reflexivity.
  - vm_compute. reflexivity.
  - vm_compute. reflexivity.
  - reflexivity.
  - vm_compute. discriminate.
  - left. split; reflexivity.
Defined.

(* ===================================================================== *)
(** ** The upload relay: what the events leave alone *)
(* ===================================================================== *)

Lemma run_events_app rt url evs1 evs2 sw :
  run_events rt url (evs1 ++ evs2) sw
  = run_events rt url evs2 (run_events rt url evs1 sw).
Proof. apply fold_left_app. Qed.

Lemma part_events_app ps1 ps2 :
  part_events (ps1 ++ ps2) = part_events ps1 ++ part_events ps2.
Proof.
  induction ps1 as [|[name value|name filename size] ps1 IH]; cbn [app part_events].
  - reflexivity.
  - now rewrite IH.
  - rewrite IH. now rewrite <- !app_assoc.
Qed.

Lemma unlink_posts path w : posts (unlink_if_exists path w) = posts w.
Proof.
  unfold unlink_if_exists. destruct path as [p| ]; [ |reflexivity].
  now destruct (truthy p && bool_decide (p ∈ files w)).
Qed.

Lemma unlink_responses path w :
  responses (unlink_if_exists path w) = responses w.
Proof.
  unfold unlink_if_exists. destruct path as [p| ]; [ |reflexivity].
  now destruct (truthy p && bool_decide (p ∈ files w)).
Qed.

Lemma unlink_files_subseteq path w :
  files (unlink_if_exists path w) ⊆ files w.
Proof.
  unfold unlink_if_exists. destruct path as [p| ]; [ |reflexivity].
  destruct (truthy p && bool_decide (p ∈ files w)); cbn [files];
    [apply subseteq_difference_l| ]; reflexivity.
Qed.

Lemma unlink_removes p w :
  truthy p = true -> p ∉ files (unlink_if_exists (Some p) w).
Proof.
  intros Hp. unfold unlink_if_exists. rewrite Hp. cbn [andb].
  destruct (bool_decide_reflect (p ∈ files w)) as [Hin|Hout]; cbn [files];
    [ |exact Hout].
  rewrite elem_of_difference, elem_of_singleton. tauto.
Qed.

Lemma on_field_frame name value s :
  tempFilePath (on_field name value s) = tempFilePath s
  /\ fileStream (on_field name value s) = fileStream s
  /\ fileName (on_field name value s) = fileName s
  /\ fileReceived (on_field name value s) = fileReceived s.
Proof.
  unfold on_field.
  destruct (js_string_eqb name (lit "clip_size")),
    (js_string_eqb name (lit "clip_duration")),
    (js_string_eqb name (lit "clip_count")); now cbn.
Qed.

(** Field events leave the world alone, and the file variables of the
    session too. *)
Lemma run_fields_frame rt url ps s w :
  forallb is_field ps = true ->
  let sw := run_events rt url (part_events ps) (s, w) in
  snd sw = w /\ tempFilePath (fst sw) = tempFilePath s
  /\ fileStream (fst sw) = fileStream s
  /\ fileReceived (fst sw) = fileReceived s.
Proof.
  revert s. induction ps as [|[name value|name filename size] ps IH];
    intros s Hf; cbn [forallb is_field andb] in Hf; [now cbn| |discriminate].
  cbn [part_events run_events fold_left handle fst snd].
  destruct (IH (on_field name value s) Hf) as (Hw & Hp & Hs & Hr).
  destruct (on_field_frame name value s) as (Hp' & Hs' & _ & Hr').
  unfold run_events in *. cbn zeta in *.
  now rewrite Hw, Hp, Hs, Hr, Hp', Hs', Hr'.
Qed.

Lemma posts_part_events rt url ps sw :
  posts (snd (run_events rt url (part_events ps) sw)) = posts (snd sw).
Proof.
  revert sw. induction ps as [|[name value|name filename size] ps IH];
    intros [s w]; [reflexivity| |].
  - cbn [part_events run_events fold_left handle fst snd].
    apply (IH (on_field name value s, w)).
  - cbn [part_events]. change (OnFile name filename :: ?l) with ([OnFile name filename] ++ l).
    rewrite !run_events_app, IH.
    destruct (fileSize <=? size)%N; cbn [run_events fold_left handle on_file on_limit snd posts];
      [now rewrite unlink_posts|reflexivity].
Qed.

Lemma responses_part_events rt url ps sw :
  responses (snd (run_events rt url (part_events ps) sw)) = responses (snd sw).
Proof.
  revert sw. induction ps as [|[name value|name filename size] ps IH];
    intros [s w]; [reflexivity| |].
  - cbn [part_events run_events fold_left handle fst snd].
    apply (IH (on_field name value s, w)).
  - cbn [part_events].
    change (OnFile name filename :: ?l) with ([OnFile name filename] ++ l).
    rewrite !run_events_app, IH.
    destruct (fileSize <=? size)%N;
      cbn [run_events fold_left handle on_file on_limit snd responses];
      [now rewrite unlink_responses|reflexivity].
Qed.

Lemma path_join_truthy dir name : truthy (path_join dir name) = true.
Proof. unfold path_join. now destruct dir. Qed.

Lemma files_respond status body w : files (respond status body w) = files w.
Proof. reflexivity. Qed.

Lemma posts_respond status body w : posts (respond status body w) = posts w.
Proof. reflexivity. Qed.

Lemma responses_respond status body w :
  responses (respond status body w) = responses w ++ [(status, body)].
Proof. reflexivity. Qed.

(** Once the stream of the current file was destroyed at the limit, the
    events that follow when no other file part comes make no request to the
    webhook and do not bring the file back. *)
Lemma limit_then_end rt url name filename after e ends s0 w0 :
  forallb is_field after = true ->
  ends = [] \/ ends = [end_event e] ->
  let path :=
    path_join (tmpdir rt)
      (lit "upload-" ++ unique_id rt (drawn w0) ++ lit "-" ++ filename) in
  let sw1 := run_events rt url [OnFile name filename; OnLimit] (s0, w0) in
  let sw2 := run_events rt url (part_events after ++ ends) sw1 in
  tempFilePath (fst sw1) = Some path /\ (path ∉ files (snd sw1))
  /\ (path ∉ files (snd sw2)) /\ posts (snd sw2) = posts w0.
Proof.
  intros Hf Hends path sw1 sw2.
  assert (H1 : tempFilePath (fst sw1) = Some path) by reflexivity.
  assert (H2 : fileStream (fst sw1) = Some {| destroyed := true |})
    by reflexivity.
  assert (H3 : fileReceived (fst sw1) = true) by reflexivity.
  assert (H4 : path ∉ files (snd sw1)).
  { subst sw1. cbn [run_events fold_left handle on_file on_limit snd tempFilePath].
    apply unlink_removes, path_join_truthy. }
  assert (H5 : posts (snd sw1) = posts w0).
  { subst sw1. cbn [run_events fold_left handle on_file on_limit snd tempFilePath].
    now rewrite unlink_posts. }
  split; [exact H1| ]. split; [exact H4| ].
  subst sw2. rewrite run_events_app. destruct sw1 as [s1 w1].
  cbn [fst snd] in *.
  destruct (run_fields_frame rt url after s1 w1 Hf) as (Hw & Hp & Hs & Hr).
  destruct (run_events rt url (part_events after) (s1, w1)) as [s2 w2].
  cbn [fst snd] in *. subst w2. rewrite H1 in Hp. rewrite H2 in Hs.
  rewrite H3 in Hr.
  assert (Hsub : forall w', files w' ⊆ files w1 -> path ∉ files w').
  { intros w' Hsub Hin. apply H4, Hsub, Hin. }
  destruct Hends as [->| ->]; [cbn [run_events fold_left snd]; now split| ].
  destruct e; cbn [end_event run_events fold_left handle].
  - unfold on_finish. rewrite Hp, Hr. cbn [negb orb].
    replace (falsy path) with false
      by (symmetry; apply negb_true_iff, path_join_truthy).
    destruct (falsy (clipSize s2) || falsy (clipDuration s2)); cbn [snd].
    + rewrite posts_respond, unlink_posts, files_respond. split; [ |exact H5].
      apply Hsub, unlink_files_subseteq.
    + unfold stream_finishes. rewrite Hs. cbn [destroyed negb andb snd].
      split; [exact H4|exact H5].
  - unfold on_error. cbn [snd].
    rewrite posts_respond, unlink_posts, files_respond. split; [ |exact H5].
    apply Hsub, unlink_files_subseteq.
Qed.

(** C3: when the file part of a request exceeds the 500 MiB limit and no
    other file part follows it, no request is made to the webhook, and the
    partial file is gone as soon as the limit handler has run and stays
    gone. *)
Theorem oversized_file_not_forwarded
  rt req w before name filename size after :
  parts req = before ++ File name filename size :: after ->
  (fileSize < size)%N ->
  forallb is_field after = true ->
  posts (upload_video rt req w) = posts w
  /\ forall url,
       webhook rt = Some url -> falsy url = false -> multipart req = true ->
       let at_limit :=
         run_events rt url
           (part_events (before ++ [File name filename size]))
           (initial_session, w) in
       exists path,
         tempFilePath (fst at_limit) = Some path
         /\ (path ∉ files (snd at_limit))
         /\ path ∉ files (upload_video rt req w).
Proof.
  intros Hparts Hsize Hf.
  assert (Hends : end_events req = []
                  \/ end_events req = [end_event (body_ends req)])
    by (unfold end_events; destruct (body_ends req);
        [destruct (existsb reaches_limit (parts req))| ]; auto).
  assert (Hev : forall url,
    run_events rt url (request_events req) (initial_session, w)
    = run_events rt url (part_events after ++ end_events req)
        (run_events rt url [OnFile name filename; OnLimit]
           (run_events rt url (part_events before) (initial_session, w)))).
  { intros url. unfold request_events. rewrite Hparts.
    rewrite part_events_app. cbn [part_events].
    replace (fileSize <=? size)%N with true by (symmetry; apply N.leb_le; lia).
    now rewrite <- !app_assoc, !run_events_app. }
  assert (Hlim : forall url,
    run_events rt url (part_events (before ++ [File name filename size]))
      (initial_session, w)
    = run_events rt url [OnFile name filename; OnLimit]
        (run_events rt url (part_events before) (initial_session, w))).
  { intros url. rewrite part_events_app. cbn [part_events].
    replace (fileSize <=? size)%N with true by (symmetry; apply N.leb_le; lia).
    now rewrite run_events_app. }
  split.
  - unfold upload_video. destruct (webhook rt) as [url| ]; [ |reflexivity].
    destruct (falsy url); [reflexivity| ].
    destruct (multipart req); cbn [negb]; [ |reflexivity].
    rewrite Hev.
    pose proof (posts_part_events rt url before (initial_session, w)) as Hb.
    destruct (run_events rt url (part_events before) (initial_session, w))
      as [s0 w0].
    destruct (limit_then_end rt url name filename after (body_ends req)
                (end_events req) s0 w0 Hf Hends) as (_ & _ & _ & Hposts).
    rewrite Hposts. exact Hb.
  - intros url Hurl Hu Hm at_limit. subst at_limit. rewrite Hlim.
    unfold upload_video. rewrite Hurl, Hu, Hm. cbn [negb]. rewrite Hev.
    destruct (run_events rt url (part_events before) (initial_session, w))
      as [s0 w0].
    destruct (limit_then_end rt url name filename after (body_ends req)
                (end_events req) s0 w0 Hf Hends) as (Hp & Hfiles & Hfinal & _).
    eexists. split; [exact Hp| ]. split; [exact Hfiles|exact Hfinal].
Qed.

Lemma oversized_file_not_forwarded_witness :
  posts (upload_video sample_runtime (page_request (600 * MiB) (lit "2"))
           empty_world) = posts empty_world
  /\ forall url,
       webhook sample_runtime = Some url -> falsy url = false ->
       multipart (page_request (600 * MiB) (lit "2")) = true ->
       let at_limit :=
         run_events sample_runtime url
           (part_events ([] ++ [File (lit "file") (lit "talk.mp4") (600 * MiB)]))
           (initial_session, empty_world) in
       exists path,
         tempFilePath (fst at_limit) = Some path
         /\ (path ∉ files (snd at_limit))
         /\ path ∉ files
              (upload_video sample_runtime (page_request (600 * MiB) (lit "2"))
                 empty_world).
Proof.
  apply (oversized_file_not_forwarded sample_runtime
           (page_request (600 * MiB) (lit "2")) empty_world []
           (lit "file") (lit "talk.mp4") (600 * MiB)
           [Field (lit "clip_size") (lit "1920x1080");
            Field (lit "clip_duration") (lit "3");
            Field (lit "clip_count") (lit "2")]).
  - reflexivity.
  - vm_compute. reflexivity.
  - reflexivity.
Defined.

(* ===================================================================== *)
(** ** The upload relay: what is sent on *)
(* ===================================================================== *)

Lemma part_events_snoc_field ps name value :
  part_events (ps ++ [Field name value]) = part_events ps ++ [OnField name value].
Proof. now rewrite part_events_app. Qed.

Lemma last_field_snoc name ps p :
  last_field name (ps ++ [p])
  = match p with
    | Field n v => if js_string_eqb n name then Some v else last_field name ps
    | File _ _ _ => last_field name ps
    end.
Proof. unfold last_field. now rewrite fold_left_app. Qed.

Lemma last_filename_snoc ps p :
  last_filename (ps ++ [p])
  = match p with
    | Field _ _ => last_filename ps
    | File _ filename _ => Some filename
    end.
Proof. unfold last_filename. now rewrite fold_left_app. Qed.

(** The session once all parts were handled holds what the request says. *)
Lemma session_after_parts rt url ps w :
  let s := fst (run_events rt url (part_events ps) (initial_session, w)) in
  fileName s = default [] (last_filename ps)
  /\ clipSize s = default [] (last_field (lit "clip_size") ps)
  /\ clipDuration s = default [] (last_field (lit "clip_duration") ps)
  /\ clipCount s
     = match last_field (lit "clip_count") ps with
       | Some value => number_or (parseInt value) 1
       | None => 1%Z
       end.
Proof.
  induction ps as [|p ps IH] using rev_ind; [now cbn| ].
  cbn zeta in *. rewrite part_events_app, run_events_app.
  rewrite !last_field_snoc, last_filename_snoc.
  destruct (run_events rt url (part_events ps) (initial_session, w)) as [s0 w0].
  cbn [fst] in IH. destruct IH as (Hn & Hs & Hd & Hc).
  destruct p as [name value|name filename size].
  - cbn [part_events run_events fold_left handle fst snd app]. unfold on_field.
    destruct (js_string_eqb name (lit "clip_size")),
      (js_string_eqb name (lit "clip_duration")),
      (js_string_eqb name (lit "clip_count"));
      cbn [fileName clipSize clipDuration clipCount default]; auto.
  - cbn [part_events app].
    destruct (fileSize <=? size)%N;
      cbn [run_events fold_left handle on_file on_limit fst app
             fileName clipSize clipDuration clipCount default]; auto.
Qed.

Lemma on_finish_posts rt url s w :
  posts (snd (on_finish rt url (s, w))) = posts w
  \/ exists path,
       posts (snd (on_finish rt url (s, w)))
       = posts w ++ [(url, webhook_form s path)]
       /\ responses (snd (on_finish rt url (s, w)))
          = responses w
            ++ [relayed (fetch rt url (form_toString (webhook_form s path)))].
Proof.
  unfold on_finish. destruct (tempFilePath s) as [path| ]; [ |now left].
  destruct (negb (fileReceived s) || falsy path); [now left| ].
  destruct (falsy (clipSize s) || falsy (clipDuration s)).
  { left. cbn [snd]. now rewrite posts_respond, unlink_posts. }
  destruct (negb (stream_finishes rt s)); [now left| ].
  right. exists path. unfold relayed.
  destruct (fetch rt url (form_toString (webhook_form s path)))
    as [m|status [body|m]]; cbn [snd].
  - now rewrite posts_respond, unlink_posts, responses_respond,
      unlink_responses.
  - destruct (response_ok status); cbn [negb snd];
      now rewrite posts_respond, unlink_posts, responses_respond,
        unlink_responses.
  - now rewrite posts_respond, !unlink_posts, responses_respond,
      !unlink_responses.
Qed.

(** C7: the fields do not reach the destination.  The handler does build
    the form, but it hands the object of the [form-data] package to the
    global [fetch], which knows no such body and sends the object's
    [toString()]: whenever the relay calls the webhook, whatever the
    client supplied, the body of the request is the text
    ["[object FormData]"], and the answer relayed to the caller is the
    destination's answer to that text. *)
Theorem forwarded_body_is_object_text rt req w :
  posts (upload_video rt req w) = posts w
  \/ exists url form,
       webhook rt = Some url
       /\ posts (upload_video rt req w) = posts w ++ [(url, form)]
       /\ In (FormField (lit "video_type") (lit "mp4")) form
       /\ form_toString form = lit "[object FormData]"
       /\ responses (upload_video rt req w)
          = responses w ++ [relayed (fetch rt url (lit "[object FormData]"))].
Proof.
  unfold upload_video. destruct (webhook rt) as [url| ]; [ |now left].
  destruct (falsy url); [now left| ].
  destruct (multipart req); cbn [negb]; [ |now left].
  unfold request_events. rewrite run_events_app.
  pose proof (posts_part_events rt url (parts req) (initial_session, w)) as Hp.
  pose proof (responses_part_events rt url (parts req) (initial_session, w))
    as Hr.
  destruct (run_events rt url (part_events (parts req)) (initial_session, w))
    as [s0 w0].
  cbn [fst snd] in *. unfold end_events.
  destruct (body_ends req).
  - destruct (existsb reaches_limit (parts req));
      cbn [run_events fold_left handle snd]; [now left| ].
    destruct (on_finish_posts rt url s0 w0) as [H|(path & H & H')].
    + left. now rewrite H.
    + right. exists url, (webhook_form s0 path).
      split; [reflexivity| ]. split; [now rewrite H, Hp| ].
      split; [now left| ]. split; [reflexivity| ]. now rewrite H', Hr.
  - left. cbn [run_events fold_left handle snd]. unfold on_error. cbn [snd].
    now rewrite posts_respond, unlink_posts.
Qed.

(** The scenario of the specification: a 10 MiB file, size and duration
    set, no count, a destination that answers [200 "ok"]. *)
Example relay_scenario_success :
  let req :=
    {| multipart := true;
       parts := [File (lit "file") (lit "talk.mp4") (10 * MiB);
                 Field (lit "clip_size") (lit "1920x1080");
                 Field (lit "clip_duration") (lit "3")];
       body_ends := Complete |} in
  let w := upload_video sample_runtime req empty_world in
  responses w = [(200%Z, SuccessBody (lit "ok"))]
  /\ files w = ∅
  /\ posts w
     = [(lit "https://n8n.example/webhook/clips",
         [FormField (lit "video_type") (lit "mp4");
          FormField (lit "file_name") (lit "talk.mp4");
          FormField (lit "clip_size") (lit "1920x1080");
          FormField (lit "clip_duration") (lit "3");
          FormField (lit "clip_count") (lit "1");
          FormFile (lit "file")
            (lit "/tmp/upload-1700000000000-k3x9q0-talk.mp4")
            (lit "talk.mp4") (lit "video/mp4")])].
Proof. vm_compute. repeat split. Qed.

(** The scenario without a file part: a client error and no request. *)
Example relay_scenario_no_file :
  let req :=
    {| multipart := true;
       parts := [Field (lit "clip_size") (lit "1920x1080");
                 Field (lit "clip_duration") (lit "3")];
       body_ends := Complete |} in
  let w := upload_video sample_runtime req empty_world in
  responses w = [(400%Z, ErrorBody (lit "No file uploaded"))]
  /\ posts w = [].
Proof. vm_compute. repeat split. Qed.

(* ===================================================================== *)
(** ** The clip count *)
(* ===================================================================== *)

(** Reading the digits of a decimal numeral with a value already read. *)
Lemma digits_value_uint_acc d (p : positive) :
  digits_value 10 (Some (Npos p)) (uint_units d)
  = Some (Npos (Pos.of_uint_acc d p)).
Proof.
  revert p. induction d; intros p; cbn [uint_units digits_value Pos.of_uint_acc];
    [reflexivity| ..];
    (match goal with
     | |- context [digit_value 10 ?c] =>
         change (digit_value 10 c) with (Some (c - 48)%N)
     end);
    rewrite <- IHd; do 2 f_equal; lia.
Qed.

Lemma digits_value_uint d :
  d <> Decimal.Nil ->
  (digits_value 10 None (uint_units d) = Some (Pos.of_uint d))
  /\ digits_value 10 (Some 0%N) (uint_units d) = Some (Pos.of_uint d).
Proof.
  induction d; intros Hd; try contradiction;
    cbn [uint_units digits_value Pos.of_uint];
    (match goal with
     | |- context [digit_value 10 ?c] =>
         change (digit_value 10 c) with (Some (c - 48)%N)
     end);
    try (split; apply digits_value_uint_acc).
  change (10 * 0 + (48 - 48))%N with 0%N.
  destruct d; try (split; apply IHd; discriminate). now cbn.
Qed.

Lemma uint_units_digits d :
  Forall (fun c => (48 <= c <= 57)%N) (uint_units d).
Proof. induction d; cbn [uint_units]; constructor; (lia || assumption). Qed.

Lemma parseInt_digits s :
  Forall (fun c => (48 <= c <= 57)%N) s -> s <> [] ->
  parseInt s
  = match digits_value 10 None s with Some n => Int (Z.of_N n) | None => NaN end.
Proof.
  intros Hs Hne. unfold parseInt.
  destruct s as [|c rest]; [contradiction| ].
  apply Forall_cons in Hs. destruct Hs as [Hc Hrest].
  assert (Hw : is_white_space c = false).
  { unfold is_white_space, in_range. cbn [existsb].
    repeat match goal with
      | |- context [(c =? ?k)%N] =>
          replace (c =? k)%N with false by (symmetry; apply N.eqb_neq; lia)
      end.
    replace (8192 <=? c)%N with false by (symmetry; apply N.leb_gt; lia).
    reflexivity. }
  cbn [trim_start]. rewrite Hw.
  match goal with
  | |- (let '(_, _) := ?sign in _) = _ =>
      assert (Hsign : sign = (false, c :: rest));
      [ | rewrite Hsign ]
  end.
  { destruct c as [|p]; [reflexivity| ].
    do 6 (try destruct p as [p|p| ]); try reflexivity; lia. }
  match goal with
  | |- (let '(_, _) := ?prefix in _) = _ =>
      assert (Hprefix : prefix = (10%N, c :: rest));
      [ | rewrite Hprefix; reflexivity ]
  end.
  destruct rest as [|x rest0].
  - destruct c as [|p]; [reflexivity| ].
    do 6 (try destruct p as [p|p| ]); reflexivity.
  - apply Forall_cons in Hrest. destruct Hrest as [Hx _].
    replace ((x =? 120) || (x =? 88))%N with false
      by (symmetry; apply orb_false_iff; split; apply N.eqb_neq; lia).
    destruct c as [|p]; [reflexivity| ].
    do 6 (try destruct p as [p|p| ]); reflexivity.
Qed.

(** A positive integer written in decimal is parsed to itself. *)
Lemma parseInt_number_toString z :
  (0 < z)%Z -> parseInt (number_toString z) = Int z.
Proof.
  intros Hz. destruct z as [|p|p]; try lia.
  unfold number_toString. cbn [Z.to_int].
  pose proof (Unsigned.to_uint_nonnil p) as Hnil.
  rewrite parseInt_digits.
  - destruct (digits_value_uint (Pos.to_uint p) Hnil) as [-> _].
    now rewrite Unsigned.of_to.
  - apply uint_units_digits.
  - destruct (Pos.to_uint p); [contradiction|discriminate..].
Qed.

(* ===================================================================== *)
(** ** The upload relay: the count and the response *)
(* ===================================================================== *)

(** ** The count *)

Lemma number_or_nonzero n : (number_or n 1 =? 0)%Z = false.
Proof.
  destruct n as [|z]; [reflexivity| ]. cbn [number_or].
  destruct (Z.eqb_spec z 0); [reflexivity| ]. now apply Z.eqb_neq.
Qed.

Lemma parseInt_negative value z :
  parseInt value = Int z -> (z < 0)%Z ->
  exists rest, trim_start value = 45%N :: rest.
Proof.
  unfold parseInt. intros H Hz.
  destruct (trim_start value) as [|c rest] eqn:E; [discriminate H| ].
  destruct (N.eq_dec c 45%N) as [->|Hc]; [eauto| ]. exfalso.
  match type of H with
  | (let '(_, _) := ?sign in _) = _ =>
      assert (Hsign : fst sign = false);
      [ | destruct sign as [negative s]; cbn [fst] in Hsign; subst negative ]
  end.
  { destruct c as [|p]; [reflexivity| ].
    do 6 (try destruct p as [p|p| ]); try reflexivity.
    exfalso. now apply Hc. }
  match type of H with
  | (let '(_, _) := ?prefix in _) = _ => destruct prefix as [radix s0]
  end.
  destruct (digits_value radix None s0); [ |discriminate H].
  injection H as <-. lia.
Qed.

(** C6 at a negative count: the handler keeps [-5], and [-5] is what it
    writes into the form for the webhook; a count that does not parse, and
    an absent one, give [1]. *)
Theorem negative_clip_count_forwarded :
  clipCount (on_field (lit "clip_count") (lit "-5") initial_session) = (-5)%Z
  /\ In (FormField (lit "clip_count") (lit "-5"))
       (expected_fields (page_request (10 * MiB) (lit "-5")))
  /\ (exists path,
        posts (upload_video sample_runtime (page_request (10 * MiB) (lit "-5"))
                 empty_world)
        = [(lit "https://n8n.example/webhook/clips",
            expected_fields (page_request (10 * MiB) (lit "-5"))
            ++ [FormFile (lit "file") path (lit "talk.mp4") (lit "video/mp4")])])
  /\ clipCount (on_field (lit "clip_count") (lit "abc") initial_session) = 1%Z
  /\ clipCount initial_session = 1%Z.
Proof.
  split; [reflexivity| ]. split; [vm_compute; tauto| ].
  split; [eexists; vm_compute; reflexivity| ]. split; reflexivity.
Qed.

(** ** The response *)

(** C2 at an upload whose file exceeds the limit, sent the way the page
    sends it: the limit handler destroys the write stream, the parser
    never comes to its ["finish"], and the request gets no response at
    all. *)
Theorem limit_breach_leaves_request_unanswered rt url w size count :
  webhook rt = Some url -> falsy url = false -> (fileSize < size)%N ->
  let after := upload_video rt (page_request size count) w in
  responses after = responses w /\ posts after = posts w
  /\ hung w after = true.
Proof.
  intros Hurl Hu Hsize' after. subst after. unfold upload_video, hung.
  assert (Hsize : (fileSize <=? size)%N = true) by (apply N.leb_le; lia).
  rewrite Hurl, Hu. cbn [multipart page_request negb].
  unfold request_events, end_events.
  cbn [parts page_request body_ends existsb reaches_limit].
  rewrite Hsize. cbn [orb]. rewrite app_nil_r.
  rewrite responses_part_events, posts_part_events. cbn [snd].
  split; [reflexivity| ]. split; [reflexivity|apply Nat.eqb_refl].
Qed.

Lemma limit_breach_leaves_request_unanswered_witness :
  let after :=
    upload_video sample_runtime (page_request (600 * MiB) (lit "2"))
      empty_world in
  responses after = responses empty_world /\ posts after = posts empty_world
  /\ hung empty_world after = true.
Proof.
  apply (limit_breach_leaves_request_unanswered sample_runtime
           (lit "https://n8n.example/webhook/clips"));
    [reflexivity|reflexivity|vm_compute; reflexivity].
Defined.

(** A request with two file parts: the second takes over the shared
    variables, and the file of the first is never removed. *)
Example first_of_two_files_is_left_behind :
  let req :=
    {| multipart := true;
       parts := [File (lit "a") (lit "a.mp4") (5 * MiB);
                 File (lit "b") (lit "b.mp4") (5 * MiB);
                 Field (lit "clip_size") (lit "1920x1080");
                 Field (lit "clip_duration") (lit "3")];
       body_ends := Complete |} in
  let w := upload_video sample_runtime req empty_world in
  responses w = [(200%Z, SuccessBody (lit "ok"))]
  /\ elements (files w) = [lit "/tmp/upload-1700000000000-k3x9q0-a.mp4"].
Proof. vm_compute. split; reflexivity. Qed.

(* ===================================================================== *)
(** ** The upload relay: the clean-up that holds *)
(* ===================================================================== *)

(** The end of a request whose current file is still being written: the
    file is removed and one response is sent, whichever way it ends. *)
Lemma end_event_cleans_up rt url e s w path :
  finish_heard rt = true ->
  tempFilePath s = Some path -> truthy path = true ->
  fileReceived s = true -> fileStream s = Some {| destroyed := false |} ->
  let after := snd (handle rt url (end_event e) (s, w)) in
  (path ∉ files after)
  /\ length (responses after) = S (length (responses w)).
Proof.
  intros Hheard Hp Ht Hr Hs after. subst after.
  assert (Hgone : forall w', path ∉ files (unlink_if_exists (Some path) w'))
    by (intros w'; now apply unlink_removes).
  destruct e; cbn [end_event handle].
  - unfold on_finish. rewrite Hp, Hr.
    replace (falsy path) with false by (symmetry; now apply negb_true_iff).
    cbn [negb orb]. unfold stream_finishes. rewrite Hs, Hheard.
    cbn [destroyed negb andb].
    destruct (falsy (clipSize s) || falsy (clipDuration s)); cbn [snd].
    { rewrite files_respond, responses_respond, unlink_responses, length_app.
      split; [apply Hgone|cbn [length]; lia]. }
    destruct (fetch rt url _) as [m|status [body|m]]; cbn [snd].
    + rewrite files_respond, responses_respond, unlink_responses, length_app.
      split; [apply Hgone|cbn [length responses]; lia].
    + destruct (negb (response_ok status)); cbn [snd];
        rewrite files_respond, responses_respond, unlink_responses, length_app;
        (split; [apply Hgone|cbn [length responses]; lia]).
    + rewrite files_respond, responses_respond, !unlink_responses, length_app.
      split; [apply Hgone|cbn [length responses]; lia].
  - unfold on_error. cbn [snd]. rewrite Hp.
    rewrite files_respond, responses_respond, unlink_responses, length_app.
    split; [apply Hgone|cbn [length]; lia].
Qed.

Lemma fields_reach_no_limit ps :
  forallb is_field ps = true -> existsb reaches_limit ps = false.
Proof.
  induction ps as [|[name value|name filename size] ps IH];
    cbn [forallb is_field existsb reaches_limit andb orb];
    [reflexivity|exact IH|discriminate].
Qed.

Lemma one_small_file_no_limit fields1 name filename size fields2 :
  forallb is_field fields1 = true -> forallb is_field fields2 = true ->
  (size < fileSize)%N ->
  existsb reaches_limit (fields1 ++ File name filename size :: fields2)
  = false.
Proof.
  intros H1 H2 Hsize. rewrite existsb_app. cbn [existsb reaches_limit].
  rewrite (fields_reach_no_limit _ H1), (fields_reach_no_limit _ H2).
  replace (fileSize <=? size)%N with false by (symmetry; apply N.leb_gt; lia).
  reflexivity.
Qed.

Lemma end_events_no_limit req :
  existsb reaches_limit (parts req) = false ->
  end_events req = [end_event (body_ends req)].
Proof. unfold end_events. intros ->. now destruct (body_ends req). Qed.

(** X9: what does hold of the clean-up: when the write stream's
    ["finish"] is heard (it comes after the finish handler has begun to
    listen), a request with one file part below the limit leaves no file
    behind and is answered once, whether it is forwarded, refused, or
    fails. *)
Lemma single_small_file_cleaned_up
  rt url req w fields1 name filename size fields2 :
  webhook rt = Some url -> falsy url = false -> multipart req = true ->
  finish_heard rt = true ->
  parts req = fields1 ++ File name filename size :: fields2 ->
  forallb is_field fields1 = true -> forallb is_field fields2 = true ->
  (size < fileSize)%N ->
  let path :=
    path_join (tmpdir rt)
      (lit "upload-" ++ unique_id rt (drawn w) ++ lit "-" ++ filename) in
  let after := upload_video rt req w in
  (path ∉ files after)
  /\ length (responses after) = S (length (responses w)).
Proof.
  intros Hurl Hu Hm Hheard Hparts Hf1 Hf2 Hsize path after. subst after.
  unfold upload_video. rewrite Hurl, Hu, Hm. cbn [negb].
  unfold request_events. rewrite end_events_no_limit
    by (rewrite Hparts; now apply one_small_file_no_limit).
  rewrite Hparts, part_events_app. cbn [part_events].
  replace (fileSize <=? size)%N with false by (symmetry; apply N.leb_gt; lia).
  cbn [app].
  change (OnFile name filename :: part_events fields2)
    with ([OnFile name filename] ++ part_events fields2).
  rewrite <- !app_assoc, !run_events_app.
  destruct (run_fields_frame rt url fields1 initial_session w Hf1)
    as (Hw1 & _ & _ & _).
  destruct (run_events rt url (part_events fields1) (initial_session, w))
    as [s1 w1]. cbn [snd] in Hw1. subst w1.
  set (sw2 := run_events rt url [OnFile name filename] (s1, w)).
  assert (H2 : tempFilePath (fst sw2) = Some path
               /\ fileReceived (fst sw2) = true
               /\ fileStream (fst sw2) = Some {| destroyed := false |}
               /\ responses (snd sw2) = responses w) by now repeat split.
  clearbody sw2. destruct sw2 as [s2 w2]. cbn [fst snd] in H2.
  destruct H2 as (Hp & Hr & Hs & Hres).
  destruct (run_fields_frame rt url fields2 s2 w2 Hf2) as (Hw3 & Hp3 & Hs3 & Hr3).
  destruct (run_events rt url (part_events fields2) (s2, w2)) as [s3 w3].
  cbn [fst snd] in *. subst w3. rewrite Hp in Hp3. rewrite Hs in Hs3.
  rewrite Hr in Hr3. rewrite <- Hres.
  apply (end_event_cleans_up rt url (body_ends req) s3 w2 path Hheard Hp3
           (path_join_truthy _ _) Hr3 Hs3).
Qed.

(* ===================================================================== *)
(** ** Saving the settings *)
(* ===================================================================== *)

Section SettingsFacts.
Context {C : NodeCrypto}.

Lemma chosen_key_cases env clear submitted stored e v e' :
  chosen_key env clear submitted stored e = Ok (v, e') ->
  (clear = true -> v = Null /\ e' = e)
  /\ (clear = false -> keeps_stored submitted = true -> v = stored /\ e' = e)
  /\ (clear = false -> keeps_stored submitted = false ->
      exists key c,
        submitted = Some key /\ encrypt env key e = Ok (c, e') /\ v = Str c).
Proof.
  unfold chosen_key, keeps_stored, truthy. intros H.
  destruct clear.
  - injection H as <- <-. repeat split; intros; try discriminate; auto.
  - destruct submitted as [key| ].
    + destruct (falsy key); cbn [negb andb orb] in *.
      * injection H as <- <-. repeat split; intros; try discriminate; auto.
      * destruct (startsWith key mask_prefix); cbn [negb] in *.
        -- injection H as <- <-. repeat split; intros; try discriminate; auto.
        -- destruct (encrypt env key e) as [[c e1]| ] eqn:Ee;
             cbn [mbind result_bind bind] in H; [ |discriminate H].
           injection H as <- <-.
           repeat split; intros; try discriminate; eauto.
    + injection H as <- <-. repeat split; intros; try discriminate; auto.
Qed.

Lemma save_settings_try_chosen env body existing e w e' :
  save_settings_try env body existing e = Ok (w, e') ->
  exists e1,
    chosen_key env (clearApiKey body) (airtableApiKey body)
      (column_of existing row_airtableApiKey) e
    = Ok (set_airtableApiKey (written w), e1)
    /\ chosen_key env (clearOpenaiKey body) (openaiApiKey body)
         (column_of existing row_openaiApiKey) e1
       = Ok (set_openaiApiKey (written w), e').
Proof.
  unfold save_settings_try. fold (chosen_key env (clearApiKey body)
    (airtableApiKey body) (column_of existing row_airtableApiKey) e).
  destruct (chosen_key env (clearApiKey body) (airtableApiKey body)
    (column_of existing row_airtableApiKey) e) as [[v1 e1]| ];
    cbn [mbind result_bind bind]; [ |discriminate].
  fold (chosen_key env (clearOpenaiKey body)
    (openaiApiKey body) (column_of existing row_openaiApiKey) e1).
  destruct (chosen_key env (clearOpenaiKey body) (openaiApiKey body)
    (column_of existing row_openaiApiKey) e1) as [[v2 e2]| ] eqn:E2;
    cbn [mbind result_bind bind]; [ |discriminate].
  intros H. exists e1. rewrite E2.
  destruct existing; injection H as <- <-; split; reflexivity.
Qed.

End SettingsFacts.

(** C10: in the write of a successful save, a key column whose clear flag
    is set receives null; one whose submitted key is absent, empty or
    masked (and not cleared) receives the stored value unchanged; only a
    non-empty key without the mask is passed to [encrypt], whose envelope
    is written.  When neither key is encrypted the random source is left
    as it was. *)
Theorem settings_key_written
  (C : NodeCrypto) env body existing (e : entropy) w e' :
  save_settings_try env body existing e = Ok (w, e') ->
  (clearApiKey body = true -> set_airtableApiKey (written w) = Null)
  /\ (clearApiKey body = false -> keeps_stored (airtableApiKey body) = true ->
      set_airtableApiKey (written w) = column_of existing row_airtableApiKey)
  /\ (clearApiKey body = false -> keeps_stored (airtableApiKey body) = false ->
      exists key c e0 e1,
        airtableApiKey body = Some key /\ encrypt env key e0 = Ok (c, e1)
        /\ set_airtableApiKey (written w) = Str c)
  /\ (clearOpenaiKey body = true -> set_openaiApiKey (written w) = Null)
  /\ (clearOpenaiKey body = false -> keeps_stored (openaiApiKey body) = true ->
      set_openaiApiKey (written w) = column_of existing row_openaiApiKey)
  /\ (clearOpenaiKey body = false -> keeps_stored (openaiApiKey body) = false ->
      exists key c e0 e1,
        openaiApiKey body = Some key /\ encrypt env key e0 = Ok (c, e1)
        /\ set_openaiApiKey (written w) = Str c)
  /\ (clearApiKey body || keeps_stored (airtableApiKey body) = true ->
      clearOpenaiKey body || keeps_stored (openaiApiKey body) = true ->
      e' = e).
Proof.
  intros H. destruct (save_settings_try_chosen env body existing e w e' H)
    as (e1 & H1 & H2).
  destruct (chosen_key_cases _ _ _ _ _ _ _ H1) as (A1 & A2 & A3).
  destruct (chosen_key_cases _ _ _ _ _ _ _ H2) as (B1 & B2 & B3).
  split; [intros Hc; apply (A1 Hc)| ].
  split; [intros Hc Hk; apply (A2 Hc Hk)| ].
  split; [intros Hc Hk; destruct (A3 Hc Hk) as (key & c & ? & ? & ?);
          now exists key, c, e, e1| ].
  split; [intros Hc; apply (B1 Hc)| ].
  split; [intros Hc Hk; apply (B2 Hc Hk)| ].
  split; [intros Hc Hk; destruct (B3 Hc Hk) as (key & c & ? & ? & ?);
          now exists key, c, e1, e'| ].
  intros Ha Hb.
  assert (E1 : e1 = e).
  { destruct (clearApiKey body); [apply A1; reflexivity| ].
    apply A2; [reflexivity|exact Ha]. }
  assert (E2 : e' = e1).
  { destruct (clearOpenaiKey body); [apply B1; reflexivity| ].
    apply B2; [reflexivity|exact Hb]. }
  congruence.
Qed.

Lemma settings_key_written_witness :
  exists w e',
    save_settings_try (C:=sample_crypto) sample_env sample_body (Some sample_row) 7%nat
    = Ok (w, e')
    /\ set_airtableApiKey (written w) = Str (lit "0a0b:0c0d:0e0f")
    /\ exists key c e0 e1,
         openaiApiKey sample_body = Some key
         /\ encrypt sample_env key e0 = Ok (c, e1)
         /\ set_openaiApiKey (written w) = Str c.
Proof.
  destruct (save_settings_try (C:=sample_crypto) sample_env sample_body (Some sample_row) 7%nat)
    as [[w e']| ] eqn:E; [ |vm_compute in E; discriminate E].
  exists w, e'. split; [reflexivity| ].
  pose proof (settings_key_written sample_crypto sample_env sample_body
    (Some sample_row) 7%nat w e' E) as (_ & Hkeep & _ & _ & _ & Hnew & _).
  split.
  - apply Hkeep; reflexivity.
  - apply Hnew; reflexivity.
Defined.

(** Keeping or clearing both keys needs no passphrase: [encrypt] is not
    called. *)
Lemma settings_kept_without_passphrase (C : NodeCrypto) body existing
  (e : entropy) :
  clearApiKey body || keeps_stored (airtableApiKey body) = true ->
  clearOpenaiKey body || keeps_stored (openaiApiKey body) = true ->
  exists w, save_settings_try empty_env body existing e = Ok (w, e).
Proof.
  unfold save_settings_try, keeps_stored, truthy. intros Ha Hb.
  destruct (clearApiKey body), (clearOpenaiKey body),
    (airtableApiKey body) as [[|c k]| ], (openaiApiKey body) as [[|d k']| ];
    cbn [falsy negb andb orb] in *;
    repeat match goal with
      | H : ?b = true |- _ => rewrite H
      end;
    cbn [negb andb mbind result_bind bind];
    destruct existing; eauto.
Qed.

(* ===================================================================== *)
(** ** More on the credential cipher *)
(* ===================================================================== *)

Lemma hex_of_byte_lower b : forallb is_lower_hex (hex_of_byte b) = true.
Proof. destruct b; reflexivity. Qed.

Lemma toString_hex_lower buf : forallb is_lower_hex (toString_hex buf) = true.
Proof.
  induction buf as [|b buf IH]; [reflexivity| ].
  cbn [toString_hex flat_map]. rewrite forallb_app, hex_of_byte_lower.
  exact IH.
Qed.

Lemma gcm_xor_length (C : NodeCrypto) key iv offset data :
  length (gcm_xor key iv offset data) = length data.
Proof.
  revert offset. induction data as [|b data IH]; intros offset; [reflexivity| ].
  cbn [gcm_xor length]. now rewrite IH.
Qed.

Lemma forallb_weaken {A} (p q : A -> bool) l :
  (forall x, p x = true -> q x = true) ->
  forallb p l = true -> forallb q l = true.
Proof.
  intros Hpq. induction l as [|x l IH]; [reflexivity| ]. cbn [forallb].
  intros H. apply andb_true_iff in H. destruct H as [Hx Hl].
  now rewrite (Hpq x Hx), IH.
Qed.

(** X1: the envelope of a non-empty text is the hexadecimal text of the
    sixteen random bytes drawn, of a sixteen-byte tag and of as many bytes
    as the text has in UTF-8, joined by colons; splitting it on the colon
    gives these three parts back, and it holds nothing but digits, the
    letters [a] to [f] and the two colons. *)
Theorem encrypt_envelope_format
  (C : NodeCrypto) (L : NodeCryptoLaws C) env text e :
  key_present env = true -> falsy text = false ->
  exists iv tag ct e',
    randomBytes IV_LENGTH e = (iv, e')
    /\ encrypt env text e
       = Ok (toString_hex iv ++ lit ":" ++ toString_hex tag ++ lit ":"
             ++ toString_hex ct, e')
    /\ split 58 (toString_hex iv ++ lit ":" ++ toString_hex tag ++ lit ":"
                 ++ toString_hex ct)
       = [toString_hex iv; toString_hex tag; toString_hex ct]
    /\ length (toString_hex iv) = 32
    /\ length (toString_hex tag) = 32
    /\ length (toString_hex ct) = 2 * length (from_utf8 text)
    /\ forallb (fun c => is_lower_hex c || (c =? 58)%N)
         (toString_hex iv ++ lit ":" ++ toString_hex tag ++ lit ":"
          ++ toString_hex ct) = true.
Proof.
  intros Hk Ht. destruct (getEncryptionKey_present env Hk) as (pass & _ & Hkey).
  pose proof (randomBytes_length IV_LENGTH e) as Hiv.
  destruct (randomBytes IV_LENGTH e) as [iv e'] eqn:Er. cbn [fst] in Hiv.
  set (key := scryptSync (from_utf8 pass) (from_utf8 (lit "salt")) 32) in *.
  exists iv, (gcm_mac key iv (gcm_xor key iv 0 (from_utf8 text))),
    (gcm_xor key iv 0 (from_utf8 text)), e'.
  split; [reflexivity| ]. split.
  { unfold encrypt. rewrite Ht, Hkey. cbn [mbind result_bind bind]. rewrite Er.
    unfold createCipheriv. subst key.
    rewrite scryptSync_length, Hiv, known_ALGORITHM.
    cbn [IV_LENGTH negb Nat.eqb mbind result_bind bind cipher_update cipher_key
      cipher_iv cipher_produced length app getAuthTag cipher_final toString_hex
      flat_map].
    now rewrite app_nil_r. }
  split; [apply split_envelope; apply toString_hex_no_colon| ].
  rewrite !toString_hex_length, gcm_mac_length, gcm_xor_length, Hiv.
  split; [reflexivity| ]. split; [reflexivity| ]. split; [reflexivity| ].
  assert (Hhex : forall buf,
    forallb (fun c => is_lower_hex c || (c =? 58)%N) (toString_hex buf) = true).
  { intros buf. apply (forallb_weaken is_lower_hex); [ |apply toString_hex_lower].
    intros x ->. reflexivity. }
  now rewrite !forallb_app, !Hhex.
Qed.

Lemma encrypt_envelope_format_witness :
  exists iv tag ct e',
    randomBytes IV_LENGTH 7%nat = (iv, e')
    /\ encrypt sample_env (lit "sk-abc") 7%nat
       = Ok (toString_hex iv ++ lit ":" ++ toString_hex tag ++ lit ":"
             ++ toString_hex ct, e')
    /\ split 58 (toString_hex iv ++ lit ":" ++ toString_hex tag ++ lit ":"
                 ++ toString_hex ct)
       = [toString_hex iv; toString_hex tag; toString_hex ct]
    /\ length (toString_hex iv) = 32
    /\ length (toString_hex tag) = 32
    /\ length (toString_hex ct) = 2 * length (from_utf8 (lit "sk-abc"))
    /\ forallb (fun c => is_lower_hex c || (c =? 58)%N)
         (toString_hex iv ++ lit ":" ++ toString_hex tag ++ lit ":"
          ++ toString_hex ct) = true.
Proof.
  apply (encrypt_envelope_format sample_crypto sample_laws sample_env
           (lit "sk-abc") 7%nat); reflexivity.
Defined.

Lemma decrypt_well_formed_witness :
  well_formed (lit "sk-abc") = true.
Proof.
  apply (decrypt_well_formed sample_crypto sample_env
           (lit "07070707070707070707070707070707:0a000000000000000000000000000000:070959150c0b")).
  vm_compute. reflexivity.
Defined.

(** *** The passphrase in effect *)

Lemma getEncryptionKey_passphrase (C : NodeCrypto) env :
  getEncryptionKey env
  = match passphrase env with
    | Some key => Ok (scryptSync (from_utf8 key) (from_utf8 (lit "salt")) 32)
    | None => Throw (lit "ENCRYPTION_KEY or SESSION_SECRET must be set")
    end.
Proof.
  unfold getEncryptionKey, passphrase.
  destruct (js_or (ENCRYPTION_KEY env) (SESSION_SECRET env)) as [key| ];
    [ |reflexivity].
  now destruct (falsy key).
Qed.

Lemma passphrase_key_present env key :
  passphrase env = Some key -> key_present env = true.
Proof.
  unfold passphrase, key_present, js_or.
  destruct (ENCRYPTION_KEY env) as [[|c k]| ],
    (SESSION_SECRET env) as [[|d k']| ]; cbn; intros H;
    try discriminate H; reflexivity.
Qed.

Lemma encrypt_decrypt_ok
  (C : NodeCrypto) (L : NodeCryptoLaws C) env text e :
  key_present env = true -> falsy text = false -> well_formed text = true ->
  exists envelope e',
    encrypt env text e = Ok (envelope, e') /\ decrypt env envelope = Ok text.
Proof.
  intros Hp Ht Hw.
  destruct (encrypt_envelope env text e Hp Ht)
    as (k & iv & e' & Hk & Hlen & Hiv & Hen).
  eexists _, e'. split; [exact Hen| ].
  assert (Hodd := toString_hex_even (gcm_xor k iv 0 (from_utf8 text))).
  assert (Hiv' : from_hex (toString_hex iv) <> []).
  { rewrite from_hex_toString_hex. destruct iv; [discriminate Hiv|discriminate]. }
  assert (Hvalid : valid_tag_length
            (length (from_hex (toString_hex
               (gcm_mac k iv (gcm_xor k iv 0 (from_utf8 text)))))) = true)
    by now rewrite from_hex_toString_hex, gcm_mac_length.
  rewrite (decrypt_parts env k _ _ _ Hk Hlen (toString_hex_no_colon _)
             (toString_hex_no_colon _) (toString_hex_no_colon _)
             Hiv' Hvalid Hodd).
  rewrite !from_hex_toString_hex.
  rewrite firstn_all, gcm_xor_involutive, toString_utf8_from_utf8 by exact Hw.
  unfold buffer_eqb. now rewrite bool_decide_eq_true_2.
Qed.

(** X3: what was encrypted with a passphrase in one of the two variables is
    decrypted with the same passphrase in the other: only the first
    non-empty one of the two is read, and nothing else of the
    environment. *)
Theorem round_trip_across_environments
  (C : NodeCrypto) (L : NodeCryptoLaws C) env1 env2 key text e :
  passphrase env1 = Some key -> passphrase env2 = Some key ->
  falsy text = false -> well_formed text = true ->
  exists envelope e',
    encrypt env1 text e = Ok (envelope, e')
    /\ encrypt env2 text e = Ok (envelope, e')
    /\ decrypt env2 envelope = Ok text
    /\ forall s, decrypt env1 s = decrypt env2 s.
Proof.
  intros H1 H2 Ht Hw.
  assert (Hkeys : getEncryptionKey env1 = getEncryptionKey env2)
    by now rewrite !getEncryptionKey_passphrase, H1, H2.
  assert (Hdec : forall s, decrypt env1 s = decrypt env2 s).
  { intros s. unfold decrypt, decrypt_try. now rewrite Hkeys. }
  assert (Henc : encrypt env1 text e = encrypt env2 text e).
  { unfold encrypt. now rewrite Hkeys. }
  destruct (encrypt_decrypt_ok C L env1 text e
              (passphrase_key_present _ _ H1) Ht Hw) as (c & e' & Hen & Hde).
  exists c, e'. split; [exact Hen| ]. split; [now rewrite <- Henc| ].
  split; [now rewrite <- Hdec|exact Hdec].
Qed.

Lemma round_trip_across_environments_witness :
  exists envelope e',
    encrypt sample_env (lit "sk-abc") 7%nat = Ok (envelope, e')
    /\ encrypt {| ENCRYPTION_KEY := Some (lit "session-secret");
                  SESSION_SECRET := Some (lit "other") |}
         (lit "sk-abc") 7%nat = Ok (envelope, e')
    /\ decrypt {| ENCRYPTION_KEY := Some (lit "session-secret");
                  SESSION_SECRET := Some (lit "other") |} envelope
       = Ok (lit "sk-abc")
    /\ forall s,
         decrypt sample_env s
         = decrypt {| ENCRYPTION_KEY := Some (lit "session-secret");
                      SESSION_SECRET := Some (lit "other") |} s.
Proof.
  apply (round_trip_across_environments sample_crypto sample_laws sample_env
           {| ENCRYPTION_KEY := Some (lit "session-secret");
              SESSION_SECRET := Some (lit "other") |}
           (lit "session-secret")); reflexivity.
Defined.

(** *** Upper-case hexadecimal *)

Lemma hex_upper_val c : hex_val (hex_upper c) = hex_val c.
Proof.
  unfold hex_upper, hex_val, in_range.
  destruct (N.leb_spec 97 c), (N.leb_spec c 102); cbn [andb];
    repeat match goal with
      | |- context [(?a <=? ?b)%N] =>
          first [ replace (a <=? b)%N with true by (symmetry; apply N.leb_le; lia)
                | replace (a <=? b)%N with false by (symmetry; apply N.leb_gt; lia) ]
      end; cbn [andb]; try reflexivity.
  f_equal. lia.
Qed.

Lemma hex_upper_colon c : (hex_upper c =? 58)%N = (c =? 58)%N.
Proof.
  unfold hex_upper, in_range.
  destruct (N.leb_spec 97 c), (N.leb_spec c 102); cbn [andb]; try reflexivity.
  destruct (N.eqb_spec (c - 32) 58), (N.eqb_spec c 58); try reflexivity; lia.
Qed.

Lemma from_hex_upper_len n s :
  length s <= n -> from_hex (map hex_upper s) = from_hex s.
Proof.
  revert s. induction n as [|n IH]; intros [|c1 [|c2 rest]] Hlen;
    cbn [length] in Hlen; try reflexivity; try lia.
  cbn [map from_hex]. rewrite !hex_upper_val, IH by lia. reflexivity.
Qed.

Lemma from_hex_upper s : from_hex (map hex_upper s) = from_hex s.
Proof. apply (from_hex_upper_len (length s)). lia. Qed.

Lemma split_upper s :
  split 58 (map hex_upper s) = map (map hex_upper) (split 58 s).
Proof.
  induction s as [|c s IH]; [reflexivity| ].
  cbn [map split]. rewrite hex_upper_colon, IH.
  destruct (c =? 58)%N; [reflexivity| ].
  now destruct (split 58 s).
Qed.

(** X4: [decrypt] does not tell upper case from lower case in an envelope:
    writing any of its letters in upper case changes nothing of the
    result. *)
Theorem decrypt_ignores_hex_case (C : NodeCrypto) env s :
  decrypt env (map hex_upper s) = decrypt env s.
Proof.
  unfold decrypt.
  replace (falsy (map hex_upper s)) with (falsy s) by now destruct s.
  destruct (falsy s); [reflexivity| ]. f_equal.
  unfold decrypt_try. destruct (getEncryptionKey env) as [key| ];
    [ |reflexivity].
  cbn [mbind result_bind bind]. rewrite split_upper, length_map.
  unfold js_string in *.
  match goal with |- context [negb ?t] => destruct (negb t) end;
    [reflexivity| ].
  assert (Hnth : forall i, i < 3 ->
    nth i (map (map hex_upper) (split 58 s)) [] = map hex_upper (nth i (split 58 s) [])).
  { intros i Hi.
    exact (map_nth (map hex_upper) (split 58 s) [] i). }
  rewrite !Hnth by lia. rewrite !from_hex_upper.
  unfold decipher_update_hex. now rewrite from_hex_upper, length_map.
Qed.

Example decrypt_upper_case_envelope :
  decrypt sample_env
    (lit "07070707070707070707070707070707:0A000000000000000000000000000000:070959150C0B")
  = Ok (lit "sk-abc").
Proof. reflexivity. Qed.

(* ===================================================================== *)
(** ** Saving the settings: the response, and what is read back *)
(* ===================================================================== *)

Lemma save_settings_try_bind (C : NodeCrypto) env body existing
  (e : @entropy C) :
  save_settings_try env body existing e
  = '(k1, e1) ← chosen_key env (clearApiKey body) (airtableApiKey body)
                  (column_of existing row_airtableApiKey) e;
    '(k2, e2) ← chosen_key env (clearOpenaiKey body) (openaiApiKey body)
                  (column_of existing row_openaiApiKey) e1;
    let values :=
      {| set_webhookUrl := trimmed_or_null (webhookUrl body);
         set_airtableApiKey := k1;
         set_airtableBaseId := of_option (airtableBaseId body);
         set_airtableTableName := of_option (airtableTableName body);
         set_openaiApiKey := k2 |} in
    match existing with
    | Some _ => Ok (Update values, e2)
    | None => Ok (Insert values, e2)
    end.
Proof. reflexivity. Qed.

Lemma chosen_key_keeps (C : NodeCrypto) env clear submitted stored
  (e : @entropy C) :
  encrypts clear submitted = false ->
  chosen_key env clear submitted stored e
  = Ok (if clear then Null else stored, e).
Proof.
  unfold encrypts, chosen_key, keeps_stored, truthy.
  destruct clear; [reflexivity| ]. destruct submitted as [key| ]; [ |reflexivity].
  cbn [negb andb]. now destruct (falsy key), (startsWith key mask_prefix).
Qed.

Lemma chosen_key_encrypts (C : NodeCrypto) env clear submitted stored
  (e : @entropy C) :
  encrypts clear submitted = true ->
  exists key,
    submitted = Some key /\ falsy key = false
    /\ startsWith key mask_prefix = false
    /\ chosen_key env clear submitted stored e
       = '(c, e') ← encrypt env key e; Ok (Str c, e').
Proof.
  unfold encrypts, chosen_key, keeps_stored, truthy.
  destruct clear; [discriminate| ]. destruct submitted as [key| ]; [ |discriminate].
  cbn [negb andb].
  destruct (falsy key) eqn:Hf, (startsWith key mask_prefix) eqn:Hm;
    try discriminate.
  intros _. exists key. rewrite Hf, Hm. now cbn [negb andb].
Qed.

Lemma encrypt_without_key (C : NodeCrypto) env text (e : @entropy C) :
  key_present env = false -> falsy text = false ->
  encrypt env text e
  = Throw (lit "ENCRYPTION_KEY or SESSION_SECRET must be set").
Proof.
  intros Hk Ht. unfold encrypt.
  now rewrite Ht, (getEncryptionKey_absent env Hk).
Qed.

Lemma chosen_key_with_key (C : NodeCrypto) (L : NodeCryptoLaws C) env clear
  submitted stored (e : @entropy C) :
  key_present env = true ->
  exists v e', chosen_key env clear submitted stored e = Ok (v, e').
Proof.
  intros Hk. destruct (encrypts clear submitted) eqn:E.
  - destruct (chosen_key_encrypts C env clear submitted stored e E)
      as (key & _ & Hf & _ & ->).
    destruct (encrypt_envelope env key e Hk Hf) as (k & iv & e' & _ & _ & _ & ->).
    eexists _, e'. reflexivity.
  - rewrite (chosen_key_keeps C env clear submitted stored e E). eauto.
Qed.

Lemma chosen_key_without_key (C : NodeCrypto) env clear submitted stored
  (e : @entropy C) :
  key_present env = false -> encrypts clear submitted = true ->
  chosen_key env clear submitted stored e
  = Throw (lit "ENCRYPTION_KEY or SESSION_SECRET must be set").
Proof.
  intros Hk E.
  destruct (chosen_key_encrypts C env clear submitted stored e E)
    as (key & _ & Hf & _ & ->).
  now rewrite (encrypt_without_key C env key e Hk Hf).
Qed.

(** X5: for a body whose text properties are strings or absent, the save
    answers 500 without an effective write exactly when the query for the
    row fails, or a key is to be encrypted (submitted non-empty and
    unmasked, its clear flag unset) and no passphrase is configured, or
    the database refuses the write; in every other case it answers 200
    after one write, an update when the user has a row and an insert when
    there is none. *)
Theorem save_settings_status
  (C : NodeCrypto) (L : NodeCryptoLaws C) env body selected accepts
  (e : @entropy C) :
  match selected with
  | Throw _ => save_settings env body selected accepts e = (500%Z, None)
  | Ok existing =>
      if (encrypts (clearApiKey body) (airtableApiKey body)
          || encrypts (clearOpenaiKey body) (openaiApiKey body))
         && negb (key_present env)
      then save_settings env body selected accepts e = (500%Z, None)
      else exists values,
             let w := match existing with
                      | Some _ => Update values
                      | None => Insert values
                      end in
             save_settings env body selected accepts e
             = if accepts w then (200%Z, Some w) else (500%Z, None)
  end.
Proof.
  destruct selected as [existing|m]; [ |reflexivity].
  unfold save_settings. rewrite (save_settings_try_bind C).
  destruct (key_present env) eqn:Hk; cbn [negb].
  - rewrite andb_false_r.
    destruct (chosen_key_with_key C L env (clearApiKey body) (airtableApiKey body)
                (column_of existing row_airtableApiKey) e Hk) as (v1 & e1 & ->).
    cbn [mbind result_bind bind].
    destruct (chosen_key_with_key C L env (clearOpenaiKey body) (openaiApiKey body)
                (column_of existing row_openaiApiKey) e1 Hk) as (v2 & e2 & ->).
    cbn [mbind result_bind bind]. eexists. destruct existing; reflexivity.
  - rewrite andb_true_r.
    destruct (encrypts (clearApiKey body) (airtableApiKey body)) eqn:E1;
      cbn [orb].
    + now rewrite (chosen_key_without_key C _ _ _ _ _ Hk E1).
    + rewrite (chosen_key_keeps C _ _ _ _ _ E1). cbn [mbind result_bind bind].
      destruct (encrypts (clearOpenaiKey body) (openaiApiKey body)) eqn:E2.
      * now rewrite (chosen_key_without_key C _ _ _ _ _ Hk E2).
      * rewrite (chosen_key_keeps C _ _ _ _ _ E2). cbn [mbind result_bind bind].
        eexists. destruct existing; reflexivity.
Qed.

Lemma save_settings_status_witness :
  save_settings (C:=sample_crypto) empty_env sample_body
    (Ok (Some sample_row)) (fun _ => true) 7%nat
  = (500%Z, None).
Proof.
  exact (save_settings_status sample_crypto sample_laws empty_env sample_body
           (Ok (Some sample_row)) (fun _ => true) 7%nat).
Defined.

Lemma chosen_key_decrypts
  (C : NodeCrypto) (L : NodeCryptoLaws C) env clear submitted stored
  (e0 : @entropy C) v e1 key :
  key_present env = true ->
  chosen_key env clear submitted stored e0 = Ok (v, e1) ->
  submitted = Some key -> encrypts clear (Some key) = true ->
  well_formed key = true ->
  exists c, v = Str c /\ decrypt env c = Ok key.
Proof.
  intros Hk Hch -> E Hw.
  destruct (chosen_key_encrypts C env clear (Some key) stored e0 E)
    as (key' & [= <-] & Hf & _ & Heq).
  rewrite Heq in Hch.
  destruct (encrypt_decrypt_ok C L env key e0 Hk Hf Hw)
    as (c & e2 & Hen & Hde).
  rewrite Hen in Hch. cbn [mbind result_bind bind] in Hch.
  injection Hch as <- <-. now exists c.
Qed.

(** With a passphrase the save succeeds; what it writes. *)
Lemma save_settings_try_written
  (C : NodeCrypto) (L : NodeCryptoLaws C) env body existing (e : @entropy C) :
  key_present env = true ->
  exists w e1 e',
    save_settings_try env body existing e = Ok (w, e')
    /\ chosen_key env (clearApiKey body) (airtableApiKey body)
         (column_of existing row_airtableApiKey) e
       = Ok (set_airtableApiKey (written w), e1)
    /\ chosen_key env (clearOpenaiKey body) (openaiApiKey body)
         (column_of existing row_openaiApiKey) e1
       = Ok (set_openaiApiKey (written w), e')
    /\ set_webhookUrl (written w) = trimmed_or_null (webhookUrl body)
    /\ set_airtableBaseId (written w) = of_option (airtableBaseId body)
    /\ set_airtableTableName (written w) = of_option (airtableTableName body).
Proof.
  intros Hk. rewrite (save_settings_try_bind C).
  destruct (chosen_key_with_key C L env (clearApiKey body) (airtableApiKey body)
              (column_of existing row_airtableApiKey) e Hk) as (v1 & e1 & H1).
  destruct (chosen_key_with_key C L env (clearOpenaiKey body) (openaiApiKey body)
              (column_of existing row_openaiApiKey) e1 Hk) as (v2 & e2 & H2).
  rewrite H1. cbn [mbind result_bind bind]. rewrite H2.
  cbn [mbind result_bind bind].
  destruct existing; eexists _, e1, e2; (split; [reflexivity| ]);
    cbn [written set_airtableApiKey set_openaiApiKey set_webhookUrl
      set_airtableBaseId set_airtableTableName];
    repeat split; assumption.
Qed.

(** X6: a key that is saved is the key that [decrypt] later gives back:
    when a passphrase is configured and a non-empty, unmasked key (of
    well-formed text) is submitted with its clear flag unset, the save
    succeeds and the column receives an envelope that decrypts, under the
    same environment, to the submitted key.  This holds for each of the
    two key columns. *)
Theorem saved_key_decrypts
  (C : NodeCrypto) (L : NodeCryptoLaws C) env body existing
  (e : @entropy C) :
  key_present env = true ->
  exists w e',
    save_settings_try env body existing e = Ok (w, e')
    /\ (forall key,
          airtableApiKey body = Some key ->
          encrypts (clearApiKey body) (Some key) = true ->
          well_formed key = true ->
          exists c,
            set_airtableApiKey (written w) = Str c /\ decrypt env c = Ok key)
    /\ (forall key,
          openaiApiKey body = Some key ->
          encrypts (clearOpenaiKey body) (Some key) = true ->
          well_formed key = true ->
          exists c,
            set_openaiApiKey (written w) = Str c /\ decrypt env c = Ok key).
Proof.
  intros Hk.
  destruct (save_settings_try_written C L env body existing e Hk)
    as (w & e1 & e' & Hsave & H1 & H2 & _).
  exists w, e'. split; [exact Hsave| ].
  split; intros key Hs E Hw.
  - exact (chosen_key_decrypts C L _ _ _ _ _ _ _ key Hk H1 Hs E Hw).
  - exact (chosen_key_decrypts C L _ _ _ _ _ _ _ key Hk H2 Hs E Hw).
Qed.

Lemma saved_key_decrypts_witness :
  exists w e',
    save_settings_try (C:=sample_crypto) sample_env sample_body
      (Some sample_row) 7%nat = Ok (w, e')
    /\ (forall key,
          airtableApiKey sample_body = Some key ->
          encrypts (clearApiKey sample_body) (Some key) = true ->
          well_formed key = true ->
          exists c,
            set_airtableApiKey (written w) = Str c
            /\ decrypt sample_env c = Ok key)
    /\ (forall key,
          openaiApiKey sample_body = Some key ->
          encrypts (clearOpenaiKey sample_body) (Some key) = true ->
          well_formed key = true ->
          exists c,
            set_openaiApiKey (written w) = Str c
            /\ decrypt sample_env c = Ok key).
Proof.
  apply (saved_key_decrypts sample_crypto sample_laws sample_env sample_body
           (Some sample_row) 7%nat).
  reflexivity.
Defined.

(** *** What the page shows, sent back unchanged *)

Lemma mask_keeps_stored s :
  keeps_stored (Some (if truthy s then mask else [])) = true.
Proof. now destruct (truthy s). Qed.

Lemma column_after_column_of existing column :
  column_after (column_of existing column)
    (match existing with Some row => column row | None => None end)
  = match existing with Some row => column row | None => None end.
Proof.
  unfold column_of. destruct existing as [row| ]; [ |reflexivity].
  now destruct (column row).
Qed.

(** X7: saving the form exactly as [GET /api/settings] filled it leaves
    both stored keys as they are: the mask the page shows in place of a
    key is recognised by the save, which succeeds without a passphrase,
    draws no random bytes and writes each key column back unchanged. *)
Theorem settings_mask_round_trip
  (C : NodeCrypto) env existing (e : @entropy C) :
  exists w,
    save_settings_try env (page_body (get_settings existing)) existing e
    = Ok (w, e)
    /\ row_airtableApiKey (row_after w existing)
       = match existing with
         | Some row => row_airtableApiKey row
         | None => None
         end
    /\ row_openaiApiKey (row_after w existing)
       = match existing with
         | Some row => row_openaiApiKey row
         | None => None
         end.
Proof.
  rewrite (save_settings_try_bind C).
  assert (Hor : forall s : bool,
    or_default (if s then mask else []) [] = if s then mask else [])
    by (intros [|]; reflexivity).
  assert (Hkeep : forall s : bool,
    encrypts false (Some (or_default (if s then mask else []) [])) = false).
  { intros s. rewrite Hor. now destruct s. }
  cbn [page_body get_settings clearApiKey clearOpenaiKey airtableApiKey
    openaiApiKey view_airtableApiKey view_openaiApiKey].
  rewrite chosen_key_keeps by apply Hkeep. cbn [mbind result_bind bind].
  rewrite chosen_key_keeps by apply Hkeep. cbn [mbind result_bind bind].
  destruct existing as [row| ]; eexists; (split; [reflexivity| ]);
    cbn [row_after written set_airtableApiKey set_openaiApiKey
      row_airtableApiKey row_openaiApiKey column_of column_after];
    [ |split; reflexivity].
  now destruct (row_airtableApiKey row), (row_openaiApiKey row).
Qed.

(* ===================================================================== *)
(** ** The saved webhook URL *)
(* ===================================================================== *)

Lemma trim_start_idempotent s : trim_start (trim_start s) = trim_start s.
Proof.
  induction s as [|c s IH]; [reflexivity| ]. cbn [trim_start].
  destruct (is_white_space c) eqn:E; [exact IH| ].
  cbn [trim_start]. now rewrite E.
Qed.

Lemma trim_start_suffix s : exists pre, s = pre ++ trim_start s.
Proof.
  induction s as [|c s [pre IH]]; [now exists []| ]. cbn [trim_start].
  destruct (is_white_space c); [ |now exists []].
  exists (c :: pre). cbn [app]. now rewrite <- IH.
Qed.

Lemma trim_start_head s c rest :
  trim_start s = c :: rest -> is_white_space c = false.
Proof.
  induction s as [|d s IH]; [discriminate| ]. cbn [trim_start].
  destruct (is_white_space d) eqn:E; [exact IH| ]. now intros [= <- _].
Qed.

Lemma trim_no_leading s : trim_start (trim s) = trim s.
Proof.
  unfold trim.
  destruct (trim_start_suffix (rev (trim_start s))) as [pre Hpre].
  set (u := trim_start (rev (trim_start s))) in *.
  apply (f_equal (@rev N)) in Hpre. rewrite rev_involutive, rev_app_distr in Hpre.
  destruct (rev u) as [|c r] eqn:Er; [reflexivity| ].
  cbn [app] in Hpre. apply trim_start_head in Hpre.
  cbn [trim_start]. now rewrite Hpre.
Qed.

Lemma trim_no_trailing s : trim_start (rev (trim s)) = rev (trim s).
Proof. unfold trim. rewrite rev_involutive. apply trim_start_idempotent. Qed.

Lemma white_space_not_surrogate c :
  is_white_space c = true ->
  is_high_surrogate c = false /\ is_low_surrogate c = false
  /\ (c <? 65536)%N = true.
Proof.
  unfold is_white_space, in_range. cbn [existsb]. intros H.
  apply orb_true_iff in H. destruct H as [H|H].
  - repeat (apply orb_true_iff in H; destruct H as [H|H]);
      try discriminate H; apply N.eqb_eq in H; subst c;
      repeat split; reflexivity.
  - apply andb_true_iff in H. destruct H as [_ H]. apply N.leb_le in H.
    unfold is_high_surrogate, is_low_surrogate.
    replace (0xD800 <=? c)%N with false by (symmetry; apply N.leb_gt; lia).
    replace (0xDC00 <=? c)%N with false by (symmetry; apply N.leb_gt; lia).
    cbn [andb]. split; [reflexivity| ]. split; [reflexivity| ].
    apply N.ltb_lt. lia.
Qed.

Lemma well_formed_trim_start s :
  well_formed s = true -> well_formed (trim_start s) = true.
Proof.
  induction s as [|c s IH]; [reflexivity| ]. cbn [trim_start].
  destruct (is_white_space c) eqn:E; [ |exact id].
  destruct (white_space_not_surrogate c E) as (Hh & Hl & Hlt).
  cbn [well_formed]. rewrite Hh, Hl, Hlt. cbn [negb andb]. exact IH.
Qed.

Lemma trim_start_split s :
  exists pre, s = pre ++ trim_start s /\ forallb is_white_space pre = true.
Proof.
  induction s as [|c s (pre & IH & Hpre)]; [now exists []| ].
  cbn [trim_start]. destruct (is_white_space c) eqn:E; [ |now exists []].
  exists (c :: pre). cbn [app forallb]. rewrite <- IH, E, Hpre. now split.
Qed.

Lemma well_formed_before_white_len n l ws :
  length l <= n -> forallb is_white_space ws = true ->
  well_formed (l ++ ws) = true -> well_formed l = true.
Proof.
  revert l. induction n as [|n IH]; intros [|u rest] Hlen Hws;
    cbn [length] in Hlen; try lia; try reflexivity.
  cbn [app well_formed]. destruct (is_high_surrogate u).
  - destruct rest as [|v rest'].
    + cbn [app]. destruct ws as [|v ws']; [discriminate| ].
      cbn [forallb] in Hws. apply andb_true_iff in Hws. destruct Hws as [Hv _].
      destruct (white_space_not_surrogate v Hv) as (_ & -> & _). discriminate.
    + cbn [app]. intros H. apply andb_true_iff in H. destruct H as [-> H].
      cbn [andb]. apply (IH rest'); [cbn [length] in Hlen; lia|exact Hws|exact H].
  - intros H. apply andb_true_iff in H. destruct H as [-> H]. cbn [andb].
    apply (IH rest); [lia|exact Hws|exact H].
Qed.

Lemma well_formed_trim s : well_formed s = true -> well_formed (trim s) = true.
Proof.
  intros H. apply well_formed_trim_start in H. unfold trim.
  destruct (trim_start_split (rev (trim_start s))) as (pre & Hsplit & Hpre).
  apply (f_equal (@rev N)) in Hsplit.
  rewrite rev_involutive, rev_app_distr in Hsplit. rewrite Hsplit in H.
  apply (well_formed_before_white_len _ _ (rev pre) (Nat.le_refl _));
    [ |exact H].
  apply forallb_forall. intros x Hx. apply in_rev in Hx.
  now apply (proj1 (forallb_forall _ _) Hpre).
Qed.

(** X8: what a successful save leaves as the user's webhook URL, for a
    submitted URL of well-formed text.  A URL that is absent or holds only
    white space unsets it, and the upload is then refused with status 400
    before the body is read; any other URL is stored with the white space
    at both ends removed, so a stored URL is never empty and neither
    begins nor ends with white space. *)
Theorem saved_webhook_normalised
  (C : NodeCrypto) env body existing (e : @entropy C) w e' :
  save_settings_try env body existing e = Ok (w, e') ->
  (forall s, webhookUrl body = Some s -> well_formed s = true) ->
  let saved := getUserWebhookUrl (Some (row_after w existing)) in
  saved
  = match webhookUrl body with
    | Some s => if falsy (trim s) then None else Some (trim s)
    | None => None
    end
  /\ (forall url,
        saved = Some url ->
        falsy url = false
        /\ trim_start url = url /\ trim_start (rev url) = rev url)
  /\ (forall rt req w0,
        webhook rt = saved -> saved = None ->
        upload_video rt req w0
        = respond 400
            (ErrorBody (lit "Webhook URL not configured. Please add your n8n webhook URL in Settings."))
            w0).
Proof.
  intros H Hwf saved.
  assert (Hset : set_webhookUrl (written w) = trimmed_or_null (webhookUrl body)).
  { rewrite (save_settings_try_bind C) in H.
    destruct (chosen_key _ _ _ _ _) as [[k1 e1]| ];
      cbn [mbind result_bind bind] in H; [ |discriminate H].
    destruct (chosen_key _ _ _ _ _) as [[k2 e2]| ];
      cbn [mbind result_bind bind] in H; [ |discriminate H].
    destruct existing; injection H as <- <-; reflexivity. }
  assert (Hsaved : saved
    = match webhookUrl body with
      | Some s => if falsy (trim s) then None else Some (trim s)
      | None => None
      end).
  { subst saved. unfold getUserWebhookUrl, column_of, row_after.
    cbn [row_webhookUrl]. rewrite Hset. unfold trimmed_or_null.
    destruct (webhookUrl body) as [s| ]; cbn [text_after]; [ |reflexivity].
    destruct (falsy (trim s)) eqn:Ef; cbn [text_after]; [reflexivity| ].
    unfold stored_text.
    rewrite (toString_utf8_from_utf8 (trim s))
      by (apply well_formed_trim, Hwf; reflexivity).
    now rewrite Ef. }
  split; [exact Hsaved| ]. split.
  - intros url Hurl. rewrite Hsaved in Hurl.
    destruct (webhookUrl body) as [s| ]; [ |discriminate Hurl].
    destruct (falsy (trim s)) eqn:Ef; [discriminate Hurl| ].
    injection Hurl as <-. split; [exact Ef| ].
    split; [apply trim_no_leading|apply trim_no_trailing].
  - intros rt req w0 Hrt Hnone. unfold upload_video. now rewrite Hrt, Hnone.
Qed.

Lemma saved_webhook_normalised_witness :
  let saved :=
    getUserWebhookUrl
      (Some (row_after
               (Update
                  {| set_webhookUrl := Str (lit "https://n8n.example/webhook/clips");
                     set_airtableApiKey := Str (lit "0a0b:0c0d:0e0f");
                     set_airtableBaseId := Str (lit "appBase");
                     set_airtableTableName := Str (lit "Clips");
                     set_openaiApiKey :=
                       Str (lit "07070707070707070707070707070707:16000000000000000000000000000000:0709591a0b1f") |})
               (Some sample_row))) in
  saved
  = match webhookUrl sample_body with
    | Some s => if falsy (trim s) then None else Some (trim s)
    | None => None
    end
  /\ (forall url,
        saved = Some url ->
        falsy url = false
        /\ trim_start url = url /\ trim_start (rev url) = rev url)
  /\ (forall rt req w0,
        webhook rt = saved -> saved = None ->
        upload_video rt req w0
        = respond 400
            (ErrorBody (lit "Webhook URL not configured. Please add your n8n webhook URL in Settings."))
            w0).
Proof.
  apply (saved_webhook_normalised sample_crypto sample_env sample_body
           (Some sample_row) 7%nat _ 8%nat eq_refl).
  intros s [= <-]. reflexivity.
Defined.

(* ===================================================================== *)
(** ** The upload relay: the answers *)
(* ===================================================================== *)

Lemma last_field_fields_app name ps1 ps2 :
  last_field name (ps1 ++ ps2)
  = match last_field name ps2 with
    | Some v => Some v
    | None => last_field name ps1
    end.
Proof.
  induction ps2 as [|p ps2 IH] using rev_ind.
  - now rewrite app_nil_r.
  - rewrite app_assoc, !last_field_snoc, IH.
    destruct p as [n v| ]; [ |reflexivity].
    now destruct (js_string_eqb n name).
Qed.

Lemma last_filename_fields ps :
  forallb is_field ps = true -> last_filename ps = None.
Proof.
  induction ps as [|p ps IH] using rev_ind; [reflexivity| ].
  rewrite forallb_app, last_filename_snoc. intros H.
  apply andb_true_iff in H. destruct H as [H1 H2].
  destruct p; [now apply IH|discriminate H2].
Qed.

Lemma last_filename_one_file fields1 name filename size fields2 :
  forallb is_field fields2 = true ->
  last_filename (fields1 ++ File name filename size :: fields2) = Some filename.
Proof.
  induction fields2 as [|p ps IH] using rev_ind; intros H.
  - apply last_filename_snoc.
  - rewrite forallb_app in H. apply andb_true_iff in H. destruct H as [H1 H2].
    change (File name filename size :: ps ++ [p])
      with ((File name filename size :: ps) ++ [p]).
    rewrite app_assoc, last_filename_snoc.
    destruct p; [now apply IH|discriminate H2].
Qed.

(** The variables and the world when the parts of a body with one file
    part have been handled. *)
Lemma one_file_state rt url fields1 name filename size fields2 w :
  forallb is_field fields1 = true -> forallb is_field fields2 = true ->
  let ps := fields1 ++ File name filename size :: fields2 in
  let path :=
    path_join (tmpdir rt)
      (lit "upload-" ++ unique_id rt (drawn w) ++ lit "-" ++ filename) in
  let sw := run_events rt url (part_events ps) (initial_session, w) in
  tempFilePath (fst sw) = Some path
  /\ fileReceived (fst sw) = true
  /\ fileStream (fst sw) = Some {| destroyed := (fileSize <=? size)%N |}
  /\ snd sw
     = {| files := if (fileSize <=? size)%N
                   then ({[path]} ∪ files w) ∖ {[path]}
                   else {[path]} ∪ files w;
          drawn := S (drawn w); responses := responses w; posts := posts w |}.
Proof.
  intros Hf1 Hf2 ps path sw. subst sw ps.
  rewrite part_events_app. cbn [part_events].
  change (OnFile name filename
            :: (if (fileSize <=? size)%N then [OnLimit] else [])
               ++ part_events fields2)
    with ([OnFile name filename]
            ++ (if (fileSize <=? size)%N then [OnLimit] else [])
            ++ part_events fields2).
  rewrite !run_events_app.
  destruct (run_fields_frame rt url fields1 initial_session w Hf1)
    as (Hw1 & _ & _ & _).
  destruct (run_events rt url (part_events fields1) (initial_session, w))
    as [s1 w1]. cbn [snd] in Hw1. subst w1.
  set (sw2 := run_events rt url
                (if (fileSize <=? size)%N then [OnLimit] else [])
                (run_events rt url [OnFile name filename] (s1, w))).
  assert (H2 : tempFilePath (fst sw2) = Some path
    /\ fileReceived (fst sw2) = true
    /\ fileStream (fst sw2) = Some {| destroyed := (fileSize <=? size)%N |}
    /\ snd sw2
       = {| files := if (fileSize <=? size)%N
                     then ({[path]} ∪ files w) ∖ {[path]}
                     else {[path]} ∪ files w;
            drawn := S (drawn w); responses := responses w;
            posts := posts w |}).
  { subst sw2. destruct (fileSize <=? size)%N; [ |now repeat split].
    cbn [run_events fold_left handle on_file on_limit fst snd tempFilePath
      fileStream fileReceived].
    fold path. unfold unlink_if_exists. cbn [files drawn responses posts].
    pose proof (path_join_truthy (tmpdir rt)
      (lit "upload-" ++ unique_id rt (drawn w) ++ lit "-" ++ filename)) as Ht.
    fold path in Ht. rewrite Ht.
    rewrite bool_decide_eq_true_2 by set_solver. now repeat split. }
  clearbody sw2. destruct sw2 as [s2 w2]. cbn [fst snd] in H2.
  destruct H2 as (Hp & Hr & Hs & Hw2).
  destruct (run_fields_frame rt url fields2 s2 w2 Hf2) as (Hw3 & Hp3 & Hs3 & Hr3).
  destruct (run_events rt url (part_events fields2) (s2, w2)) as [s3 w3].
  cbn [fst snd] in *. subst w3. now rewrite Hp3, Hs3, Hr3.
Qed.

(** X11: a multipart body without any file part is answered 400
    ["No file uploaded"] when it parses to its end, and 500
    ["Upload failed"] when the parser fails on it; nothing else changes:
    no file is created and nothing is sent to the webhook. *)
Theorem upload_without_file rt url req w :
  webhook rt = Some url -> falsy url = false -> multipart req = true ->
  forallb is_field (parts req) = true ->
  upload_video rt req w
  = match body_ends req with
    | Complete => respond 400 (ErrorBody (lit "No file uploaded")) w
    | Malformed => respond 500 (ErrorBody (lit "Upload failed")) w
    end.
Proof.
  intros Hurl Hu Hm Hf. unfold upload_video. rewrite Hurl, Hu, Hm. cbn [negb].
  unfold request_events.
  rewrite end_events_no_limit by now apply fields_reach_no_limit.
  rewrite run_events_app.
  destruct (run_fields_frame rt url (parts req) initial_session w Hf)
    as (Hw & Hp & _ & _).
  destruct (run_events rt url (part_events (parts req)) (initial_session, w))
    as [s1 w1]. cbn [fst snd] in Hw, Hp. subst w1.
  destruct (body_ends req);
    cbn [end_event run_events fold_left handle on_finish on_error];
    rewrite Hp; reflexivity.
Qed.

Lemma upload_without_file_witness :
  upload_video sample_runtime
    {| multipart := true;
       parts := [Field (lit "clip_size") (lit "1920x1080");
                 Field (lit "clip_duration") (lit "3")];
       body_ends := Complete |} empty_world
  = respond 400 (ErrorBody (lit "No file uploaded")) empty_world.
Proof.
  apply (upload_without_file sample_runtime
           (lit "https://n8n.example/webhook/clips")); reflexivity.
Defined.


Lemma unlink_created (path : js_string) (fs : gset js_string) :
  ({[path]} ∪ fs) ∖ {[path]} = fs ∖ {[path]}.
Proof. set_solver. Qed.

Lemma unlink_files (path : js_string) w :
  truthy path = true ->
  files (unlink_if_exists (Some path) w) = files w ∖ {[path]}.
Proof.
  intros Ht. unfold unlink_if_exists. rewrite Ht. cbn [andb].
  destruct (bool_decide_reflect (path ∈ files w)); [reflexivity| ].
  set_solver.
Qed.



(** X10: a body with one file part below the limit and non-empty
    [clip_size] and [clip_duration], when the write stream's ["finish"] is
    heard: the handler builds the form with the type, the file name, the
    two clip settings as they came, a count and the file, and calls
    [fetch] once; the body of that request is the text
    ["[object FormData]"], and the caller gets the destination's answer to
    it: 200 with its body, or a default message, when the status is 2xx,
    its own status with its body as the error otherwise, and 500 when the
    request or the reading of the body fails.  The temporary file is gone
    in every one of these cases. *)
Theorem upload_relays_answer
  rt url req w fields1 name filename size fields2 :
  webhook rt = Some url -> falsy url = false -> multipart req = true ->
  finish_heard rt = true ->
  body_ends req = Complete ->
  parts req = fields1 ++ File name filename size :: fields2 ->
  forallb is_field fields1 = true -> forallb is_field fields2 = true ->
  (size < fileSize)%N ->
  falsy (default [] (last_field (lit "clip_size") (parts req))) = false ->
  falsy (default [] (last_field (lit "clip_duration") (parts req))) = false ->
  let path :=
    path_join (tmpdir rt)
      (lit "upload-" ++ unique_id rt (drawn w) ++ lit "-" ++ filename) in
  let after := upload_video rt req w in
  (exists count,
     posts after
     = posts w
       ++ [(url,
            [FormField (lit "video_type") (lit "mp4");
             FormField (lit "file_name") filename;
             FormField (lit "clip_size")
               (default [] (last_field (lit "clip_size") (parts req)));
             FormField (lit "clip_duration")
               (default [] (last_field (lit "clip_duration") (parts req)));
             FormField (lit "clip_count") count;
             FormFile (lit "file") path filename (lit "video/mp4")])])
  /\ responses after
     = responses w ++ [relayed (fetch rt url (lit "[object FormData]"))]
  /\ files after = files w ∖ {[path]}.
Proof.
  intros Hurl Hu Hm Hheard He Hparts Hf1 Hf2 Hsize Hcs0 Hcd0 path after.
  subst after.
  unfold upload_video. rewrite Hurl, Hu, Hm. cbn [negb].
  unfold request_events. rewrite end_events_no_limit
    by (rewrite Hparts; now apply one_small_file_no_limit).
  rewrite run_events_app, He.
  destruct (session_after_parts rt url (parts req) w) as (Hfn & Hcs & Hcd & _).
  rewrite Hparts in Hfn.
  rewrite (last_filename_one_file _ _ _ _ _ Hf2) in Hfn. cbn [default] in Hfn.
  rewrite Hparts in Hcs, Hcd, Hcs0, Hcd0 |- *.
  destruct (one_file_state rt url fields1 name filename size fields2 w Hf1 Hf2)
    as (Hp & Hr & Hs & Hw).
  fold path in Hp, Hw.
  replace (fileSize <=? size)%N with false in Hs, Hw
    by (symmetry; apply N.leb_gt; lia).
  destruct (run_events rt url
              (part_events (fields1 ++ File name filename size :: fields2))
              (initial_session, w)) as [s1 w1].
  cbn [fst snd] in *.
  cbn [end_event run_events fold_left handle on_finish].
  rewrite Hp, Hr, Hcs, Hcd, Hcs0, Hcd0.
  replace (falsy path) with false
    by (symmetry; apply negb_true_iff, path_join_truthy).
  unfold stream_finishes. rewrite Hs, Hheard. cbn [negb orb andb destroyed].
  unfold webhook_form, form_toString. rewrite Hfn, Hcs, Hcd.
  subst w1. unfold relayed.
  destruct (fetch rt url (lit "[object FormData]")) as [m|status [body|m]];
    cbn [snd].
  - rewrite responses_respond, posts_respond, files_respond, unlink_responses,
      unlink_posts, unlink_files by apply path_join_truthy.
    cbn [responses posts files].
    split; [eexists; reflexivity| ]. split; [reflexivity|apply unlink_created].
  - destruct (response_ok status); cbn [negb snd];
      rewrite responses_respond, posts_respond, files_respond, unlink_responses,
        unlink_posts, unlink_files by apply path_join_truthy;
      cbn [responses posts files];
      (split; [eexists; reflexivity| ];
       split; [reflexivity|apply unlink_created]).
  - rewrite responses_respond, posts_respond, files_respond, !unlink_responses,
      !unlink_posts, !unlink_files by apply path_join_truthy.
    cbn [responses posts files].
    split; [eexists; reflexivity| ]. split; [reflexivity| ].
    rewrite unlink_created. set_solver.
Qed.

Lemma upload_relays_answer_witness :
  let req := page_request (10 * MiB) (lit "2") in
  let path :=
    path_join (tmpdir sample_runtime)
      (lit "upload-" ++ unique_id sample_runtime (drawn empty_world)
       ++ lit "-" ++ lit "talk.mp4") in
  let after := upload_video sample_runtime req empty_world in
  (exists count,
     posts after
     = posts empty_world
       ++ [(lit "https://n8n.example/webhook/clips",
            [FormField (lit "video_type") (lit "mp4");
             FormField (lit "file_name") (lit "talk.mp4");
             FormField (lit "clip_size")
               (default [] (last_field (lit "clip_size") (parts req)));
             FormField (lit "clip_duration")
               (default [] (last_field (lit "clip_duration") (parts req)));
             FormField (lit "clip_count") count;
             FormFile (lit "file") path (lit "talk.mp4") (lit "video/mp4")])])
  /\ responses after
     = responses empty_world
       ++ [relayed (fetch sample_runtime
                      (lit "https://n8n.example/webhook/clips")
                      (lit "[object FormData]"))]
  /\ files after = files empty_world ∖ {[path]}.
Proof.
  apply (upload_relays_answer sample_runtime
           (lit "https://n8n.example/webhook/clips")
           (page_request (10 * MiB) (lit "2")) empty_world
           [] (lit "file") (lit "talk.mp4") (10 * MiB)
           [Field (lit "clip_size") (lit "1920x1080");
            Field (lit "clip_duration") (lit "3");
            Field (lit "clip_count") (lit "2")]); reflexivity.
Defined.

(* ===================================================================== *)
(** ** The upload relay: more than one file part *)
(* ===================================================================== *)

Lemma single_small_file_cleaned_up_witness :
  let path :=
    path_join (tmpdir sample_runtime)
      (lit "upload-" ++ unique_id sample_runtime (drawn empty_world)
       ++ lit "-" ++ lit "talk.mp4") in
  let after :=
    upload_video sample_runtime (page_request (10 * MiB) (lit "2"))
      empty_world in
  (path ∉ files after)
  /\ length (responses after) = S (length (responses empty_world)).
Proof.
  apply (single_small_file_cleaned_up sample_runtime
           (lit "https://n8n.example/webhook/clips")
           (page_request (10 * MiB) (lit "2")) empty_world
           [] (lit "file") (lit "talk.mp4") (10 * MiB)
           [Field (lit "clip_size") (lit "1920x1080");
            Field (lit "clip_duration") (lit "3");
            Field (lit "clip_count") (lit "2")]);
    first [reflexivity | vm_compute; reflexivity].
Defined.






(* ===================================================================== *)
(** ** The clip count: every text, and every decimal *)
(* ===================================================================== *)

Lemma on_field_clip_count value s :
  clipCount (on_field (lit "clip_count") value s)
  = number_or (parseInt value) 1.
Proof.
  unfold on_field.
  replace (js_string_eqb (lit "clip_count") (lit "clip_size")) with false
    by reflexivity.
  replace (js_string_eqb (lit "clip_count") (lit "clip_duration")) with false
    by reflexivity.
  replace (js_string_eqb (lit "clip_count") (lit "clip_count")) with true
    by reflexivity.
  reflexivity.
Qed.

(** X13: whatever text comes as [clip_count], the count the handler keeps
    is never zero, and it is at least one unless the text, after leading
    white space, begins with a minus sign. *)
Theorem clip_count_sign value s :
  let k := clipCount (on_field (lit "clip_count") value s) in
  (1 <= k)%Z
  \/ ((k < 0)%Z /\ exists rest, trim_start value = 45%N :: rest).
Proof.
  intros k. subst k. rewrite on_field_clip_count.
  destruct (parseInt value) as [|z] eqn:E; cbn [number_or]; [left; lia| ].
  destruct (Z.eqb_spec z 0) as [->|Hz]; [left; lia| ].
  destruct (Z.lt_ge_cases z 0) as [Hneg|Hpos]; [ |left; lia].
  right. split; [exact Hneg| ]. exact (parseInt_negative value z E Hneg).
Qed.

Lemma parseInt_minus_digits s :
  Forall (fun c => (48 <= c <= 57)%N) s -> s <> [] ->
  parseInt (45%N :: s)
  = match digits_value 10 None s with
    | Some n => Int (- Z.of_N n)
    | None => NaN
    end.
Proof.
  intros Hs Hne. unfold parseInt.
  replace (trim_start (45%N :: s)) with (45%N :: s) by reflexivity.
  cbv beta iota zeta.
  destruct s as [|c rest]; [contradiction| ].
  apply Forall_cons in Hs. destruct Hs as [Hc Hrest].
  match goal with
  | |- (let '(_, _) := ?prefix in _) = _ =>
      assert (Hprefix : prefix = (10%N, c :: rest));
      [ | rewrite Hprefix; reflexivity ]
  end.
  destruct rest as [|x rest0].
  - destruct c as [|p]; [reflexivity| ].
    do 6 (try destruct p as [p|p| ]); reflexivity.
  - apply Forall_cons in Hrest. destruct Hrest as [Hx _].
    replace ((x =? 120) || (x =? 88))%N with false
      by (symmetry; apply orb_false_iff; split; apply N.eqb_neq; lia).
    destruct c as [|p]; [reflexivity| ].
    do 6 (try destruct p as [p|p| ]); reflexivity.
Qed.

Lemma parseInt_number_toString_all z : parseInt (number_toString z) = Int z.
Proof.
  destruct z as [|p|p].
  - reflexivity.
  - apply parseInt_number_toString. lia.
  - unfold number_toString. cbn [Z.to_int].
    pose proof (Unsigned.to_uint_nonnil p) as Hnil.
    rewrite parseInt_minus_digits.
    + destruct (digits_value_uint (Pos.to_uint p) Hnil) as [-> _].
      now rewrite Unsigned.of_to.
    + apply uint_units_digits.
    + destruct (Pos.to_uint p); [contradiction|discriminate..].
Qed.

(** X14: a count written as a decimal integer (in the range in which a
    JavaScript number counts exactly) is forwarded as the same text,
    negative ones included; only [0] is replaced, by [1]. *)
Theorem decimal_clip_count_forwarded z s :
  (- 2 ^ 53 < z < 2 ^ 53)%Z ->
  number_toString
    (clipCount (on_field (lit "clip_count") (number_toString z) s))
  = if (z =? 0)%Z then lit "1" else number_toString z.
Proof.
  intros _. rewrite on_field_clip_count, parseInt_number_toString_all.
  cbn [number_or]. now destruct (z =? 0)%Z.
Qed.

Lemma decimal_clip_count_forwarded_witness :
  number_toString
    (clipCount
       (on_field (lit "clip_count") (number_toString (-12)) initial_session))
  = if (-12 =? 0)%Z then lit "1" else number_toString (-12).
Proof.
  apply (decimal_clip_count_forwarded (-12) initial_session). lia.
Defined.

(* ===================================================================== *)
(** ** Deleting a clip: what is asked of Airtable *)
(* ===================================================================== *)

Lemma percent_encode_chars b :
  forallb is_component_char (percent_encode b) = true.
Proof. destruct b; reflexivity. Qed.

Lemma percent_encode_all_chars buf :
  forallb is_component_char (flat_map percent_encode buf) = true.
Proof.
  induction buf as [|b buf IH]; [reflexivity| ].
  cbn [flat_map]. now rewrite forallb_app, percent_encode_chars.
Qed.

Lemma encodeURIComponent_chars_len n s out :
  length s <= n -> encodeURIComponent s = Ok out ->
  forallb is_component_char out = true.
Proof.
  revert s out. induction n as [|n IH]; intros [|u rest] out Hlen;
    cbn [length] in Hlen; try lia; cbn [encodeURIComponent];
    try (intros [= <-]; reflexivity).
  destruct (is_unreserved u) eqn:Eu.
  { destruct (encodeURIComponent rest) as [o| ] eqn:Er;
      cbn [mbind result_bind bind]; [ |discriminate].
    intros [= <-]. cbn [forallb]. unfold is_component_char at 1. rewrite Eu.
    cbn [orb andb]. apply (IH rest); [lia|exact Er]. }
  destruct (is_low_surrogate u); [discriminate| ].
  destruct (is_high_surrogate u).
  - destruct rest as [|v rest']; [discriminate| ].
    destruct (is_low_surrogate v); [ |discriminate].
    destruct (encodeURIComponent rest') as [o| ] eqn:Er;
      cbn [mbind result_bind bind]; [ |discriminate].
    intros [= <-]. rewrite forallb_app, percent_encode_all_chars.
    apply (IH rest'); [cbn [length] in Hlen; lia|exact Er].
  - destruct (encodeURIComponent rest) as [o| ] eqn:Er;
      cbn [mbind result_bind bind]; [ |discriminate].
    intros [= <-]. rewrite forallb_app, percent_encode_all_chars.
    apply (IH rest); [lia|exact Er].
Qed.

Lemma encodeURIComponent_chars s out :
  encodeURIComponent s = Ok out -> forallb is_component_char out = true.
Proof. apply (encodeURIComponent_chars_len (length s)). lia. Qed.

Lemma unreserved_not_surrogate u :
  is_unreserved u = true ->
  is_high_surrogate u = false /\ is_low_surrogate u = false.
Proof.
  unfold is_unreserved, is_high_surrogate, is_low_surrogate, in_range.
  cbn [existsb]. intros H.
  destruct (N.leb_spec 0xD800 u) as [Hu| ]; [ |split; cbn [andb]; [reflexivity| ]].
  - exfalso. revert H.
    repeat match goal with
      | |- context [(?a <=? ?b)%N] =>
          first [ replace (a <=? b)%N with true by (symmetry; apply N.leb_le; lia)
                | replace (a <=? b)%N with false by (symmetry; apply N.leb_gt; lia) ]
      | |- context [(?a =? ?b)%N] =>
          replace (a =? b)%N with false by (symmetry; apply N.eqb_neq; lia)
      end.
    discriminate.
  - replace (0xDC00 <=? u)%N with false by (symmetry; apply N.leb_gt; lia).
    reflexivity.
Qed.

Lemma encodeURIComponent_well_formed_len n s :
  length s <= n -> well_formed s = true ->
  exists out, encodeURIComponent s = Ok out.
Proof.
  revert s. induction n as [|n IH]; intros [|u rest] Hlen;
    cbn [length] in Hlen; try lia; cbn [encodeURIComponent well_formed];
    try (intros _; now exists []).
  destruct (is_unreserved u) eqn:Eu.
  { destruct (unreserved_not_surrogate u Eu) as [-> ->]. cbn [negb andb].
    intros H. apply andb_true_iff in H. destruct H as [_ H].
    destruct (IH rest ltac:(lia) H) as [o ->]. cbn [mbind result_bind bind].
    eauto. }
  destruct (is_high_surrogate u) eqn:Eh.
  - assert (El : is_low_surrogate u = false).
    { unfold is_high_surrogate, is_low_surrogate in *.
      apply andb_true_iff in Eh. destruct Eh as [_ Eh].
      apply N.leb_le in Eh.
      replace (0xDC00 <=? u)%N with false by (symmetry; apply N.leb_gt; lia).
      reflexivity. }
    rewrite El. destruct rest as [|v rest']; [discriminate| ].
    destruct (is_low_surrogate v); [ |discriminate]. cbn [andb]. intros H.
    destruct (IH rest' ltac:(cbn [length] in Hlen; lia) H) as [o ->].
    cbn [mbind result_bind bind]. eauto.
  - destruct (is_low_surrogate u); [discriminate| ]. cbn [negb andb].
    intros H. apply andb_true_iff in H. destruct H as [_ H].
    destruct (IH rest ltac:(lia) H) as [o ->]. cbn [mbind result_bind bind].
    eauto.
Qed.

Lemma encodeURIComponent_well_formed s :
  well_formed s = true -> exists out, encodeURIComponent s = Ok out.
Proof. apply (encodeURIComponent_well_formed_len (length s)). lia. Qed.

Lemma column_truthy_inv settings column :
  column_truthy settings column = true ->
  exists row s,
    settings = Some row /\ column row = Some s /\ falsy s = false
    /\ column_or_empty settings column = s.
Proof.
  unfold column_truthy, column_or_empty, column_of.
  destruct settings as [row| ]; [ |discriminate].
  destruct (column row) as [s| ] eqn:Ec; [ |discriminate].
  intros H. exists row, s. split; [reflexivity| ]. split; [exact Ec| ].
  split; [now apply negb_true_iff|reflexivity].
Qed.

(** X16: the handler asks Airtable at most once, and only for a user whose
    three Airtable settings are non-empty and whose stored key decrypts to
    a non-empty text that [fetch] takes as a header value.  The request
    handed to [fetch] is then a [DELETE] with that text as bearer token;
    in its URL the table name is escaped, so that segment holds nothing
    but unreserved characters and percent signs, while the base id and the
    clip id are put in as they are. *)
Theorem delete_clip_requests
  (C : NodeCrypto) env fetch settings clipId :
  fst (delete_clip env fetch settings clipId) = []
  \/ exists row envelope key base table segment,
       settings = Some row
       /\ row_airtableApiKey row = Some envelope
       /\ row_airtableBaseId row = Some base
       /\ row_airtableTableName row = Some table
       /\ falsy envelope = false /\ falsy base = false
       /\ falsy table = false
       /\ decrypt env envelope = Ok key /\ falsy key = false
       /\ valid_header_value (lit "Bearer " ++ key) = true
       /\ encodeURIComponent table = Ok segment
       /\ forallb is_component_char segment = true
       /\ fst (delete_clip env fetch settings clipId)
          = [{| method := lit "DELETE";
                url := lit "https://api.airtable.com/v0/" ++ base ++ lit "/"
                       ++ segment ++ lit "/" ++ clipId;
                authorization := lit "Bearer " ++ key |}].
Proof.
  unfold delete_clip, delete_clip_try.
  destruct (column_truthy settings row_airtableApiKey) eqn:Ek;
    [ |left; reflexivity].
  destruct (column_truthy settings row_airtableBaseId) eqn:Eb;
    [ |left; reflexivity].
  destruct (column_truthy settings row_airtableTableName) eqn:Et;
    [ |left; reflexivity].
  cbn [negb orb].
  destruct (column_truthy_inv _ _ Ek) as (row & envelope & -> & Hk & Hkf & ->).
  destruct (column_truthy_inv _ _ Eb) as (row' & base & [= <-] & Hb & Hbf & ->).
  destruct (column_truthy_inv _ _ Et) as (row' & table & [= <-] & Ht & Htf & ->).
  destruct (decrypt env envelope) as [key| ] eqn:Ed; [ |left; reflexivity].
  destruct (falsy key) eqn:Ef; [left; reflexivity| ].
  destruct (encodeURIComponent table) as [segment| ] eqn:Ee;
    [ |left; reflexivity].
  cbn [authorization].
  destruct (valid_header_value (lit "Bearer " ++ key)) eqn:Ev;
    [ |left; reflexivity].
  right. exists row, envelope, key, base, table, segment.
  repeat (split; [first [assumption|reflexivity]| ]).
  split; [exact (encodeURIComponent_chars table segment Ee)|reflexivity].
Qed.

(** X17: the key saved in the settings is the key the clips routes
    present: after a save that brings a new key, a base id and a table
    name (all three of well-formed text, the key one that [fetch] takes as
    a header value), deleting a clip hands [fetch] exactly one request, to
    that base and table, with the submitted key as bearer token. *)
Theorem saved_key_authorises_delete
  (C : NodeCrypto) (L : NodeCryptoLaws C) env body existing (e : @entropy C)
  fetch clipId key base table :
  key_present env = true ->
  airtableApiKey body = Some key ->
  encrypts (clearApiKey body) (Some key) = true ->
  well_formed key = true ->
  valid_header_value (lit "Bearer " ++ key) = true ->
  airtableBaseId body = Some base -> falsy base = false ->
  well_formed base = true ->
  airtableTableName body = Some table -> falsy table = false ->
  well_formed table = true ->
  exists w e' segment,
    save_settings_try env body existing e = Ok (w, e')
    /\ encodeURIComponent table = Ok segment
    /\ fst (delete_clip env fetch (Some (row_after w existing)) clipId)
       = [{| method := lit "DELETE";
             url := lit "https://api.airtable.com/v0/" ++ base ++ lit "/"
                    ++ segment ++ lit "/" ++ clipId;
             authorization := lit "Bearer " ++ key |}].
Proof.
  intros Hk Hkey E Hwf Hvalid Hbase Hbf Hbw Htable Htf Htw.
  destruct (save_settings_try_written C L env body existing e Hk)
    as (w & e1 & e' & Hsave & H1 & _ & _ & Hb & Ht).
  destruct (chosen_key_decrypts C L _ _ _ _ _ _ _ key Hk H1 Hkey E Hwf)
    as (c & Hc & Hd).
  destruct (encodeURIComponent_well_formed table Htw) as [segment Hseg].
  exists w, e', segment. split; [exact Hsave| ]. split; [exact Hseg| ].
  assert (Hkf : falsy key = false).
  { unfold encrypts, keeps_stored in E.
    destruct (clearApiKey body); [discriminate E| ]. cbn [negb andb] in E.
    apply negb_true_iff in E. now apply orb_false_iff in E. }
  assert (Hcf : falsy c = false).
  { destruct c; [ |reflexivity]. exfalso.
    unfold decrypt in Hd. cbn [falsy] in Hd. injection Hd as <-.
    discriminate Hkf. }
  unfold delete_clip, delete_clip_try, column_truthy, column_or_empty,
    column_of, row_after.
  cbn [row_airtableApiKey row_airtableBaseId row_airtableTableName].
  rewrite Hc, Hb, Ht, Hbase, Htable. cbn [of_option column_after text_after].
  unfold stored_text. rewrite !toString_utf8_from_utf8 by assumption.
  unfold truthy. rewrite Hcf, Hbf, Htf. cbn [negb orb].
  rewrite Hd, Hkf, Hseg. cbn [authorization]. rewrite Hvalid. reflexivity.
Qed.

Lemma saved_key_authorises_delete_witness :
  exists w e' segment,
    save_settings_try (C:=sample_crypto) sample_env
      {| webhookUrl := webhookUrl sample_body;
         airtableApiKey := Some (lit "sk-new");
         airtableBaseId := Some (lit "appBase");
         airtableTableName := Some (lit "Clips");
         openaiApiKey := None;
         clearApiKey := false; clearOpenaiKey := false |}
      (Some sample_row) 7%nat = Ok (w, e')
    /\ encodeURIComponent (lit "Clips") = Ok segment
    /\ fst (delete_clip sample_env
              (fun _ => FetchResponse 200 (Ok []))
              (Some (row_after w (Some sample_row))) (lit "rec1"))
       = [{| method := lit "DELETE";
             url := lit "https://api.airtable.com/v0/" ++ lit "appBase"
                    ++ lit "/" ++ segment ++ lit "/" ++ lit "rec1";
             authorization := lit "Bearer " ++ lit "sk-new" |}].
Proof.
  exact (saved_key_authorises_delete sample_crypto sample_laws sample_env
           {| webhookUrl := webhookUrl sample_body;
              airtableApiKey := Some (lit "sk-new");
              airtableBaseId := Some (lit "appBase");
              airtableTableName := Some (lit "Clips");
              openaiApiKey := None;
              clearApiKey := false; clearOpenaiKey := false |}
           (Some sample_row) 7%nat (fun _ => FetchResponse 200 (Ok []))
           (lit "rec1") (lit "sk-new") (lit "appBase") (lit "Clips")
           eq_refl eq_refl eq_refl eq_refl eq_refl eq_refl eq_refl eq_refl
           eq_refl eq_refl eq_refl).
Defined.

(* ===================================================================== *)
(** ** Submitting a link: what reaches the webhook *)
(* ===================================================================== *)

Lemma caught_relay rt url payload :
  caught (relay rt url payload) = relayed (fetch_json rt url payload).
Proof.
  unfold caught, relay, relayed.
  destruct (fetch_json rt url payload) as [m|status [text|m]];
    try reflexivity; now destruct (response_ok status).
Qed.

Lemma get_some rt body name v :
  get rt body name = Ok (Some v) ->
  exists members, body = Some (JObj members) /\ member name members = Some v.
Proof.
  unfold get. destruct body as [[ | | | | |members]| ]; try discriminate.
  intros [= H]. now exists members.
Qed.

Lemma get_object rt members name :
  get rt (Some (JObj members)) name = Ok (member name members).
Proof. reflexivity. Qed.

Lemma truthy_value_some v :
  truthy_value v = true -> exists j, v = Some j /\ truthy_json j = true.
Proof. destruct v as [j| ]; [eauto|discriminate]. Qed.

(** X19: [POST /api/submit-storage-video] calls the webhook at most once,
    and only when a webhook URL is configured and the body is an object
    whose [videoUrl], [clipSize], [clipDuration] and [clipCount] are all
    truthy.  The object serialised for the webhook then has six members:
    the type ["url"], the four values as they came, whatever their JSON
    type, and a file name that is the one sent or ["video.mp4"], never a
    falsy value.  The caller gets the webhook's answer, relayed as for an
    upload. *)
Theorem storage_video_forwarded rt body :
  fst (submit_storage_video rt body) = []
  \/ exists url members videoUrl clipSize clipDuration clipCount file_name,
       webhookUrl_of_user rt = Some url /\ falsy url = false
       /\ body = Some (JObj members)
       /\ member (lit "videoUrl") members = Some videoUrl
       /\ member (lit "clipSize") members = Some clipSize
       /\ member (lit "clipDuration") members = Some clipDuration
       /\ member (lit "clipCount") members = Some clipCount
       /\ truthy_json videoUrl = true /\ truthy_json clipSize = true
       /\ truthy_json clipDuration = true /\ truthy_json clipCount = true
       /\ file_name
          = (if truthy_value (member (lit "fileName") members)
             then default JNull (member (lit "fileName") members)
             else JStr (lit "video.mp4"))
       /\ truthy_json file_name = true
       /\ submit_storage_video rt body
          = (let payload :=
               JObj [(lit "video_type", JStr (lit "url"));
                     (lit "video_url", videoUrl);
                     (lit "file_name", file_name);
                     (lit "clip_size", clipSize);
                     (lit "clip_duration", clipDuration);
                     (lit "clip_count", clipCount)] in
             ([(url, payload)], relayed (fetch_json rt url payload))).
Proof.
  unfold submit_storage_video.
  destruct (webhookUrl_of_user rt) as [url| ]; [ |left; reflexivity].
  destruct (falsy url) eqn:Hu; [left; reflexivity| ].
  destruct body as [[ | | | | |members]| ]; try (left; reflexivity);
    cbn [get mbind result_bind bind];
    try (cbn [truthy_value negb]; left; reflexivity).
  destruct (truthy_value (member (lit "videoUrl") members)) eqn:E1;
    [ |left; reflexivity].
  destruct (truthy_value (member (lit "clipSize") members)) eqn:E2;
    [ |left; reflexivity].
  destruct (truthy_value (member (lit "clipDuration") members)) eqn:E3;
    [ |left; reflexivity].
  destruct (truthy_value (member (lit "clipCount") members)) eqn:E4;
    [ |left; reflexivity].
  cbn [negb orb].
  destruct (truthy_value_some _ E1) as (videoUrl & H1 & T1).
  destruct (truthy_value_some _ E2) as (clipSize & H2 & T2).
  destruct (truthy_value_some _ E3) as (clipDuration & H3 & T3).
  destruct (truthy_value_some _ E4) as (clipCount & H4 & T4).
  right. exists url, members, videoUrl, clipSize, clipDuration, clipCount.
  eexists. split; [reflexivity| ]. split; [exact Hu| ].
  split; [reflexivity| ].
  split; [exact H1| ]. split; [exact H2| ]. split; [exact H3| ].
  split; [exact H4| ]. split; [exact T1| ]. split; [exact T2| ].
  split; [exact T3| ]. split; [exact T4| ]. split; [reflexivity| ].
  rewrite H1, H2, H3, H4.
  destruct (truthy_value (member (lit "fileName") members)) eqn:E5.
  - destruct (truthy_value_some _ E5) as (f & H5 & T5). rewrite H5.
    cbn [default]. split; [exact T5| ].
    cbn [defined_members flat_map fst snd app]. now rewrite caught_relay.
  - split; [reflexivity| ].
    cbn [defined_members flat_map fst snd app]. now rewrite caught_relay.
Qed.

(** X20: [POST /api/submit-video] calls the webhook at most once, and only
    for a body that is an object whose [video_type] is the string
    ["youtube"] or ["url"] and whose [video_url], [clip_size],
    [clip_duration] and [clip_count] are truthy.  What is serialised for
    the webhook is then the body itself, with every member it came with,
    and the caller gets the webhook's answer. *)
Theorem submit_video_forwards_body rt body :
  fst (submit_video rt body) = []
  \/ exists url members kind,
       webhookUrl_of_user rt = Some url /\ falsy url = false
       /\ body = Some (JObj members)
       /\ member (lit "video_type") members = Some (JStr kind)
       /\ (kind = lit "youtube" \/ kind = lit "url")
       /\ truthy_value (member (lit "video_url") members) = true
       /\ truthy_value (member (lit "clip_size") members) = true
       /\ truthy_value (member (lit "clip_duration") members) = true
       /\ truthy_value (member (lit "clip_count") members) = true
       /\ submit_video rt body
          = ([(url, JObj members)],
             relayed (fetch_json rt url (JObj members))).
Proof.
  unfold submit_video.
  destruct (webhookUrl_of_user rt) as [url| ]; [ |left; reflexivity].
  destruct (falsy url) eqn:Hu; [left; reflexivity| ].
  destruct body as [[ | | | | |members]| ]; try (left; reflexivity);
    cbn [get mbind result_bind bind];
    try (cbn [truthy_value negb]; left; reflexivity).
  destruct (truthy_value (member (lit "video_type") members)) eqn:E0;
    [ |left; reflexivity].
  cbn [negb].
  destruct (is_link_type (member (lit "video_type") members)) eqn:Ek;
    [ |left; reflexivity].
  destruct (truthy_value (member (lit "video_url") members)) eqn:E1;
    [ |left; reflexivity].
  destruct (truthy_value (member (lit "clip_size") members)) eqn:E2;
    [ |left; reflexivity].
  destruct (truthy_value (member (lit "clip_duration") members)) eqn:E3;
    [ |left; reflexivity].
  destruct (truthy_value (member (lit "clip_count") members)) eqn:E4;
    [ |left; reflexivity].
  cbn [negb orb]. right.
  unfold is_link_type in Ek.
  destruct (member (lit "video_type") members) as [[ | | |kind| | ]| ] eqn:Em;
    try discriminate Ek.
  exists url, members, kind.
  split; [reflexivity| ]. split; [exact Hu| ]. split; [reflexivity| ].
  split; [exact Em| ].
  split.
  { apply orb_true_iff in Ek. unfold js_string_eqb in Ek.
    destruct Ek as [Ek|Ek]; apply bool_decide_eq_true_1 in Ek; auto. }
  repeat (split; [assumption| ]). now rewrite caught_relay.
Qed.

(* ===================================================================== *)
(** ** The upload relay: which requests get no answer *)
(* ===================================================================== *)







(* ===================================================================== *)
(** ** Listing the clips *)
(* ===================================================================== *)

Lemma or_value_truthy a b : truthy_v b = true -> truthy_v (or_value a b) = true.
Proof. unfold or_value. intros H. now destruct (truthy_v a) eqn:E. Qed.

Lemma prop_object v name p :
  prop v name = Ok p ->
  forall name', exists p', prop v name' = Ok p'.
Proof.
  destruct v as [ | |[ | | | | | ]]; cbn [prop]; intros H name';
    try discriminate H; eauto.
Qed.

Lemma to_clip_facts record c :
  to_clip (Val record) = Ok c ->
  truthy_v (clip_name c) = true
  /\ truthy_v (clip_fileName c) = true
  /\ clip_videoUrl c = or_value (attachment_url record) (str "").
Proof.
  unfold to_clip.
  destruct record as [ | | |s| |members]; cbn [prop mbind result_bind bind];
    try discriminate.
  unfold attachment_url.
  destruct (member (lit "fields") members) as [fields| ];
    cbn [of_member prop mbind result_bind bind]; [ |discriminate].
  destruct fields as [ | | |s| |fs]; cbn [prop mbind result_bind bind];
    try discriminate.
  - intros [= <-].
    cbn [clip_name clip_fileName clip_videoUrl].
    split; [now apply or_value_truthy| ].
    split; [now apply or_value_truthy|reflexivity].
  - intros [= <-].
    cbn [clip_name clip_fileName clip_videoUrl].
    split; [now apply or_value_truthy| ].
    split; [now apply or_value_truthy|reflexivity].
  - intros [= <-].
    cbn [clip_name clip_fileName clip_videoUrl].
    split; [now apply or_value_truthy| ].
    split; [now apply or_value_truthy|reflexivity].
  - intros [= <-].
    cbn [clip_name clip_fileName clip_videoUrl].
    split; [now apply or_value_truthy| ].
    split; [now apply or_value_truthy|reflexivity].
  - intros [= <-].
    cbn [clip_name clip_fileName clip_videoUrl].
    split; [now apply or_value_truthy| ].
    split; [now apply or_value_truthy| ].
    destruct (member (lit "Final Clip") fs) as [[ | | | |[|first rest]| ]| ];
      reflexivity.
Qed.

Lemma or_value_empty_truthy u :
  truthy_v (or_value u (str "")) = truthy_v u.
Proof. unfold or_value. now destruct (truthy_v u) eqn:E. Qed.

Lemma or_value_empty_kept u :
  truthy_v u = true -> or_value u (str "") = u.
Proof. unfold or_value. now intros ->. Qed.

Lemma map_records_urls records mapped :
  map_records records = Ok mapped ->
  Forall (fun c => truthy_v (clip_name c) = true
                   /\ truthy_v (clip_fileName c) = true) mapped
  /\ map clip_videoUrl (List.filter (fun c => truthy_v (clip_videoUrl c)) mapped)
     = List.filter truthy_v (map attachment_url records).
Proof.
  revert mapped. induction records as [|record rest IH]; intros mapped;
    cbn [map_records].
  - intros [= <-]. split; [constructor|reflexivity].
  - destruct (to_clip (Val record)) as [c| ] eqn:Ec;
      cbn [mbind result_bind bind]; [ |discriminate].
    destruct (map_records rest) as [cs| ];
      cbn [mbind result_bind bind]; [ |discriminate].
    intros [= <-]. destruct (IH cs eq_refl) as [Hall Hurls].
    destruct (to_clip_facts record c Ec) as (Hn & Hf & Hu).
    split; [constructor; [now split|exact Hall]| ].
    cbn [List.filter map]. rewrite Hu, or_value_empty_truthy.
    destruct (truthy_v (attachment_url record)) eqn:Et.
    + cbn [map]. rewrite Hu, (or_value_empty_kept _ Et). now f_equal.
    + exact Hurls.
Qed.

Lemma filter_Forall {A} (p : A -> bool) (P : A -> Prop) l :
  Forall P l -> Forall (fun x => P x /\ p x = true) (List.filter p l).
Proof.
  induction 1 as [|x l Hx Hl IH]; cbn [List.filter]; [constructor| ].
  destruct (p x) eqn:E; [constructor; [now split|exact IH]|exact IH].
Qed.

(** X22: what a listing holds when [GET /api/clips] answers 200.  Airtable
    was asked once, with the decrypted key as bearer token, and answered
    with an object whose [records] is an array; the URLs listed are, in
    the order of the records, the truthy URLs of the first attachment of
    [Final Clip], a record without one being left out; every clip listed
    has a truthy URL, name and file name; and the URL of the first clip is
    a string. *)
Theorem listed_clips (C : NodeCrypto) env fetch settings clips :
  snd (list_clips env fetch settings) = (200%Z, ClipsList clips) ->
  Forall (fun c => (truthy_v (clip_name c) = true
                    /\ truthy_v (clip_fileName c) = true)
                   /\ truthy_v (clip_videoUrl c) = true) clips
  /\ match clips with
     | first :: _ => is_string (clip_videoUrl first) = true
     | [] => True
     end
  /\ exists req status text members records,
       fst (list_clips env fetch settings) = [req]
       /\ (exists key envelope,
             column_of settings row_airtableApiKey = Str envelope
             /\ decrypt env envelope = Ok key
             /\ authorization req = lit "Bearer " ++ key)
       /\ fetch req = ListResponse status text (Ok (JObj members))
       /\ member (lit "records") members = Some (JArr records)
       /\ map clip_videoUrl clips = List.filter truthy_v (map attachment_url records).
Proof.
  unfold list_clips, list_clips_try.
  destruct (negb (column_truthy settings row_airtableApiKey)
            || negb (column_truthy settings row_airtableBaseId)
            || negb (column_truthy settings row_airtableTableName)) eqn:Eg;
    [discriminate| ].
  assert (Hcol : exists envelope,
    column_of settings row_airtableApiKey = Str envelope
    /\ column_or_empty settings row_airtableApiKey = envelope).
  { apply orb_false_iff in Eg. destruct Eg as [Eg _].
    apply orb_false_iff in Eg. destruct Eg as [Eg _].
    apply negb_false_iff in Eg. unfold column_truthy, column_or_empty in *.
    destruct (column_of settings row_airtableApiKey) as [ | |s];
      try discriminate Eg. now exists s. }
  destruct Hcol as (envelope & Hcol & ->).
  destruct (decrypt env envelope) as [key| ] eqn:Ed; [ |discriminate].
  destruct (falsy key); [discriminate| ].
  destruct (encodeURIComponent _) as [tableName| ]; [ |discriminate].
  cbn [authorization].
  destruct (valid_header_value (lit "Bearer " ++ key)); [ |discriminate].
  cbn [negb fst snd].
  match goal with |- context [fetch ?r] => set (req := r) end.
  destruct (fetch req) as [m|status text parsed] eqn:Ef; [discriminate| ].
  destruct (negb (response_ok status));
    [destruct text; cbn [mbind result_bind bind]; discriminate| ].
  destruct parsed as [data| ]; cbn [mbind result_bind bind]; [ |discriminate].
  destruct data as [ | | |s| |members]; cbn [prop mbind result_bind bind];
    try discriminate.
  destruct (member (lit "records") members) as [[ | | | |records| ]| ] eqn:Em;
    cbn [of_member mbind result_bind bind]; try discriminate.
  destruct (map_records records) as [mapped| ] eqn:Er;
    cbn [mbind result_bind bind]; [ |discriminate].
  destruct (logged_sample _) eqn:El; cbn [mbind result_bind bind];
    [ |discriminate].
  intros [= <-].
  destruct (map_records_urls records mapped Er) as [Hall Hurls].
  split; [apply filter_Forall, Hall| ]. split.
  { unfold logged_sample in El.
    destruct (List.filter _ mapped) as [|first rest] eqn:Efl; [exact I| ].
    assert (Ht : truthy_v (clip_videoUrl first) = true).
    { assert (Hin : In first (List.filter (fun c => truthy_v (clip_videoUrl c)) mapped))
        by (rewrite Efl; now left).
      apply filter_In in Hin. apply Hin. }
    destruct (clip_videoUrl first) as [ | |[ | | | | | ]];
      try discriminate El; try discriminate Ht; reflexivity. }
  exists req, status, text, members, records.
  split; [reflexivity| ]. split; [now exists key, envelope| ].
  split; [exact Ef| ]. split; [exact Em|exact Hurls].
Qed.

Import ClipSample.

Lemma listed_clips_witness :
  exists clips,
    snd (list_clips sample_env clips_fetch (Some clips_row))
    = (200%Z, ClipsList clips)
    /\ map clip_videoUrl clips = [str "https://dl.example/a.mp4"]
    /\ Forall (fun c => (truthy_v (clip_name c) = true
                         /\ truthy_v (clip_fileName c) = true)
                        /\ truthy_v (clip_videoUrl c) = true) clips
    /\ match clips with
       | first :: _ => is_string (clip_videoUrl first) = true
       | [] => True
       end
    /\ exists req status text members records,
         fst (list_clips sample_env clips_fetch (Some clips_row)) = [req]
         /\ (exists key envelope,
               column_of (Some clips_row) row_airtableApiKey = Str envelope
               /\ decrypt sample_env envelope = Ok key
               /\ authorization req = lit "Bearer " ++ key)
         /\ clips_fetch req = ListResponse status text (Ok (JObj members))
         /\ member (lit "records") members = Some (JArr records)
         /\ map clip_videoUrl clips
            = List.filter truthy_v (map attachment_url records).
Proof.
  eexists. split; [reflexivity| ]. split; [reflexivity| ].
  apply (listed_clips sample_crypto sample_env clips_fetch (Some clips_row)).
  reflexivity.
Defined.
